(** * Verification of the fingerprinting pipeline of [src/index.js]

    The development embeds the class [BrowserFingerprint] (constructor,
    [setCookie], [getCookie], [addComponent], [get], [hashComponents]) and
    [Fingerprint.load] as Rocq functions, together with the pieces of the
    JavaScript host they call: UTF-16 strings, 32-bit integer operators,
    [JSON.stringify], [decodeURIComponent], [Promise.all], [Date] and the
    [document.cookie] accessor.

    Conventions.  A JavaScript function that can throw returns a
    [completion]; an [async] function returns the state its promise reaches
    ([call_load] tells what the call itself hands to its caller).
    State is passed explicitly: [get] takes the store and the [moment] of the
    call and returns a [Run] with the store it leaves.  The collectors are
    arbitrary functions of the ambient host state; Numbers inside the values
    they report are a parameter ([NumberHost]), Numbers of the configuration
    are the integral ones.  The store models one origin and one path.

    Besides the pipeline, the development embeds [promiseUtils.retry],
    [utils.assign] and [utils.exclude], and the collectors whose [get()]
    holds logic of its own: the classes of [components],
    [CanvasFingerprint], [FontFingerprint], [MediaDevicesFingerprint] and
    [WebRTCFingerprint] with [_hashSDP]. *)

From Stdlib Require Import ZArith NArith List Ascii String Lia Permutation Bool.
From stdpp Require Import base option list.
Import ListNotations.

Local Open Scope Z_scope.

(** ** JavaScript strings

    A JavaScript string is a sequence of UTF-16 code units. *)
Module JS.

Definition code_unit := N.
Definition jsstring := list code_unit.

(** Literals of the source are written [js "..."]. *)
Definition js (s : string) : jsstring :=
  List.map N_of_ascii (list_ascii_of_string s).

Fixpoint jsstring_eqb (a b : jsstring) : bool :=
  match a, b with
  | [], [] => true
  | x :: a', y :: b' => N.eqb x y && jsstring_eqb a' b'
  | _, _ => false
  end.

(** Whether [s] begins with [p]. *)
Fixpoint is_prefix (p s : jsstring) : bool :=
  match p, s with
  | [], _ => true
  | x :: p', y :: s' => N.eqb x y && is_prefix p' s'
  | _ :: _, [] => false
  end.

(** [Array.prototype.join] on an array of strings. *)
Fixpoint join (sep : jsstring) (parts : list jsstring) : jsstring :=
  match parts with
  | [] => []
  | [p] => p
  | p :: rest => p ++ sep ++ join sep rest
  end.

(** *** 32-bit integer operators *)

Definition two32 : Z := 2 ^ 32.
Definition two31 : Z := 2 ^ 31.

(** ToInt32 of an integral Number. *)
Definition ToInt32 (x : Z) : Z :=
  let m := x mod two32 in
  if two31 <=? m then m - two32 else m.

(** [a << k]. *)
Definition shl (a k : Z) : Z :=
  ToInt32 (Z.shiftl (ToInt32 a) (k mod 32)).

(** [a & b]. *)
Definition band (a b : Z) : Z :=
  Z.land (ToInt32 a) (ToInt32 b).

(** *** Number.prototype.toString(16) on an integral Number *)

Definition hex_digit (d : N) : code_unit :=
  if (d <? 10)%N then (48 + d)%N else (87 + d)%N.

Fixpoint hex_digits (fuel : nat) (n : Z) (acc : jsstring) : jsstring :=
  match fuel with
  | O => acc
  | S fuel' =>
      let acc' := hex_digit (Z.to_N (n mod 16)) :: acc in
      if n / 16 =? 0 then acc' else hex_digits fuel' (n / 16) acc'
  end.

Definition hex_of_nonneg (n : Z) : jsstring :=
  hex_digits (S (Z.to_nat (Z.log2 n))) n [].

Definition Number_toString_16 (n : Z) : jsstring :=
  if n <? 0 then js "-" ++ hex_of_nonneg (- n) else hex_of_nonneg n.

(** Reading such a rendering back (used to state what the rendering means). *)
Definition hex_value (c : code_unit) : option Z :=
  if ((48 <=? c) && (c <=? 57))%N then Some (Z.of_N c - 48)
  else if ((97 <=? c) && (c <=? 102))%N then Some (Z.of_N c - 87)
  else None.

Fixpoint read_hex (acc : Z) (s : jsstring) : option Z :=
  match s with
  | [] => Some acc
  | c :: rest =>
      match hex_value c with
      | Some d => read_hex (16 * acc + d) rest
      | None => None
      end
  end.

Definition read_signed_hex (s : jsstring) : option Z :=
  match s with
  | [] => None
  | c :: rest =>
      if (c =? 45)%N
      then match rest with [] => None | _ => option_map Z.opp (read_hex 0 rest) end
      else read_hex 0 s
  end.

(** *** Completions and promises *)

Inductive error :=
  | Error (message : jsstring)
  | TypeError
  | URIError.

Inductive completion (A : Type) :=
  | Normal (v : A)
  | Throw (e : error).
Arguments Normal {A} v.
Arguments Throw {A} e.

(** The state an [async] function's promise reaches. *)
Inductive promise (A : Type) :=
  | Fulfilled (v : A)
  | Rejected (e : error)
  | Pending.
Arguments Fulfilled {A} v.
Arguments Rejected {A} e.
Arguments Pending {A}.

End JS.
Export JS.

(** ** JSON.stringify

    Values a collector can report.  [JUndefined] is the value of an absent
    host property (such as [navigator.deviceMemory] where unsupported).
    A Number is kept abstract: the host decides whether it is finite and how
    [Number::toString] renders it. *)
Module JSON.

Class NumberHost := {
  number : Type;
  number_finite : number -> bool;
  Number_toString : number -> jsstring
}.

Section Stringify.
Context {NH : NumberHost}.

#[warnings="-register-all"]
Inductive json :=
  | JUndefined
  | JNull
  | JBool (b : bool)
  | JNum (n : number)
  | JStr (s : jsstring)
  | JArr (elements : list json)
  | JObj (properties : list (jsstring * json)).

(** UnicodeEscape: a backslash, [u] and four lowercase hexadecimal digits. *)
Definition UnicodeEscape (c : code_unit) : jsstring :=
  [92; 117;
   hex_digit ((c / 4096) mod 16); hex_digit ((c / 256) mod 16);
   hex_digit ((c / 16) mod 16); hex_digit (c mod 16)]%N.

Definition is_lead_surrogate (c : code_unit) : bool :=
  ((55296 <=? c) && (c <=? 56319))%N.
Definition is_trail_surrogate (c : code_unit) : bool :=
  ((56320 <=? c) && (c <=? 57343))%N.

(** One code point that is not part of a surrogate pair. *)
Definition quote_unit (c : code_unit) : jsstring :=
  if (c =? 8)%N then js "\b"
  else if (c =? 9)%N then js "\t"
  else if (c =? 10)%N then js "\n"
  else if (c =? 12)%N then js "\f"
  else if (c =? 13)%N then js "\r"
  else if (c =? 34)%N then [92; 34]%N
  else if (c =? 92)%N then [92; 92]%N
  else if ((c <? 32) || is_lead_surrogate c || is_trail_surrogate c)%N
       then UnicodeEscape c
  else [c].

Fixpoint quote_units (s : jsstring) : jsstring :=
  match s with
  | [] => []
  | c :: rest =>
      if is_lead_surrogate c then
        match rest with
        | d :: rest' =>
            if is_trail_surrogate d then c :: d :: quote_units rest'
            else quote_unit c ++ quote_units rest
        | [] => quote_unit c
        end
      else quote_unit c ++ quote_units rest
  end.

Definition QuoteJSONString (s : jsstring) : jsstring :=
  [34%N] ++ quote_units s ++ [34%N].

(** SerializeJSONProperty with no replacer and no indentation; [None] is the
    result [undefined].  An undefined array element is written [null], an
    undefined property is left out. *)
Fixpoint SerializeJSONProperty (v : json) : option jsstring :=
  match v with
  | JUndefined => None
  | JNull => Some (js "null")
  | JBool true => Some (js "true")
  | JBool false => Some (js "false")
  | JNum n => Some (if number_finite n then Number_toString n else js "null")
  | JStr s => Some (QuoteJSONString s)
  | JArr elements =>
      let element e :=
        match SerializeJSONProperty e with
        | Some str => str
        | None => js "null"
        end in
      Some (js "[" ++ join (js ",") (List.map element elements) ++ js "]")
  | JObj properties =>
      let fix members (ps : list (jsstring * json)) : list jsstring :=
        match ps with
        | [] => []
        | (k, e) :: ps' =>
            match SerializeJSONProperty e with
            | Some str => (QuoteJSONString k ++ js ":" ++ str) :: members ps'
            | None => members ps'
            end
        end in
      Some (js "{" ++ join (js ",") (members properties) ++ js "}")
  end.

Definition JSON_stringify (v : json) : option jsstring :=
  SerializeJSONProperty v.

End Stringify.

(** A host whose Numbers are the integers below 10^21 in magnitude, which
    [Number::toString] writes in plain decimal notation. *)
Fixpoint decimal_digits (fuel : nat) (n : Z) (acc : jsstring) : jsstring :=
  match fuel with
  | O => acc
  | S fuel' =>
      let acc' := (48 + Z.to_N (n mod 10))%N :: acc in
      if n / 10 =? 0 then acc' else decimal_digits fuel' (n / 10) acc'
  end.

Definition decimal_of_nonneg (n : Z) : jsstring :=
  decimal_digits (S (Z.to_nat (Z.log2 n))) n [].

Definition integer_toString (n : Z) : jsstring :=
  if n <? 0 then js "-" ++ decimal_of_nonneg (- n) else decimal_of_nonneg n.

Definition IntegerHost : NumberHost :=
  {| number := Z; number_finite := fun _ => true;
     Number_toString := integer_toString |}.

End JSON.
Export JSON.

(** ** decodeURIComponent

    The Decode operation of the language standard with an empty set of
    preserved escapes.  An escape is a percent sign and two hexadecimal
    digits; escapes with the high bit set must spell the UTF-8 encoding of a
    code point, written back as UTF-16.  Anything else throws [URIError]. *)
Module URI.

Definition percent : code_unit := 37%N.

(** ParseHexOctet accepts both letter cases. *)
Definition hex_digit_value (c : code_unit) : option N :=
  if ((48 <=? c) && (c <=? 57))%N then Some (c - 48)%N
  else if ((97 <=? c) && (c <=? 102))%N then Some (c - 87)%N
  else if ((65 <=? c) && (c <=? 70))%N then Some (c - 55)%N
  else None.

Inductive token :=
  | Unit (c : code_unit)
  | Octet (b : N).

(** First pass: replace every escape by its octet. *)
Fixpoint escapes (s : jsstring) : option (list token) :=
  match s with
  | [] => Some []
  | c :: rest =>
      if (c =? percent)%N then
        match rest with
        | h :: l :: rest' =>
            match hex_digit_value h, hex_digit_value l, escapes rest' with
            | Some x, Some y, Some ts => Some (Octet (16 * x + y) :: ts)
            | _, _, _ => None
            end
        | _ => None
        end
      else
        match escapes rest with
        | Some ts => Some (Unit c :: ts)
        | None => None
        end
  end.

Definition is_continuation (b : N) : bool := ((128 <=? b) && (b <? 192))%N.

(** UTF16EncodeCodePoint. *)
Definition UTF16EncodeCodePoint (cp : N) : jsstring :=
  if (cp <? 65536)%N then [cp]
  else [(55296 + (cp - 65536) / 1024)%N; (56320 + (cp - 65536) mod 1024)%N].

(** A code point obtained from [len] octets is accepted when it is not
    overlong, not a surrogate and at most U+10FFFF. *)
Definition valid_code_point (len : N) (cp : N) : bool :=
  match len with
  | 2%N => (128 <=? cp)%N
  | 3%N => (2048 <=? cp)%N && negb ((55296 <=? cp) && (cp <=? 57343))%N
  | _ => (65536 <=? cp)%N && (cp <=? 1114111)%N
  end.

(** Second pass: decode the octets. *)
Fixpoint octets (ts : list token) : option jsstring :=
  match ts with
  | [] => Some []
  | Unit c :: rest => option_map (cons c) (octets rest)
  | Octet b :: rest =>
      if (b <? 128)%N then option_map (cons b) (octets rest)
      else if (b <? 192)%N then None
      else if (b <? 224)%N then
        match rest with
        | Octet b1 :: rest' =>
            let cp := ((b - 192) * 64 + (b1 - 128))%N in
            if is_continuation b1 && valid_code_point 2 cp
            then option_map (app (UTF16EncodeCodePoint cp)) (octets rest')
            else None
        | _ => None
        end
      else if (b <? 240)%N then
        match rest with
        | Octet b1 :: Octet b2 :: rest' =>
            let cp := ((b - 224) * 4096 + (b1 - 128) * 64 + (b2 - 128))%N in
            if is_continuation b1 && is_continuation b2 && valid_code_point 3 cp
            then option_map (app (UTF16EncodeCodePoint cp)) (octets rest')
            else None
        | _ => None
        end
      else if (b <? 248)%N then
        match rest with
        | Octet b1 :: Octet b2 :: Octet b3 :: rest' =>
            let cp := ((b - 240) * 262144 + (b1 - 128) * 4096
                       + (b2 - 128) * 64 + (b3 - 128))%N in
            if is_continuation b1 && is_continuation b2 && is_continuation b3
               && valid_code_point 4 cp
            then option_map (app (UTF16EncodeCodePoint cp)) (octets rest')
            else None
        | _ => None
        end
      else None
  end.

Definition decodeURIComponent (s : jsstring) : completion jsstring :=
  match escapes s with
  | Some ts =>
      match octets ts with
      | Some r => Normal r
      | None => Throw URIError
      end
  | None => Throw URIError
  end.

End URI.
Export URI.

(** ** Date

    Time values are integral milliseconds since the epoch, UTC.  [None] is
    the invalid time value [NaN]. *)
Module Date.

Definition msPerDay : Z := 86400000.
Definition maxTime : Z := 8640000000000000.

Definition TimeClip (t : Z) : option Z :=
  if Z.abs t <=? maxTime then Some t else None.

Definition Day (t : Z) : Z := t / msPerDay.
Definition TimeWithinDay (t : Z) : Z := t mod msPerDay.

Definition DayFromYear (y : Z) : Z :=
  365 * (y - 1970) + (y - 1969) / 4 - (y - 1901) / 100 + (y - 1601) / 400.

(** The largest year whose first day is not after [day]. *)
Definition YearFromDay (day : Z) : Z :=
  let y0 := 1970 + (400 * day) / 146097 in
  if DayFromYear (y0 + 1) <=? day then y0 + 1
  else if DayFromYear y0 <=? day then y0
  else y0 - 1.

Definition InLeapYear (y : Z) : Z :=
  if DayFromYear (y + 1) - DayFromYear y =? 366 then 1 else 0.

(** First day, within the year, of month [m] (0 is January; 12 closes
    December). *)
Definition MonthStart (leap m : Z) : Z :=
  match m with
  | 0 => 0
  | 1 => 31
  | 2 => 59 + leap
  | 3 => 90 + leap
  | 4 => 120 + leap
  | 5 => 151 + leap
  | 6 => 181 + leap
  | 7 => 212 + leap
  | 8 => 243 + leap
  | 9 => 273 + leap
  | 10 => 304 + leap
  | 11 => 334 + leap
  | _ => 365 + leap
  end.

Fixpoint month_search (fuel : nat) (leap dayInYear m : Z) : Z :=
  match fuel with
  | O => m
  | S fuel' =>
      if dayInYear <? MonthStart leap (m + 1) then m
      else month_search fuel' leap dayInYear (m + 1)
  end.

Definition YearFromTime (t : Z) : Z := YearFromDay (Day t).
Definition DayWithinYear (t : Z) : Z := Day t - DayFromYear (YearFromTime t).
Definition MonthFromTime (t : Z) : Z :=
  month_search 11 (InLeapYear (YearFromTime t)) (DayWithinYear t) 0.
Definition DateFromTime (t : Z) : Z :=
  DayWithinYear t - MonthStart (InLeapYear (YearFromTime t)) (MonthFromTime t) + 1.
Definition WeekDay (t : Z) : Z := (Day t + 4) mod 7.
Definition HourFromTime (t : Z) : Z := (t / 3600000) mod 24.
Definition MinFromTime (t : Z) : Z := (t / 60000) mod 60.
Definition SecFromTime (t : Z) : Z := (t / 1000) mod 60.

(** MakeDay and MakeTime for fields already in range. *)
Definition MakeDate (year month date hour minute second : Z) : Z :=
  (DayFromYear year + MonthStart (InLeapYear year) month + date - 1) * msPerDay
  + hour * 3600000 + minute * 60000 + second * 1000.

Definition weekday_names : list jsstring :=
  [js "Sun"; js "Mon"; js "Tue"; js "Wed"; js "Thu"; js "Fri"; js "Sat"].

Definition month_names : list jsstring :=
  [js "Jan"; js "Feb"; js "Mar"; js "Apr"; js "May"; js "Jun";
   js "Jul"; js "Aug"; js "Sep"; js "Oct"; js "Nov"; js "Dec"].

Definition weekday_name (d : Z) : jsstring :=
  nth (Z.to_nat d) weekday_names [].

Definition month_name (m : Z) : jsstring :=
  nth (Z.to_nat m) month_names [].

Definition digit (d : Z) : code_unit := (48 + Z.to_N d)%N.

Definition two_digits (n : Z) : jsstring := [digit (n / 10); digit (n mod 10)].

(** ToZeroPaddedDecimalString(n, 4). *)
Definition four_digits (n : Z) : jsstring :=
  if n <? 10000
  then [digit (n / 1000); digit ((n / 100) mod 10);
        digit ((n / 10) mod 10); digit (n mod 10)]
  else decimal_of_nonneg n.

(** Date.prototype.toUTCString. *)
Definition toUTCString (tv : option Z) : jsstring :=
  match tv with
  | None => js "Invalid Date"
  | Some t =>
      let y := YearFromTime t in
      weekday_name (WeekDay t) ++ js ", " ++ two_digits (DateFromTime t)
      ++ js " " ++ month_name (MonthFromTime t) ++ js " "
      ++ (if y <? 0 then js "-" else []) ++ four_digits (Z.abs y) ++ js " "
      ++ two_digits (HourFromTime t) ++ js ":" ++ two_digits (MinFromTime t)
      ++ js ":" ++ two_digits (SecFromTime t) ++ js " GMT"
  end.

End Date.
Export Date.

(** ** The host's record collection: [document.cookie]

    The store follows the HTTP state management rules (RFC 6265 and its
    revision) for a single origin and path: assigning a string parses one
    record out of it and stores it; reading lists the records that have not
    expired, oldest first. *)
Module Cookie.

Record cookie := {
  c_name : jsstring;
  c_value : jsstring;
  c_expires : option Z   (* [None]: kept until the browsing session ends *)
}.

Definition jar := list cookie.

(** *** Parsing of a cookie date *)

Definition is_delimiter (c : code_unit) : bool :=
  ((c =? 9) || ((32 <=? c) && (c <=? 47)) || ((59 <=? c) && (c <=? 64))
   || ((91 <=? c) && (c <=? 96)) || ((123 <=? c) && (c <=? 126)))%N.

Definition is_digit (c : code_unit) : bool := ((48 <=? c) && (c <=? 57))%N.

Definition emit (cur : jsstring) : list jsstring :=
  match cur with [] => [] | _ => [cur] end.

Fixpoint date_tokens (s cur : jsstring) : list jsstring :=
  match s with
  | [] => emit cur
  | c :: rest =>
      if is_delimiter c then emit cur ++ date_tokens rest []
      else date_tokens rest (cur ++ [c])
  end.

(** At most [max] leading digits, with what follows them. *)
Fixpoint take_digits (max : nat) (s : jsstring) : list Z * jsstring :=
  match max, s with
  | S max', c :: rest =>
      if is_digit c
      then let '(ds, r) := take_digits max' rest in (Z.of_N c - 48 :: ds, r)
      else ([], s)
  | _, _ => ([], s)
  end.

Definition digits_value (ds : list Z) : Z :=
  fold_left (fun a d => 10 * a + d) ds 0.

(** [min]*[max]DIGIT at the head of [s]. *)
Definition digit_field (min max : nat) (s : jsstring) : option (Z * jsstring) :=
  let '(ds, r) := take_digits max s in
  if (min <=? length ds)%nat then Some (digits_value ds, r) else None.

(** What may follow a numeric field inside a token: nothing, or a
    non-digit and anything. *)
Definition field_end (s : jsstring) : bool :=
  match s with
  | [] => true
  | c :: _ => negb (is_digit c)
  end.

Definition after_colon (s : jsstring) : option jsstring :=
  match s with
  | c :: r => if (c =? 58)%N then Some r else None
  | [] => None
  end.

Definition parse_time (tok : jsstring) : option (Z * Z * Z) :=
  match digit_field 1 2 tok with
  | Some (h, r0) =>
      match after_colon r0 with
      | Some r1 =>
          match digit_field 1 2 r1 with
          | Some (m, r1') =>
              match after_colon r1' with
              | Some r2 =>
                  match digit_field 1 2 r2 with
                  | Some (s, r3) => if field_end r3 then Some (h, m, s) else None
                  | None => None
                  end
              | None => None
              end
          | None => None
          end
      | None => None
      end
  | None => None
  end.

Definition parse_day_of_month (tok : jsstring) : option Z :=
  match digit_field 1 2 tok with
  | Some (d, r) => if field_end r then Some d else None
  | None => None
  end.

Definition parse_year (tok : jsstring) : option Z :=
  match digit_field 2 4 tok with
  | Some (y, r) => if field_end r then Some y else None
  | None => None
  end.

Definition lower (c : code_unit) : code_unit :=
  if ((65 <=? c) && (c <=? 90))%N then (c + 32)%N else c.

Definition lowercase (s : jsstring) : jsstring := List.map lower s.

Fixpoint month_index (names : list jsstring) (m : Z) (p : jsstring) : option Z :=
  match names with
  | [] => None
  | n :: names' =>
      if jsstring_eqb n p then Some m else month_index names' (m + 1) p
  end.

Definition parse_month (tok : jsstring) : option Z :=
  match tok with
  | a :: b :: c :: _ =>
      month_index
        [js "jan"; js "feb"; js "mar"; js "apr"; js "may"; js "jun";
         js "jul"; js "aug"; js "sep"; js "oct"; js "nov"; js "dec"]
        0 (lowercase [a; b; c])
  | _ => None
  end.

Record date_fields := {
  f_time : option (Z * Z * Z);
  f_day : option Z;
  f_month : option Z;
  f_year : option Z
}.

Definition date_step (f : date_fields) (tok : jsstring) : date_fields :=
  match f_time f, parse_time tok with
  | None, Some t =>
      {| f_time := Some t; f_day := f_day f; f_month := f_month f; f_year := f_year f |}
  | _, _ =>
  match f_day f, parse_day_of_month tok with
  | None, Some d =>
      {| f_time := f_time f; f_day := Some d; f_month := f_month f; f_year := f_year f |}
  | _, _ =>
  match f_month f, parse_month tok with
  | None, Some m =>
      {| f_time := f_time f; f_day := f_day f; f_month := Some m; f_year := f_year f |}
  | _, _ =>
  match f_year f, parse_year tok with
  | None, Some y =>
      {| f_time := f_time f; f_day := f_day f; f_month := f_month f; f_year := Some y |}
  | _, _ => f
  end end end end.

Definition parse_cookie_date (s : jsstring) : option Z :=
  let f := fold_left date_step (date_tokens s [])
             {| f_time := None; f_day := None; f_month := None; f_year := None |} in
  match f_time f, f_day f, f_month f, f_year f with
  | Some (h, mi, sec), Some d, Some m, Some y0 =>
      let y := if (70 <=? y0) && (y0 <=? 99) then y0 + 1900
               else if (0 <=? y0) && (y0 <=? 69) then y0 + 2000 else y0 in
      let leap := InLeapYear y in
      if (1 <=? d) && (d <=? MonthStart leap (m + 1) - MonthStart leap m)
         && (1601 <=? y) && (h <=? 23) && (mi <=? 59) && (sec <=? 59)
      then Some (MakeDate y m d h mi sec)
      else None
  | _, _, _, _ => None
  end.

(** *** Assigning to [document.cookie] *)

Definition semicolon : code_unit := 59%N.
Definition equals : code_unit := 61%N.
Definition space : code_unit := 32%N.

(** The part of [s] before the first [sep], and the part after it when
    there is one. *)
Fixpoint cut (sep : code_unit) (s : jsstring) : jsstring * option jsstring :=
  match s with
  | [] => ([], None)
  | c :: rest =>
      if (c =? sep)%N then ([], Some rest)
      else let '(a, b) := cut sep rest in (c :: a, b)
  end.

(** [String.prototype.split] on a one-unit separator. *)
Fixpoint split (sep : code_unit) (s : jsstring) : list jsstring :=
  match s with
  | [] => [[]]
  | c :: rest =>
      if (c =? sep)%N then [] :: split sep rest
      else match split sep rest with
           | p :: ps => (c :: p) :: ps
           | [] => [[c]]
           end
  end.

Definition is_wsp (c : code_unit) : bool := ((c =? 32) || (c =? 9))%N.

Fixpoint trim_left (blank : code_unit -> bool) (s : jsstring) : jsstring :=
  match s with
  | c :: rest => if blank c then trim_left blank rest else s
  | [] => []
  end.

Definition trim_by (blank : code_unit -> bool) (s : jsstring) : jsstring :=
  rev (trim_left blank (rev (trim_left blank s))).

Definition trim (s : jsstring) : jsstring := trim_by is_wsp s.

(** Name and value of a [name=value] piece; a piece without [=] is a value
    with the empty name. *)
Definition name_value (s : jsstring) : jsstring * jsstring :=
  match cut equals s with
  | (n, Some v) => (trim n, trim v)
  | (v, None) => ([], trim v)
  end.

Fixpoint all_digits (s : jsstring) : bool :=
  match s with
  | [] => true
  | c :: rest => is_digit c && all_digits rest
  end.

Definition units_value (s : jsstring) : Z :=
  digits_value (List.map (fun c => Z.of_N c - 48) s).

(** The expiry an attribute asks for, if it is [Expires] or [Max-Age] and
    well formed.  [inl] is an [Expires] time, [inr] a [Max-Age] time; both
    are absolute. *)
Definition attribute_expiry (now : Z) (a : jsstring) : option (Z + Z) :=
  let '(n, v) := name_value a in
  if jsstring_eqb (lowercase n) (js "expires") then
    option_map inl (parse_cookie_date v)
  else if jsstring_eqb (lowercase n) (js "max-age") then
    match v with
    | [] => None
    | c :: rest =>
        if (c =? 45)%N && all_digits rest then Some (inr (- maxTime))
        else if is_digit c && all_digits rest then
          let delta := units_value v in
          Some (inr (if delta =? 0 then - maxTime else now + 1000 * delta))
        else None
    end
  else None.

(** The last [Max-Age] wins; without one, the last [Expires]. *)
Fixpoint expiry_of (now : Z) (attrs : list jsstring)
    (expires max_age : option Z) : option Z :=
  match attrs with
  | [] => match max_age with Some t => Some t | None => expires end
  | a :: attrs' =>
      match attribute_expiry now a with
      | Some (inl t) => expiry_of now attrs' (Some t) max_age
      | Some (inr t) => expiry_of now attrs' expires (Some t)
      | None => expiry_of now attrs' expires max_age
      end
  end.

(** A record is refused when its text holds a control character other than
    a tab, when name and value together exceed 4096 octets, or when its name
    claims the [__Secure-] or [__Host-] prefix: these prefixes ask for the
    [Secure] attribute, which [setCookie] does not write.  A record that
    carries the attribute all the same, through its value, is not told apart
    here; the properties below leave such names out. *)
Definition is_control (c : code_unit) : bool :=
  ((c <=? 8) || ((10 <=? c) && (c <=? 31)) || (c =? 127))%N.

Fixpoint utf8_length (s : jsstring) : Z :=
  match s with
  | [] => 0
  | c :: rest =>
      if (c <? 128)%N then 1 + utf8_length rest
      else if (c <? 2048)%N then 2 + utf8_length rest
      else if is_lead_surrogate c then
        match rest with
        | d :: rest' =>
            if is_trail_surrogate d then 4 + utf8_length rest'
            else 3 + utf8_length rest
        | [] => 3
        end
      else 3 + utf8_length rest
  end.

Definition reserved_prefix (n : jsstring) : bool :=
  is_prefix (js "__secure-") (lowercase n) || is_prefix (js "__host-") (lowercase n).

(** The longest life a record is granted: 400 days, the limit of the
    revised RFC 6265.  A host may grant the written date instead; the
    properties below are stated so that they do not hinge on the limit. *)
Definition age_limit : Z := 400 * msPerDay.

Definition parse_set_cookie (now : Z) (s : jsstring) : option cookie :=
  if existsb is_control s then None else
  match split semicolon s with
  | [] => None
  | nv :: attrs =>
      let '(n, v) := name_value nv in
      match n, v with
      | [], [] => None
      | _, _ =>
          if (4096 <? utf8_length n + utf8_length v) || reserved_prefix n then None
          else
            Some {| c_name := n; c_value := v;
                    c_expires :=
                      option_map (Z.min (now + age_limit))
                        (expiry_of now attrs None None) |}
      end
  end.

Definition alive (now : Z) (c : cookie) : bool :=
  match c_expires c with
  | None => true
  | Some e => now <? e
  end.

(** A record replaces the stored record of the same name in place and is
    appended otherwise. *)
Fixpoint store (c : cookie) (j : jar) : jar :=
  match j with
  | [] => [c]
  | d :: j' =>
      if jsstring_eqb (c_name d) (c_name c) then c :: j' else d :: store c j'
  end.

Definition document_cookie_set (now : Z) (s : jsstring) (j : jar) : jar :=
  match parse_set_cookie now s with
  | Some c => List.filter (alive now) (store c (List.filter (alive now) j))
  | None => j
  end.

(** *** Reading [document.cookie] *)

Definition render (c : cookie) : jsstring :=
  match c_name c with
  | [] => c_value c
  | n => n ++ [equals] ++ c_value c
  end.

Definition document_cookie_get (now : Z) (j : jar) : jsstring :=
  join (js "; ") (List.map render (List.filter (alive now) j)).

End Cookie.
Export Cookie.

(** ** Values of the configuration object

    The primitive values an option can hold.  Numbers are the integral ones,
    with [VNaN] standing for not-a-number. *)
Module Value.

Inductive jsval :=
  | VUndefined
  | VNull
  | VBool (b : bool)
  | VNumber (n : Z)
  | VNaN
  | VString (s : jsstring).

Definition ToBoolean (v : jsval) : bool :=
  match v with
  | VUndefined | VNull | VNaN => false
  | VBool b => b
  | VNumber n => negb (n =? 0)
  | VString s => match s with [] => false | _ => true end
  end.

(** [a || b]. *)
Definition or_else (a b : jsval) : jsval := if ToBoolean a then a else b.

(** ToString, as a template literal applies it. *)
Definition ToString (v : jsval) : jsstring :=
  match v with
  | VUndefined => js "undefined"
  | VNull => js "null"
  | VBool true => js "true"
  | VBool false => js "false"
  | VNumber n => integer_toString n
  | VNaN => js "NaN"
  | VString s => s
  end.

(** ToNumber; [None] is [NaN].  A string counts as a Number when, trimmed,
    it is empty or an optionally signed run of decimal digits; the other
    numeric spellings do not denote integral Numbers written this way and
    are left at [NaN]. *)
Definition is_StrWhiteSpace (c : code_unit) : bool :=
  (((9 <=? c) && (c <=? 13)) || (c =? 32) || (c =? 160) || (c =? 5760)
   || ((8192 <=? c) && (c <=? 8202)) || (c =? 8232) || (c =? 8233)
   || (c =? 8239) || (c =? 8287) || (c =? 12288) || (c =? 65279))%N.

Definition StringToNumber (s : jsstring) : option Z :=
  match trim_by is_StrWhiteSpace s with
  | [] => Some 0
  | c :: rest =>
      if (c =? 45)%N then
        match rest with
        | [] => None
        | _ => if all_digits rest then Some (- units_value rest) else None
        end
      else if (c =? 43)%N then
        match rest with
        | [] => None
        | _ => if all_digits rest then Some (units_value rest) else None
        end
      else if all_digits (c :: rest) then Some (units_value (c :: rest))
      else None
  end.

Definition ToNumber (v : jsval) : option Z :=
  match v with
  | VUndefined | VNaN => None
  | VNull => Some 0
  | VBool b => Some (if b then 1 else 0)
  | VNumber n => Some n
  | VString s => StringToNumber s
  end.

(** [String.prototype.indexOf]: the first position at which [p] occurs in
    [s], or -1. *)
Fixpoint indexOf_from (i : Z) (s p : jsstring) : Z :=
  if is_prefix p s then i
  else match s with
       | [] => -1
       | _ :: s' => indexOf_from (i + 1) s' p
       end.

Definition indexOf (s p : jsstring) : Z := indexOf_from 0 s p.

(** [String.prototype.substring] for [0 <= from <= to]. *)
Definition substring (s : jsstring) (from to : nat) : jsstring :=
  firstn (to - from) (skipn from s).

(** [Array.prototype.includes] on strings. *)
Definition includes (l : list jsstring) (k : jsstring) : bool :=
  existsb (jsstring_eqb k) l.

End Value.
Export Value.

(** ** The class [BrowserFingerprint] and [Fingerprint.load] *)
Module Fingerprint.

Section Session.
Context {NH : NumberHost}.

(** The ambient host state the collectors read. *)
Context {host : Type}.

(** What a collector's [get()] reports. *)
Record SignalResult := {
  key : jsstring;
  value : json
}.

(** How a call of a collector's [get()] ends: a plain method returns or
    throws, an [async] method hands back a promise that is later fulfilled
    or rejected. *)
Inductive outcome :=
  | Returns (r : SignalResult)
  | Throws (e : error)
  | Resolves (r : SignalResult)
  | Rejects (e : error).

Record Collector := {
  collect : host -> outcome
}.

Record Options := {
  o_apiKey : jsval;
  o_cookieName : jsval;
  o_cookieDays : jsval
}.

(** The object [{}]. *)
Definition no_options : Options :=
  {| o_apiKey := VUndefined; o_cookieName := VUndefined; o_cookieDays := VUndefined |}.

Record BrowserFingerprint := {
  options : Options;
  apiKey : jsval;
  cookieName : jsval;
  cookieDays : jsval;
  components : list Collector
}.

(** [constructor(options = {})] *)
Definition constructor (options : Options) : completion BrowserFingerprint :=
  let apiKey := o_apiKey options in
  let cookieName := or_else (o_cookieName options) (VString (js "smbfjs_id")) in
  let cookieDays := or_else (o_cookieDays options) (VNumber 365) in
  if negb (ToBoolean apiKey) then Throw (Error (js "API key is required"))
  else Normal {| options := options; apiKey := apiKey;
                 cookieName := cookieName; cookieDays := cookieDays;
                 components := [] |}.

(** [setCookie(value)], run when the clock reads [now], on the store [j]. *)
Definition setCookie (this : BrowserFingerprint) (now : Z) (j : jar)
    (value : jsstring) : jar :=
  let date :=
    match ToNumber (cookieDays this) with
    | Some days => TimeClip (now + days * 24 * 60 * 60 * 1000)
    | None => None
    end in
  let expires := js "expires=" ++ toUTCString date in
  document_cookie_set now
    (ToString (cookieName this) ++ js "=" ++ value ++ js ";" ++ expires
     ++ js ";path=/;SameSite=Lax") j.

(** The loop of [getCookie] over the pieces of the decoded store. *)
Fixpoint strip_spaces (cookie : jsstring) : jsstring :=
  match cookie with
  | c :: rest => if (c =? space)%N then strip_spaces rest else cookie
  | [] => []
  end.

Fixpoint find_cookie (name : jsstring) (cookies : list jsstring) : option jsstring :=
  match cookies with
  | [] => None
  | cookie :: cookies' =>
      let cookie := strip_spaces cookie in
      if indexOf cookie name =? 0
      then Some (substring cookie (length name) (length cookie))
      else find_cookie name cookies'
  end.

(** [getCookie()]; [None] is [null]. *)
Definition getCookie (this : BrowserFingerprint) (now : Z) (j : jar)
    : completion (option jsstring) :=
  let name := ToString (cookieName this) ++ js "=" in
  match decodeURIComponent (document_cookie_get now j) with
  | Throw e => Throw e
  | Normal decodedCookie =>
      let cookies := split semicolon decodedCookie in
      Normal (find_cookie name cookies)
  end.

(** [verifyApiKey()] *)
Definition verifyApiKey (this : BrowserFingerprint) : promise bool :=
  Fulfilled true.

(** [addComponent(component)] *)
Definition addComponent (this : BrowserFingerprint) (component : Collector)
    : BrowserFingerprint :=
  {| options := options this; apiKey := apiKey this;
     cookieName := cookieName this; cookieDays := cookieDays this;
     components := components this ++ [component] |}.

(** [hashComponents(components)] *)
Definition hash_step (hash : Z) (char : code_unit) : Z :=
  let hash := shl hash 5 - hash + Z.of_N char in
  band hash hash.

Definition hashComponents (components : list SignalResult) : completion jsstring :=
  match JSON_stringify (JArr (List.map value components)) with
  | Some str => Normal (Number_toString_16 (fold_left hash_step str 0))
  | None => Throw TypeError
  end.

(** The keys written out in [get()]. *)
Definition stable_keys : list jsstring :=
  [js "userAgent"; js "hardwareConcurrency"; js "deviceMemory"; js "language";
   js "colorDepth"; js "pixelRatio"; js "videoCard"; js "canvas"; js "webgl";
   js "fonts"].

Definition stable (components : list SignalResult) : list SignalResult :=
  List.filter (fun c => includes stable_keys (key c)) components.

(** *** The collection phase

    [this.components.map((c) => c.get())] calls the collectors in order; a
    throw ends the walk.  [launched] records how many calls were made. *)
Inductive settlement :=
  | Fulfils (r : SignalResult)
  | RejectsWith (e : error).

Fixpoint launch (h : host) (cs : list Collector)
    : completion (list settlement) * nat :=
  match cs with
  | [] => (Normal [], O)
  | c :: cs' =>
      match collect c h with
      | Throws e => (Throw e, 1%nat)
      | Returns r | Resolves r =>
          match launch h cs' with
          | (Normal ps, n) => (Normal (Fulfils r :: ps), S n)
          | (Throw e, n) => (Throw e, S n)
          end
      | Rejects e =>
          match launch h cs' with
          | (Normal ps, n) => (Normal (RejectsWith e :: ps), S n)
          | (Throw e', n) => (Throw e', S n)
          end
      end
  end.

(** [Promise.all].  The array [values] starts with one empty slot per
    element; when the promise at index [i] is fulfilled its value is stored
    at [i] and the count of outstanding elements drops, and the aggregate is
    fulfilled with [values] when the count reaches zero; the first rejection
    rejects the aggregate.  [schedule] lists the indices in the order in which
    the promises are settled. *)
Record all_state := {
  values : list (option SignalResult);
  remaining : nat;
  aggregate : promise (list (option SignalResult))
}.

Definition all_init (ps : list settlement) : all_state :=
  {| values := replicate (length ps) None;
     remaining := length ps;
     aggregate := match ps with [] => Fulfilled [] | _ => Pending end |}.

Definition all_step (ps : list settlement) (st : all_state) (i : nat) : all_state :=
  match aggregate st with
  | Pending =>
      match ps !! i with
      | Some (Fulfils r) =>
          match values st !! i with
          | Some None =>
              let values' := <[i := Some r]> (values st) in
              let remaining' := (remaining st - 1)%nat in
              {| values := values'; remaining := remaining';
                 aggregate := if (remaining' =? 0)%nat
                              then Fulfilled values' else Pending |}
          | _ => st
          end
      | Some (RejectsWith e) =>
          {| values := values st; remaining := remaining st;
             aggregate := Rejected e |}
      | None => st
      end
  | _ => st
  end.

Definition Promise_all (ps : list settlement) (schedule : list nat)
    : promise (list (option SignalResult)) :=
  aggregate (fold_left (all_step ps) schedule (all_init ps)).

(** Reading [c.key] off every element; an empty slot has none. *)
Fixpoint elements (slots : list (option SignalResult))
    : completion (list SignalResult) :=
  match slots with
  | [] => Normal []
  | None :: _ => Throw TypeError
  | Some r :: slots' =>
      match elements slots' with
      | Normal rs => Normal (r :: rs)
      | Throw e => Throw e
      end
  end.

(** *** [get()] *)

(** What one call of [get()] meets: the clock when the store is read, the
    clock when the collection phase has ended, the host state the collectors
    read, and the order in which their promises are settled. *)
Record moment := {
  clock : Z;
  clock_after : Z;
  ambient : host;
  schedule : list nat
}.

(** The object [get()] resolves with. *)
Record Result := {
  visitorId : jsstring;
  fromCookie : option bool;
  r_components : option (list SignalResult)
}.

(** The state [get()] leaves behind, next to its promise: the store, and
    the number of collectors it called. *)
Record Run := {
  promised : promise Result;
  stored : jar;
  launched : nat
}.

Definition truthy (v : option jsstring) : bool :=
  match v with
  | None => false
  | Some s => ToBoolean (VString s)
  end.

Definition get (this : BrowserFingerprint) (m : moment) (j : jar) : Run :=
  match verifyApiKey this with
  | Fulfilled _ =>
      match getCookie this (clock m) j with
      | Throw e => {| promised := Rejected e; stored := j; launched := O |}
      | Normal cached =>
          if negb (truthy cached) then
            match launch (ambient m) (components this) with
            | (Throw e, n) =>
                {| promised := Rejected e; stored := j; launched := n |}
            | (Normal ps, n) =>
                match Promise_all ps (schedule m) with
                | Fulfilled slots =>
                    match elements slots with
                    | Normal components =>
                        let stableComponents := stable components in
                        match hashComponents stableComponents with
                        | Normal visitorId =>
                            {| promised :=
                                 Fulfilled {| visitorId := visitorId;
                                              fromCookie := None;
                                              r_components := Some components |};
                               stored := setCookie this (clock_after m) j visitorId;
                               launched := n |}
                        | Throw e =>
                            {| promised := Rejected e; stored := j; launched := n |}
                        end
                    | Throw e =>
                        {| promised := Rejected e; stored := j; launched := n |}
                    end
                | Rejected e =>
                    {| promised := Rejected e; stored := j; launched := n |}
                | Pending =>
                    {| promised := Pending; stored := j; launched := n |}
                end
            end
          else
            {| promised :=
                 Fulfilled {| visitorId := match cached with Some s => s | None => [] end;
                              fromCookie := Some true;
                              r_components := None |};
               stored := j; launched := O |}
      end
  | Rejected e => {| promised := Rejected e; stored := j; launched := O |}
  | Pending => {| promised := Pending; stored := j; launched := O |}
  end.

(** *** [Fingerprint.load(options = {})]

    [builtin] stands for the twenty-three collector objects the source
    creates, in the order in which it registers them. *)
Definition load (builtin : list Collector) (options : Options)
    : promise BrowserFingerprint :=
  match constructor options with
  | Throw e => Rejected e
  | Normal bf => Fulfilled (fold_left addComponent builtin bf)
  end.

(** What the expression [Fingerprint.load(options)] gives its caller.  [load]
    is declared [async]: the call itself ends normally and hands over the
    promise, whatever happens in the body. *)
Definition call_load (builtin : list Collector) (options : Options)
    : completion (promise BrowserFingerprint) :=
  Normal (load builtin options).

(** The keys those collectors report, in registration order. *)
Definition builtin_keys : list jsstring :=
  [js "userAgent"; js "webdriver"; js "language"; js "colorDepth";
   js "deviceMemory"; js "pixelRatio"; js "hardwareConcurrency"; js "canvas";
   js "audio"; js "webgl"; js "fonts"; js "plugins"; js "touch";
   js "hardware"; js "battery"; js "voices"; js "webrtc"; js "cssFeatures";
   js "mediaDevices"; js "pressureSensor"; js "gpu"; js "network";
   js "videoCard"].

End Session.
End Fingerprint.
Export Fingerprint.

(** ** The hasher in the words of its description

    The accumulator update [h = (h << 5) - h + code], wrapped to the signed
    32-bit range at every step, starting from zero. *)
Module Described.

Definition wrap_int32 (x : Z) : Z := (x + 2 ^ 31) mod 2 ^ 32 - 2 ^ 31.

Definition described_step (h : Z) (code : code_unit) : Z :=
  wrap_int32 (Z.shiftl h 5 - h + Z.of_N code).

Definition described_fold (str : jsstring) : Z :=
  fold_left described_step str 0.

(** A character of a lowercase hexadecimal rendering. *)
Definition is_lower_hex (c : code_unit) : bool :=
  (((48 <=? c) && (c <=? 57)) || ((97 <=? c) && (c <=? 102)))%N.

(** The text of one value inside the serialized list. *)
Definition element_text {NH : NumberHost} (v : json) : jsstring :=
  match SerializeJSONProperty v with
  | Some str => str
  | None => js "null"
  end.

(** *** Notions used to state the properties of the store *)

(** A run of characters that the date tokenizer keeps together. *)
Definition word (w : jsstring) : Prop :=
  w <> [] /\ Forall (fun c => is_delimiter c = false) w.

(** The first instant of the year 10000: from then on a written date has a
    five-digit year, which the host does not read back. *)
Definition year10000 : Z := 253402300800000.

(** A visible ASCII character other than [;], [=] and [%]. *)
Definition plain_unit (c : code_unit) : bool :=
  ((33 <=? c) && (c <=? 126) && negb (c =? 59) && negb (c =? 61)
   && negb (c =? 37))%N.

Definition plain_text (s : jsstring) : bool := forallb plain_unit s.

(** A record name the store keeps as it is given. *)
Definition storable_name (n : jsstring) : bool :=
  plain_text n && negb (jsstring_eqb n []) && (length n <=? 4000)%nat
  && negb (reserved_prefix n).

(** A character that neither ends a record nor makes the store refuse it. *)
Definition harmless (c : code_unit) : Prop :=
  is_control c = false /\ (c =? semicolon)%N = false.

(** The first stored record under the name [n]. *)
Definition record_of (n : jsstring) (j : jar) : option cookie :=
  List.find (fun c => jsstring_eqb (c_name c) n) j.

(** The records that reading the store at [now] shows. *)
Definition visible (now : Z) (j : jar) : jar := List.filter (alive now) j.

(** The expiry the store keeps for a record written at [now] for [days]
    days. *)
Definition kept_until (now days : Z) : Z :=
  Z.min (now + age_limit) (1000 * ((now + days * 24 * 60 * 60 * 1000) / 1000)).

(** The expiry date [setCookie] writes at [now] for [days] days; the text of
    a date tells whole seconds. *)
Definition written_expiry (now days : Z) : Z :=
  1000 * ((now + days * 24 * 60 * 60 * 1000) / 1000).


(** A record name made of visible ASCII characters other than [;], [=] and
    [%], not empty and without the [__Secure-] or [__Host-] prefix. *)
Definition token_name (n : jsstring) : bool :=
  plain_text n && negb (jsstring_eqb n []) && negb (reserved_prefix n).

(** *** Notions used to state the properties of the pipeline *)

Section Notions.
Context {NH : NumberHost} {host : Type}.

(** The collector [c] ends by handing [r] over, directly or through a
    promise. *)
Definition reports (h : host) (c : Collector) (r : SignalResult) : Prop :=
  collect c h = Returns r \/ collect c h = Resolves r.

(** The collector [c] raises [e], directly or through a promise. *)
Definition raises (h : host) (c : Collector) (e : error) : Prop :=
  collect c h = Throws e \/ collect c h = Rejects e.

(** The slot at [i] of the array [Promise.all] fills, once the promises
    listed in [settled] are fulfilled. *)
Definition slot (ps : list settlement) (settled : list nat) (i : nat)
    : option (option SignalResult) :=
  match ps !! i with
  | Some (Fulfils r) => Some (if decide (i ∈ settled) then Some r else None)
  | Some (RejectsWith _) => Some None
  | None => None
  end.

Definition fulfils (ps : list settlement) (i : nat) : Prop :=
  exists r, ps !! i = Some (Fulfils r).

(** What a launched promise owes to its collector. *)
Definition settles (h : host) (c : @Collector NH host) (p : settlement) : Prop :=
  match p with
  | Fulfils r => reports h c r
  | RejectsWith e => collect c h = Rejects e
  end.

(** A collector that returns the string [v] under the key [k]. *)
Definition fixed_collector (k v : string) : @Collector NH host :=
  {| collect := fun _ => Returns {| key := js k; value := JStr (js v) |} |}.

(** The session of the concrete scenario: default record name and lifetime,
    collectors for [userAgent] and [canvas]. *)
Definition scenario_session : @BrowserFingerprint NH host :=
  {| options := {| o_apiKey := VString (js "k"); o_cookieName := VUndefined;
                   o_cookieDays := VUndefined |};
     apiKey := VString (js "k");
     cookieName := VString (js "smbfjs_id");
     cookieDays := VNumber 365;
     components := [fixed_collector "userAgent" "UA-X";
                    fixed_collector "canvas" "CANVAS-Y"] |}.

(** A collector whose promise is rejected, against its contract. *)
Definition rejecting_collector (message : string) : @Collector NH host :=
  {| collect := fun _ => Rejects (Error (js message)) |}.

(** The scenario's session with such a collector in the place of the
    second one. *)
Definition failing_session : @BrowserFingerprint NH host :=
  {| options := options scenario_session;
     apiKey := apiKey scenario_session;
     cookieName := cookieName scenario_session;
     cookieDays := cookieDays scenario_session;
     components := [fixed_collector "userAgent" "UA-X";
                    rejecting_collector "denied"] |}.

Definition scenario_results : list SignalResult :=
  [{| key := js "userAgent"; value := JStr (js "UA-X") |};
   {| key := js "canvas"; value := JStr (js "CANVAS-Y") |}].

(** The identifier the description assigns to a full result list. *)
Definition identifier (components : list SignalResult) : jsstring :=
  Number_toString_16
    (described_fold
       (js "[" ++ join (js ",") (List.map element_text (List.map value (stable components)))
        ++ js "]")).

(** The allow-list of the description, and the subset of a result list it
    selects: the results whose key is on the list, in the order of the
    result list. *)
Definition described_keys : list jsstring :=
  [js "userAgent"; js "hardwareConcurrency"; js "deviceMemory"; js "language";
   js "colorDepth"; js "pixelRatio"; js "videoCard"; js "canvas"; js "webgl";
   js "fonts"].

Fixpoint stable_subset (components : list (@SignalResult NH)) : list SignalResult :=
  match components with
  | [] => []
  | c :: rest =>
      if decide (key c ∈ described_keys) then c :: stable_subset rest
      else stable_subset rest
  end.

(** The identifier of a full result list, told without the code's filter:
    the hexadecimal rendering of the described hash of the serialized values
    of the selected subset. *)
Definition described_identifier (components : list (@SignalResult NH)) : jsstring :=
  Number_toString_16
    (described_fold
       (js "[" ++ join (js ",") (List.map element_text
                                   (List.map value (stable_subset components)))
        ++ js "]")).

(** The serialized value list of the scenario, [["UA-X","CANVAS-Y"]] with
    its quotation marks. *)
Definition quoted (s : string) : jsstring := [34%N] ++ js s ++ [34%N].

Definition scenario_text : jsstring :=
  js "[" ++ quoted "UA-X" ++ js "," ++ quoted "CANVAS-Y" ++ js "]".

End Notions.

End Described.
Export Described.

(** ** [promiseUtils.retry]

    [fn] is called anew at every attempt; the function [fn] below tells how
    its call number [i], counted from zero, ends. *)
Module PromiseUtils.

Section Retry.
Context {A : Type}.

(** How a call [fn()] ends: with a promise that is fulfilled, rejected or
    never settled, or with an exception, raised by [fn] or by reading [then]
    off what it returns. *)
Inductive attempt_end :=
  | Fulfil (v : A)
  | Reject (err : error)
  | Raise (err : error)
  | Hang.

(** What [retry] leaves behind: the state its promise reaches, the number of
    calls of [fn], and the delays handed to [setTimeout], latest first. *)
Record Retried := {
  settled : promise A;
  calls : nat;
  timers : list Z
}.

(** The closure [attempt] at call number [i] of [fn], with the captured
    variable [retries] as it stands.  The first call runs inside the executor
    of the promise, where an exception rejects the promise; the later ones
    run from a timer, where an exception is lost.  [fuel] bounds the calls
    that may follow; [retry] supplies enough. *)
Fixpoint attempt (fuel : nat) (fn : nat -> attempt_end) (delay : Z)
    (i : nat) (retries : Z) (timers : list Z) : Retried :=
  match fn i with
  | Fulfil v => {| settled := Fulfilled v; calls := S i; timers := timers |}
  | Reject err =>
      if 0 <? retries then
        match fuel with
        | S fuel' => attempt fuel' fn delay (S i) (retries - 1) (delay :: timers)
        | O => {| settled := Pending; calls := S i; timers := delay :: timers |}
        end
      else {| settled := Rejected err; calls := S i; timers := timers |}
  | Raise err =>
      {| settled := match i with O => Rejected err | S _ => Pending end;
         calls := S i; timers := timers |}
  | Hang => {| settled := Pending; calls := S i; timers := timers |}
  end.

(** [retry(fn, retries = 3, delay = 1000)], for integral Numbers; [None] is
    an argument left out or [undefined]. *)
Definition retry (fn : nat -> attempt_end) (retries delay : option Z) : Retried :=
  let retries := match retries with Some r => r | None => 3 end in
  let delay := match delay with Some d => d | None => 1000 end in
  attempt (Z.to_nat retries) fn delay 0 retries [].

End Retry.

Arguments attempt_end : clear implicits.
Arguments Retried : clear implicits.

End PromiseUtils.
Export PromiseUtils.

(** ** [utils.assign] and [utils.exclude]

    An object is given by its own enumerable string-keyed data properties,
    in the order in which [for ... in] visits them (array indices in
    ascending order, then the other keys in the order of their creation),
    and by its prototype. *)
Module Utils.

Section Objects.

(** The property values, which the functions copy as they are. *)
Context {V : Type}.

(** What the setter of [__proto__] tells apart. *)
Inductive kind := AnObject | ANull | APrimitive.

Context (kind_of : V -> kind).

(** [Object.prototype], no prototype, or an object put in its place, of
    which nothing is known. *)
Inductive proto :=
  | ObjectPrototype
  | NoPrototype
  | Foreign (v : V).

Record object := {
  own : list (jsstring * V);
  prototype : proto
}.

(** The object [{}]. *)
Definition empty_object : object := {| own := []; prototype := ObjectPrototype |}.

(** [obj[key]] on the own properties. *)
Fixpoint get_own (props : list (jsstring * V)) (key : jsstring) : option V :=
  match props with
  | [] => None
  | (k, v) :: rest => if jsstring_eqb k key then Some v else get_own rest key
  end.

(** The array index a key denotes: a canonical decimal numeral below
    [2^32 - 1]. *)
Definition array_index (key : jsstring) : option Z :=
  match key with
  | [] => None
  | c :: rest =>
      if (c =? 48)%N then match rest with [] => Some 0 | _ => None end
      else if is_digit c && all_digits rest then
        let n := units_value key in
        if n <? 2 ^ 32 - 1 then Some n else None
      else None
  end.

(** Creating the property [key]: an array index goes before the larger
    indices and the other keys, another key goes last. *)
Fixpoint create_index (i : Z) (key : jsstring) (v : V) (props : list (jsstring * V))
    : list (jsstring * V) :=
  match props with
  | [] => [(key, v)]
  | (k, w) :: rest =>
      match array_index k with
      | Some i' =>
          if i' <? i then (k, w) :: create_index i key v rest
          else (key, v) :: props
      | None => (key, v) :: props
      end
  end.

Definition create (key : jsstring) (v : V) (props : list (jsstring * V))
    : list (jsstring * V) :=
  match array_index key with
  | Some i => create_index i key v props
  | None => props ++ [(key, v)]
  end.

(** Writing the own property [key]. *)
Fixpoint update (key : jsstring) (v : V) (props : list (jsstring * V))
    : list (jsstring * V) :=
  match props with
  | [] => []
  | (k, w) :: rest =>
      if jsstring_eqb k key then (k, v) :: rest else (k, w) :: update key v rest
  end.

(** [target[key] = v].  An own property is written.  Otherwise the
    assignment goes through the prototype: [Object.prototype] holds the
    accessor [__proto__], whose setter replaces the prototype by an object or
    by [null] and ignores any other value, and holds writable data
    properties besides, so that every other key is created on the target.
    [None]: the prototype is an object of which nothing is known. *)
Definition put (target : object) (key : jsstring) (v : V) : option object :=
  match get_own (own target) key with
  | Some _ => Some {| own := update key v (own target); prototype := prototype target |}
  | None =>
      match prototype target with
      | Foreign _ => None
      | NoPrototype =>
          Some {| own := create key v (own target); prototype := NoPrototype |}
      | ObjectPrototype =>
          if jsstring_eqb key (js "__proto__") then
            match kind_of v with
            | AnObject => Some {| own := own target; prototype := Foreign v |}
            | ANull => Some {| own := own target; prototype := NoPrototype |}
            | APrimitive => Some target
            end
          else Some {| own := create key v (own target); prototype := ObjectPrototype |}
      end
  end.

(** The loop of [assign] over the keys of one source. *)
Fixpoint assign_source (props : list (jsstring * V)) (target : object)
    : option object :=
  match props with
  | [] => Some target
  | (key, v) :: rest =>
      match put target key v with
      | Some target' => assign_source rest target'
      | None => None
      end
  end.

(** [assign(target, ...sources)]; a source [None] is [null] or
    [undefined], over which the loop does not run. *)
Fixpoint assign (target : object) (sources : list (option object)) : option object :=
  match sources with
  | [] => Some target
  | None :: rest => assign target rest
  | Some source :: rest =>
      match assign_source (own source) target with
      | Some target' => assign target' rest
      | None => None
      end
  end.

(** [Array.prototype.indexOf] with a string as the element sought: strict
    equality holds for an equal string only. *)
Fixpoint array_indexOf_from (i : Z) (array : list jsval) (key : jsstring) : Z :=
  match array with
  | [] => -1
  | VString s :: rest =>
      if jsstring_eqb s key then i else array_indexOf_from (i + 1) rest key
  | _ :: rest => array_indexOf_from (i + 1) rest key
  end.

Definition array_indexOf (array : list jsval) (key : jsstring) : Z :=
  array_indexOf_from 0 array key.

(** [exclude(obj, excludeKeys)], for an array [excludeKeys]. *)
Fixpoint exclude_loop (props : list (jsstring * V)) (excludeKeys : list jsval)
    (result : object) : option object :=
  match props with
  | [] => Some result
  | (key, v) :: rest =>
      if array_indexOf excludeKeys key <? 0 then
        match put result key v with
        | Some result' => exclude_loop rest excludeKeys result'
        | None => None
        end
      else exclude_loop rest excludeKeys result
  end.

Definition exclude (obj : object) (excludeKeys : list jsval) : option object :=
  exclude_loop (own obj) excludeKeys empty_object.

End Objects.

Arguments object : clear implicits.
Arguments proto : clear implicits.

End Utils.
Export Utils.

(** ** The collectors

    The collectors whose [get()] does more than hand a host value over, with
    the simple ones that [Fingerprint.load] registers ahead of them. *)
Module Collectors.

Section Builtin.
Context {NH : NumberHost}.

(** An element of the array [enumerateDevices()] resolves with. *)
Record MediaDeviceInfo := {
  md_kind : jsstring;
  md_label : jsstring;
  md_deviceId : jsstring;
  md_groupId : jsstring
}.

(** What these collectors read of the browser.  A property the browser
    lacks reads [undefined], here [None]. *)
Record Browser := {
  navigator_userAgent : jsstring;
  navigator_webdriver : option bool;
  navigator_language : jsstring;
  screen_colorDepth : number;
  navigator_deviceMemory : option number;
  window_devicePixelRatio : number;
  navigator_hardwareConcurrency : option number;
  (** [canvas.getContext("2d")]: [None] is [null]; otherwise what
      [canvas.toDataURL()] gives once the test shapes are drawn. *)
  canvas_2d : option jsstring;
  (** Whether [document.getElementsByTagName("body")] has an element. *)
  document_body : bool;
  (** [offsetWidth] and [offsetHeight] of the test span in the given font
      family, when the span is laid out in the body. *)
  layout : jsstring -> Z * Z;
  (** [navigator.mediaDevices.enumerateDevices] ([None]: there is no such
      function) and how awaiting its call ends. *)
  enumerateDevices : option (completion (list MediaDeviceInfo));
  (** [window.RTCPeerConnection] ([None]: there is none) and how creating
      the offer and reading its [sdp] ends. *)
  createOffer : option (completion jsstring)
}.

Definition optional (n : option number) : json :=
  match n with
  | Some n => JNum n
  | None => JUndefined
  end.

(** The classes of the object [components]. *)
Definition components_userAgent : @Collector NH Browser :=
  {| collect := fun h =>
       Returns {| key := js "userAgent"; value := JStr (navigator_userAgent h) |} |}.

Definition components_webdriver : @Collector NH Browser :=
  {| collect := fun h =>
       Returns {| key := js "webdriver";
                  value := JBool (match navigator_webdriver h with
                                  | Some true => true
                                  | _ => false
                                  end) |} |}.

Definition components_language : @Collector NH Browser :=
  {| collect := fun h =>
       Returns {| key := js "language"; value := JStr (navigator_language h) |} |}.

Definition components_colorDepth : @Collector NH Browser :=
  {| collect := fun h =>
       Returns {| key := js "colorDepth"; value := JNum (screen_colorDepth h) |} |}.

Definition components_deviceMemory : @Collector NH Browser :=
  {| collect := fun h =>
       Returns {| key := js "deviceMemory";
                  value := optional (navigator_deviceMemory h) |} |}.

Definition components_pixelRatio : @Collector NH Browser :=
  {| collect := fun h =>
       Returns {| key := js "pixelRatio";
                  value := JNum (window_devicePixelRatio h) |} |}.

Definition components_hardwareConcurrency : @Collector NH Browser :=
  {| collect := fun h =>
       Returns {| key := js "hardwareConcurrency";
                  value := optional (navigator_hardwareConcurrency h) |} |}.

(** [CanvasFingerprint]: setting [ctx.textBaseline] on [null] throws. *)
Definition CanvasFingerprint : @Collector NH Browser :=
  {| collect := fun h =>
       match canvas_2d h with
       | None => Throws TypeError
       | Some url => Returns {| key := js "canvas"; value := JStr url |}
       end |}.

(** [FontFingerprint] *)
Definition baseFonts : list jsstring := [js "monospace"; js "sans-serif"; js "serif"].

Definition fontList : list jsstring :=
  [js "Arial"; js "Arial Black"; js "Arial Narrow"; js "Arial Rounded MT Bold";
   js "Bookman Old Style"; js "Bradley Hand"; js "Calibri"; js "Cambria";
   js "Cambria Math"; js "Comic Sans MS"; js "Consolas"; js "Courier";
   js "Courier New"; js "Georgia"; js "Helvetica"; js "Impact";
   js "Latin Modern Math"; js "Lucida Console"; js "Lucida Sans Unicode";
   js "Microsoft Sans Serif"; js "Monotype Corsiva"; js "MS Gothic";
   js "MS Outlook"; js "MS PGothic"; js "MS Reference Sans Serif";
   js "MS Sans Serif"; js "MS Serif"; js "Palatino Linotype"; js "Segoe Print";
   js "Segoe Script"; js "Segoe UI"; js "Segoe UI Light"; js "Segoe UI Semibold";
   js "Segoe UI Symbol"; js "Tahoma"; js "Times"; js "Times New Roman";
   js "Trebuchet MS"; js "Verdana"; js "Wingdings"; js "Wingdings 2";
   js "Wingdings 3"].

(** [s.offsetWidth] and [s.offsetHeight]: an element outside the document
    has no layout box and measures zero. *)
Definition offsetSize (h : Browser) (connected : bool) (fontFamily : jsstring)
    : Z * Z :=
  if connected then layout h fontFamily else (0, 0).

(** The spans of the base fonts are measured inside [baseFontsDiv] before
    it is appended to the body, which throws when there is none; the spans
    of the tested fonts are measured inside [fontsDiv] after it is
    appended. *)
Definition FontFingerprint : @Collector NH Browser :=
  {| collect := fun h =>
       let defaultSize (baseFont : jsstring) := offsetSize h false baseFont in
       if negb (document_body h) then Throws TypeError
       else
         let detected (font : jsstring) :=
           existsb
             (fun baseFont =>
                let s := offsetSize h true (font ++ js "," ++ baseFont) in
                negb (fst s =? fst (defaultSize baseFont))
                || negb (snd s =? snd (defaultSize baseFont)))
             baseFonts in
         let available := List.filter detected fontList in
         Returns {| key := js "fonts"; value := JArr (List.map JStr available) |} |}.

(** [MediaDevicesFingerprint] *)
Definition MediaDevicesFingerprint : @Collector NH Browser :=
  {| collect := fun h =>
       match enumerateDevices h with
       | None => Resolves {| key := js "mediaDevices"; value := JNull |}
       | Some (Normal devices) =>
           Resolves
             {| key := js "mediaDevices";
                value :=
                  JArr (List.map
                          (fun device =>
                             JObj [(js "kind", JStr (md_kind device));
                                   (js "label",
                                    JStr (if ToBoolean (VString (md_label device))
                                          then md_label device else []));
                                   (js "deviceId",
                                    JBool (if ToBoolean (VString (md_deviceId device))
                                           then true else false));
                                   (js "groupId", JStr (md_groupId device))])
                          devices) |}
       | Some (Throw _) => Resolves {| key := js "mediaDevices"; value := JNull |}
       end |}.

(** [WebRTCFingerprint._hashSDP(sdp)] *)
Definition _hashSDP (sdp : jsstring) : Z :=
  fold_left
    (fun hash char =>
       let hash := shl hash 5 - hash + Z.of_N char in
       band hash hash)
    sdp 0.

(** The regular expression [WebRTCFingerprint.get] matches against the SDP
    reads: the text [fingerprint:], then [sha-256] or [sha-1], a space, and
    as its only capture as many characters as follow, none of them a line
    terminator.  [sdp_match sdp] is that capture at the leftmost match. *)
Definition is_line_terminator (c : code_unit) : bool :=
  ((c =? 10) || (c =? 13) || (c =? 8232) || (c =? 8233))%N.

Fixpoint rest_of_line (s : jsstring) : jsstring :=
  match s with
  | [] => []
  | c :: rest => if is_line_terminator c then [] else c :: rest_of_line rest
  end.

Fixpoint sdp_match (sdp : jsstring) : option jsstring :=
  if is_prefix (js "fingerprint:sha-256 ") sdp
  then Some (rest_of_line (skipn 20 sdp))
  else if is_prefix (js "fingerprint:sha-1 ") sdp
  then Some (rest_of_line (skipn 18 sdp))
  else match sdp with
       | [] => None
       | _ :: rest => sdp_match rest
       end.

Section WebRTC.

(** The Number of the host for a 32-bit integer. *)
Context (Number_of_int32 : Z -> number).

(** [WebRTCFingerprint.get()] *)
Definition WebRTCFingerprint : @Collector NH Browser :=
  {| collect := fun h =>
       match createOffer h with
       | None => Resolves {| key := js "webrtc"; value := JNull |}
       | Some (Normal sdp) =>
           let fingerprint :=
             match sdp_match sdp with
             | Some capture => JStr capture
             | None => JNull
             end in
           Resolves
             {| key := js "webrtc";
                value := JObj [(js "fingerprint", fingerprint);
                               (js "sdpFingerprint",
                                JNum (Number_of_int32 (_hashSDP sdp)))] |}
       | Some (Throw _) => Resolves {| key := js "webrtc"; value := JNull |}
       end |}.

End WebRTC.

(** The collectors [Fingerprint.load] registers first, in its order. *)
Definition builtin_head : list (@Collector NH Browser) :=
  [components_userAgent; components_webdriver; components_language;
   components_colorDepth; components_deviceMemory; components_pixelRatio;
   components_hardwareConcurrency; CanvasFingerprint].

End Builtin.

End Collectors.
Export Collectors.

(** ** Notions used to state the further properties *)
Module Stated.

(** The sum of the code units of [str], each weighted by the power of 31
    of its distance from the end. *)
Fixpoint weighted_sum (str : jsstring) : Z :=
  match str with
  | [] => 0
  | c :: rest => Z.of_N c * 31 ^ Z.of_nat (length rest) + weighted_sum rest
  end.

(** A record whose name and value the store shows as they are. *)
Definition plain_record (c : cookie) : bool :=
  plain_text (c_name c) && negb (jsstring_eqb (c_name c) []) && plain_text (c_value c).

(** A record of another script. *)
Definition theme_record : cookie :=
  {| c_name := js "theme"; c_value := js "dark"; c_expires := None |}.

(** A record whose value ends in a lone percent sign. *)
Definition promo_record : cookie :=
  {| c_name := js "promo"; c_value := js "100%"; c_expires := None |}.



Section Sessions.
Context {NH : NumberHost} {host : Type}.

(** The scenario's session with a collector for [webdriver], which is not
    a stable key, between its two collectors. *)
Definition observed_session : @BrowserFingerprint NH host :=
  {| options := options (@scenario_session NH host);
     apiKey := apiKey (@scenario_session NH host);
     cookieName := cookieName (@scenario_session NH host);
     cookieDays := cookieDays (@scenario_session NH host);
     components := [fixed_collector "userAgent" "UA-X";
                    fixed_collector "webdriver" "true";
                    fixed_collector "canvas" "CANVAS-Y"] |}.

(** A collector that throws, against its contract. *)
Definition throwing_collector (message : string) : @Collector NH host :=
  {| collect := fun _ => Throws (Error (js message)) |}.

(** The scenario's session with such a collector between its two
    collectors. *)
Definition broken_session : @BrowserFingerprint NH host :=
  {| options := options (@scenario_session NH host);
     apiKey := apiKey (@scenario_session NH host);
     cookieName := cookieName (@scenario_session NH host);
     cookieDays := cookieDays (@scenario_session NH host);
     components := [fixed_collector "userAgent" "UA-X";
                    throwing_collector "no context";
                    fixed_collector "canvas" "CANVAS-Y"] |}.



(** The chain [Fingerprint.load(options).then((fp) => fp.get())]: [get()]
    is called on the session [load] is fulfilled with, and is not called
    when [load] is rejected. *)
Definition load_then_get (builtin : list (@Collector NH host)) (options : Options)
    (m : @moment host) (j : jar) : @Run NH :=
  match load builtin options with
  | Fulfilled bf => get bf m j
  | Rejected e => {| promised := Rejected e; stored := j; launched := O |}
  | Pending => {| promised := Pending; stored := j; launched := O |}
  end.


End Sessions.

(** The number of retries [retry] grants, and the delay between two
    attempts. *)
Definition granted (retries : option Z) : nat :=
  Z.to_nat (match retries with Some r => r | None => 3 end).

Definition pause (delay : option Z) : Z :=
  match delay with Some d => d | None => 1000 end.

(** A function whose promise is rejected [k] times and then fulfilled with
    [v]. *)
Definition flaky {A : Type} (k : nat) (v : A) (i : nat) : attempt_end A :=
  if (i <? k)%nat then Reject (Error (js "busy")) else Fulfil v.

(** A function whose promise is rejected once and which throws from then
    on. *)
Definition crashing {A : Type} (i : nat) : attempt_end A :=
  match i with
  | O => Reject (Error (js "busy"))
  | S _ => Raise TypeError
  end.

(** The value the sources of [assign] give the key [k]: that of the last
    source that has it. *)
Fixpoint supplied {V : Type} (sources : list (option (object V))) (k : jsstring)
    : option V :=
  match sources with
  | [] => None
  | s :: rest =>
      match supplied rest k with
      | Some v => Some v
      | None => match s with Some o => get_own (own o) k | None => None end
      end
  end.

(** An object whose property list names every key once. *)
Definition distinct_keys {V : Type} (o : object V) : Prop :=
  NoDup (List.map fst (own o)).

(** The string [k] is an element of the array. *)
Definition listed (array : list jsval) (k : jsstring) : Prop := In (VString k) array.

(** The setter of [__proto__] on the primitive values and [null]. *)
Definition kind_of_jsval (v : jsval) : kind :=
  match v with
  | VNull => ANull
  | _ => APrimitive
  end.

(** A camera, and a browser that has it but no 2D canvas context. *)
Definition camera (id : string) : MediaDeviceInfo :=
  {| md_kind := js "videoinput"; md_label := js "Camera"; md_deviceId := js id;
     md_groupId := js "g1" |}.

Definition sample_browser (id : string) : @Browser IntegerHost :=
  {| navigator_userAgent := js "UA-X";
     navigator_webdriver := None;
     navigator_language := js "en-US";
     screen_colorDepth := (24 : @number IntegerHost);
     navigator_deviceMemory := None;
     window_devicePixelRatio := (2 : @number IntegerHost);
     navigator_hardwareConcurrency := Some (8 : @number IntegerHost);
     canvas_2d := None;
     document_body := true;
     layout := fun _ => (936, 83);
     enumerateDevices := Some (Normal [camera id]);
     createOffer := None |}.

(** The same browser with a 2D canvas context. *)
Definition painting_browser : @Browser IntegerHost :=
  {| navigator_userAgent := js "UA-X";
     navigator_webdriver := None;
     navigator_language := js "en-US";
     screen_colorDepth := (24 : @number IntegerHost);
     navigator_deviceMemory := None;
     window_devicePixelRatio := (2 : @number IntegerHost);
     navigator_hardwareConcurrency := Some (8 : @number IntegerHost);
     canvas_2d := Some (js "data:image/png;base64,iVBORw0KGgo=");
     document_body := true;
     layout := fun _ => (936, 83);
     enumerateDevices := Some (Normal [camera "cam-1"]);
     createOffer := None |}.

(** What the seven classes of [components] and [CanvasFingerprint] are to
    report in a browser whose canvas gives the data URL [url]. *)
Definition head_results {NH : NumberHost} (h : @Browser NH) (url : jsstring)
    : list (@SignalResult NH) :=
  [{| key := js "userAgent"; value := JStr (navigator_userAgent h) |};
   {| key := js "webdriver";
      value := JBool (bool_decide (navigator_webdriver h = Some true)) |};
   {| key := js "language"; value := JStr (navigator_language h) |};
   {| key := js "colorDepth"; value := JNum (screen_colorDepth h) |};
   {| key := js "deviceMemory";
      value := match navigator_deviceMemory h with
               | Some n => JNum n
               | None => JUndefined
               end |};
   {| key := js "pixelRatio"; value := JNum (window_devicePixelRatio h) |};
   {| key := js "hardwareConcurrency";
      value := match navigator_hardwareConcurrency h with
               | Some n => JNum n
               | None => JUndefined
               end |};
   {| key := js "canvas"; value := JStr url |}].

End Stated.
Export Stated.

(** * Properties *)

(** ** 32-bit arithmetic and the hexadecimal rendering *)

Lemma ToInt32_wrap (x : Z) : ToInt32 x = wrap_int32 x.
Proof.
  unfold ToInt32, wrap_int32, two32, two31.
  change (2 ^ 32) with 4294967296. change (2 ^ 31) with 2147483648.
  destruct (Z.leb_spec 2147483648 (x mod 4294967296));
    Z.div_mod_to_equations; lia.
Qed.

Lemma ToInt32_range (x : Z) : - 2 ^ 31 <= ToInt32 x < 2 ^ 31.
Proof.
  rewrite ToInt32_wrap. unfold wrap_int32.
  change (2 ^ 32) with 4294967296. change (2 ^ 31) with 2147483648.
  Z.div_mod_to_equations; lia.
Qed.

Lemma wrap_int32_congr (x y k : Z) :
  x = y + k * 2 ^ 32 -> wrap_int32 x = wrap_int32 y.
Proof.
  intros ->. unfold wrap_int32.
  replace (y + k * 2 ^ 32 + 2 ^ 31) with (y + 2 ^ 31 + k * 2 ^ 32) by ring.
  now rewrite Z.mod_add by (cbv; discriminate).
Qed.

Lemma wrap_int32_residue (x : Z) : exists k, wrap_int32 x = x + k * 2 ^ 32.
Proof.
  exists (- ((x + 2 ^ 31) / 2 ^ 32)). unfold wrap_int32.
  change (2 ^ 32) with 4294967296. change (2 ^ 31) with 2147483648.
  Z.div_mod_to_equations; lia.
Qed.

Lemma band_diag (x : Z) : band x x = ToInt32 x.
Proof. unfold band. apply Z.land_diag. Qed.

(** One turn of the source's loop is one step of the description. *)
Lemma hash_step_described (h : Z) (c : code_unit) :
  hash_step h c = described_step h c.
Proof.
  unfold hash_step, described_step. rewrite band_diag. unfold shl.
  change (5 mod 32) with 5. rewrite !Z.shiftl_mul_pow2 by lia.
  rewrite !ToInt32_wrap.
  destruct (wrap_int32_residue h) as [k1 Hk1].
  destruct (wrap_int32_residue (wrap_int32 h * 2 ^ 5)) as [k2 Hk2].
  apply wrap_int32_congr with (k := k2 + k1 * 2 ^ 5).
  rewrite Hk2, Hk1. ring.
Qed.

Lemma fold_hash_described (str : jsstring) (h : Z) :
  fold_left hash_step str h = fold_left described_step str h.
Proof.
  revert h. induction str as [|c str IH]; intros h; simpl; [reflexivity|].
  now rewrite hash_step_described, IH.
Qed.

Lemma described_step_range (h : Z) (c : code_unit) :
  - 2 ^ 31 <= described_step h c < 2 ^ 31.
Proof. unfold described_step. rewrite <- ToInt32_wrap. apply ToInt32_range. Qed.

Lemma described_fold_range (str : jsstring) :
  - 2 ^ 31 <= described_fold str < 2 ^ 31.
Proof.
  unfold described_fold.
  assert (H : forall h, - 2 ^ 31 <= h < 2 ^ 31 ->
            - 2 ^ 31 <= fold_left described_step str h < 2 ^ 31).
  { induction str as [|c str IH]; intros h Hh; simpl; [exact Hh|].
    apply IH, described_step_range. }
  apply H. lia.
Qed.

Lemma hex_digit_lower (d : N) : (d < 16)%N -> is_lower_hex (hex_digit d) = true.
Proof.
  intros Hd. unfold hex_digit, is_lower_hex.
  destruct (N.ltb_spec d 10).
  - replace (48 <=? 48 + d)%N with true by (symmetry; apply N.leb_le; lia).
    replace (48 + d <=? 57)%N with true by (symmetry; apply N.leb_le; lia).
    reflexivity.
  - replace (97 <=? 87 + d)%N with true by (symmetry; apply N.leb_le; lia).
    replace (87 + d <=? 102)%N with true by (symmetry; apply N.leb_le; lia).
    apply orb_true_r.
Qed.

Lemma hex_value_of_digit (d : N) :
  (d < 16)%N -> hex_value (hex_digit d) = Some (Z.of_N d).
Proof.
  intros Hd. unfold hex_digit, hex_value.
  destruct (N.ltb_spec d 10).
  - replace (48 <=? 48 + d)%N with true by (symmetry; apply N.leb_le; lia).
    replace (48 + d <=? 57)%N with true by (symmetry; apply N.leb_le; lia).
    simpl. f_equal. lia.
  - replace (87 + d <=? 57)%N with false by (symmetry; apply N.leb_gt; lia).
    rewrite andb_false_r.
    replace (97 <=? 87 + d)%N with true by (symmetry; apply N.leb_le; lia).
    replace (87 + d <=? 102)%N with true by (symmetry; apply N.leb_le; lia).
    simpl. f_equal. lia.
Qed.

Lemma mod16_digit (n : Z) : (Z.to_N (n mod 16) < 16)%N.
Proof. pose proof (Z.mod_pos_bound n 16 eq_refl). lia. Qed.

Lemma hex_digits_lower (fuel : nat) (n : Z) (acc : jsstring) :
  Forall (fun c => is_lower_hex c = true) acc ->
  Forall (fun c => is_lower_hex c = true) (hex_digits fuel n acc).
Proof.
  revert n acc. induction fuel as [|fuel IH]; intros n acc Hacc; simpl; [exact Hacc|].
  assert (Hd := hex_digit_lower _ (mod16_digit n)).
  destruct (n / 16 =? 0); [|apply IH]; constructor; assumption.
Qed.

Lemma hex_digits_nonempty (fuel : nat) (n : Z) (acc : jsstring) :
  hex_digits (S fuel) n acc <> [].
Proof.
  revert n acc. induction fuel as [|fuel IH]; intros n acc.
  - simpl. destruct (n / 16 =? 0); discriminate.
  - change (hex_digits (S (S fuel)) n acc)
      with (let acc' := hex_digit (Z.to_N (n mod 16)) :: acc in
            if n / 16 =? 0 then acc' else hex_digits (S fuel) (n / 16) acc').
    cbv zeta. destruct (n / 16 =? 0); [discriminate|apply IH].
Qed.

Lemma hex_digits_read (fuel : nat) (n : Z) (acc : jsstring) :
  0 <= n < 16 ^ Z.of_nat fuel ->
  read_hex 0 (hex_digits fuel n acc) = read_hex n acc.
Proof.
  revert n acc. induction fuel as [|fuel IH]; intros n acc Hn.
  - simpl in *. f_equal. lia.
  - simpl hex_digits.
    assert (Hv := hex_value_of_digit _ (mod16_digit n)).
    assert (Hm := Z.mod_pos_bound n 16 eq_refl).
    rewrite Z2N.id in Hv by lia.
    destruct (Z.eqb_spec (n / 16) 0) as [Hq|Hq].
    + simpl. rewrite Hv. f_equal. Z.div_mod_to_equations; lia.
    + rewrite IH.
      * simpl. rewrite Hv. f_equal. Z.div_mod_to_equations; lia.
      * rewrite Nat2Z.inj_succ, Z.pow_succ_r in Hn by lia.
        Z.div_mod_to_equations; lia.
Qed.

Lemma hex_fuel_enough (n : Z) :
  0 <= n -> n < 16 ^ Z.of_nat (S (Z.to_nat (Z.log2 n))).
Proof.
  intros Hn. rewrite Nat2Z.inj_succ, Z2Nat.id by apply Z.log2_nonneg.
  destruct (Z.eq_dec n 0) as [->|Hz]; [reflexivity|].
  apply Z.lt_le_trans with (2 ^ Z.succ (Z.log2 n)).
  - apply Z.log2_spec. lia.
  - apply Z.pow_le_mono_l. lia.
Qed.

Lemma hex_of_nonneg_read (n : Z) :
  0 <= n -> read_hex 0 (hex_of_nonneg n) = Some n.
Proof.
  intros Hn. unfold hex_of_nonneg.
  rewrite hex_digits_read by (split; [exact Hn|apply hex_fuel_enough, Hn]).
  reflexivity.
Qed.

Lemma hex_of_nonneg_lower (n : Z) :
  Forall (fun c => is_lower_hex c = true) (hex_of_nonneg n).
Proof. apply hex_digits_lower. constructor. Qed.

Lemma hex_of_nonneg_nonempty (n : Z) : hex_of_nonneg n <> [].
Proof. apply hex_digits_nonempty. Qed.

(** The rendering reads back as the number it was made from. *)
Lemma Number_toString_16_read (n : Z) :
  read_signed_hex (Number_toString_16 n) = Some n.
Proof.
  unfold Number_toString_16.
  destruct (Z.ltb_spec n 0) as [Hneg|Hpos].
  - simpl. pose proof (hex_of_nonneg_nonempty (- n)) as Hne.
    destruct (hex_of_nonneg (- n)) as [|c s] eqn:E; [contradiction|].
    rewrite <- E, hex_of_nonneg_read by lia. simpl. f_equal. lia.
  - pose proof (hex_of_nonneg_nonempty n) as Hne.
    pose proof (hex_of_nonneg_lower n) as Hlow.
    pose proof (hex_of_nonneg_read n Hpos) as Hread.
    destruct (hex_of_nonneg n) as [|c s]; [contradiction|].
    unfold read_signed_hex.
    destruct (N.eqb_spec c 45) as [->|_]; [|exact Hread].
    inversion Hlow as [|? ? Hc _]. discriminate Hc.
Qed.

(** Its characters are lowercase hexadecimal digits after an optional
    minus sign, and there is at least one digit. *)
Lemma Number_toString_16_shape (n : Z) :
  exists digits,
    digits <> [] /\ Forall (fun c => is_lower_hex c = true) digits /\
    Number_toString_16 n = (if n <? 0 then js "-" else []) ++ digits.
Proof.
  unfold Number_toString_16. destruct (n <? 0).
  - exists (hex_of_nonneg (- n)).
    split; [apply hex_of_nonneg_nonempty|split; [apply hex_of_nonneg_lower|reflexivity]].
  - exists (hex_of_nonneg n).
    split; [apply hex_of_nonneg_nonempty|split; [apply hex_of_nonneg_lower|reflexivity]].
Qed.

(** The Number arithmetic of one turn stays below 2^53 in magnitude, where
    it is exact. *)
Lemma hash_step_exact (h : Z) (c : code_unit) :
  - 2 ^ 31 <= h < 2 ^ 31 -> (c < 65536)%N ->
  Z.abs (shl h 5 - h + Z.of_N c) < 2 ^ 53.
Proof.
  intros Hh Hc. pose proof (ToInt32_range (Z.shiftl (ToInt32 h) (5 mod 32))) as Hs.
  unfold shl. lia.
Qed.

(** ** The Identity Hasher *)

Section Hasher.
Context {NH : NumberHost}.

Lemma stringify_array (vs : list json) :
  JSON_stringify (JArr vs)
  = Some (js "[" ++ join (js ",") (List.map element_text vs) ++ js "]").
Proof. reflexivity. Qed.

(** C1. The Identity Hasher is a function of the values alone: it writes
    them, in list order, as one JSON array; it folds the description's step
    [h = (h << 5) - h + code], wrapped to the signed 32-bit range at every
    step, over the code units of that text, starting from zero; the result is
    a signed 32-bit integer and is returned as its lowercase hexadecimal
    rendering, a minus sign first when it is negative, which reads back as
    the same integer.  Two lists with the same values give the same string,
    whatever their keys. *)
Theorem hashComponents_described (components : list SignalResult) :
  let str := js "[" ++ join (js ",") (List.map element_text (List.map value components))
             ++ js "]" in
  let h := described_fold str in
  JSON_stringify (JArr (List.map value components)) = Some str /\
  hashComponents components = Normal (Number_toString_16 h) /\
  - 2 ^ 31 <= h < 2 ^ 31 /\
  read_signed_hex (Number_toString_16 h) = Some h /\
  (exists digits,
      digits <> [] /\ Forall (fun c => is_lower_hex c = true) digits /\
      Number_toString_16 h = (if h <? 0 then js "-" else []) ++ digits) /\
  (forall components' : list SignalResult,
      List.map value components' = List.map value components ->
      hashComponents components' = hashComponents components).
Proof.
  intros str h. split; [apply stringify_array|]. split.
  - unfold hashComponents. rewrite stringify_array. fold str.
    now rewrite fold_hash_described.
  - split; [apply described_fold_range|].
    split; [apply Number_toString_16_read|].
    split; [apply Number_toString_16_shape|].
    intros components' Heq. unfold hashComponents. now rewrite Heq.
Qed.

End Hasher.

(** ** Strings *)

Lemma jsstring_eqb_eq (a b : jsstring) : jsstring_eqb a b = true <-> a = b.
Proof.
  revert b. induction a as [|x a IH]; intros [|y b]; simpl; split;
    try discriminate; try reflexivity.
  - intros H. apply andb_true_iff in H as [H1 H2].
    apply N.eqb_eq in H1. apply IH in H2. now subst.
  - intros H. injection H as -> ->. rewrite N.eqb_refl. now apply IH.
Qed.

Lemma jsstring_eqb_refl (a : jsstring) : jsstring_eqb a a = true.
Proof. now apply jsstring_eqb_eq. Qed.

Lemma includes_In (l : list jsstring) (k : jsstring) :
  includes l k = true <-> In k l.
Proof.
  unfold includes. rewrite existsb_exists. split.
  - intros [x [Hx He]]. apply jsstring_eqb_eq in He. now subst.
  - intros H. exists k. split; [exact H|apply jsstring_eqb_refl].
Qed.

(** ** The Stable Subset Selector *)

Section Selector.
Context {NH : NumberHost}.

Lemma stable_app (l1 l2 : list SignalResult) :
  stable (l1 ++ l2) = stable l1 ++ stable l2.
Proof. apply List.filter_app. Qed.

Lemma stable_sublist (l : list SignalResult) : sublist (stable l) l.
Proof.
  unfold stable. induction l as [|c l IH]; cbn [List.filter]; [constructor|].
  destruct (includes stable_keys (key c)).
  - apply sublist_skip, IH.
  - apply sublist_cons, IH.
Qed.

(** C4. The selector keeps exactly the elements whose key is one of the ten
    stable keys: it distributes over concatenation and keeps or drops each
    single element by that test, so the kept elements stand in the order of
    the input list (the result is a sublist of the input) and not in the
    order of the key set, as the keys of the twenty-three registered
    collectors show; a stable key that no element carries is simply not in
    the result, and the function is total. *)
Theorem stable_selects_in_input_order (components : list SignalResult) :
  stable_keys
  = [js "userAgent"; js "hardwareConcurrency"; js "deviceMemory";
     js "language"; js "colorDepth"; js "pixelRatio"; js "videoCard";
     js "canvas"; js "webgl"; js "fonts"] /\
  (forall c, In c (stable components) <->
             In c components /\ In (key c) stable_keys) /\
  (forall l1 l2, stable (l1 ++ l2) = stable l1 ++ stable l2) /\
  (forall c, stable [c] = if includes stable_keys (key c) then [c] else []) /\
  sublist (stable components) components /\
  (forall k, In k stable_keys -> ~ In k (List.map key components) ->
             ~ In k (List.map key (stable components))) /\
  List.map key
    (stable (List.map (fun k => {| key := k; value := JNull |}) builtin_keys))
  = [js "userAgent"; js "language"; js "colorDepth"; js "deviceMemory";
     js "pixelRatio"; js "hardwareConcurrency"; js "canvas"; js "webgl";
     js "fonts"; js "videoCard"].
Proof.
  split; [reflexivity|]. split.
  { intros c. unfold stable. rewrite List.filter_In, includes_In. reflexivity. }
  split; [apply stable_app|]. split; [reflexivity|].
  split; [apply stable_sublist|]. split; [|reflexivity].
  intros k _ Hk Hin. apply Hk.
  apply in_map_iff in Hin as [c [Hc Hin]].
  apply in_map_iff. exists c. split; [exact Hc|].
  unfold stable in Hin. now apply List.filter_In in Hin.
Qed.

End Selector.

(** ** Construction *)

Section Construction.
Context {NH : NumberHost} {host : Type}.

Lemma constructor_truthy (options : Options) :
  ToBoolean (o_apiKey options) = true ->
  constructor options
  = Normal {| Fingerprint.options := options;
              apiKey := o_apiKey options;
              cookieName := or_else (o_cookieName options) (VString (js "smbfjs_id"));
              cookieDays := or_else (o_cookieDays options) (VNumber 365);
              components := @nil (@Collector NH host) |}.
Proof. intros H. unfold constructor. now rewrite H. Qed.

(** C6. When the configuration has no [apiKey] (or a falsy one) the
    constructor throws "API key is required" at once.  [Fingerprint.load] is
    an [async] function, so its caller meets no exception: the call ends
    normally and returns a promise, which the run of [load] itself has
    rejected with that error.  Whatever collectors [load] was about to
    register, none is registered or called, the promise is neither fulfilled
    with a session object nor left pending, and a [get()] chained on it is
    never called: the chain is rejected with the same error, leaves the
    store as it was and calls no collector. *)
Theorem load_without_apiKey_fails (builtin : list (@Collector NH host))
    (options : Options) :
  ToBoolean (o_apiKey options) = false ->
  constructor (host := host) options = Throw (Error (js "API key is required")) /\
  call_load builtin options
  = Normal (Rejected (Error (js "API key is required"))) /\
  (forall bf, load builtin options <> Fulfilled bf) /\
  load builtin options <> Pending /\
  (forall (m : @moment host) (j : jar),
      load_then_get builtin options m j
      = {| promised := Rejected (Error (js "API key is required"));
           stored := j; launched := O |}).
Proof.
  intros H. unfold load_then_get, call_load, load, constructor. rewrite H. simpl.
  repeat split; discriminate.
Qed.

End Construction.

Lemma load_without_apiKey_fails_witness :
  ToBoolean (@o_apiKey no_options) = false /\
  @constructor IntegerHost unit no_options
  = Throw (Error (js "API key is required")) /\
  @call_load IntegerHost unit [] no_options
  = Normal (Rejected (Error (js "API key is required"))) /\
  (forall bf, @load IntegerHost unit [] no_options <> Fulfilled bf) /\
  @load IntegerHost unit [] no_options <> Pending /\
  (forall (m : @moment unit) (j : jar),
      @load_then_get IntegerHost unit [] no_options m j
      = {| promised := Rejected (Error (js "API key is required"));
           stored := j; launched := O |}).
Proof.
  split; [reflexivity|].
  apply (@load_without_apiKey_fails IntegerHost unit [] no_options). reflexivity.
Defined.

(** C6, as worded, at the configuration [{}]: the call of [load] does not
    fail synchronously.  It ends normally, with a promise; the error of the
    constructor is the reason that promise is rejected with, and is not
    thrown to the caller. *)
Theorem load_call_does_not_throw :
  ToBoolean (@o_apiKey no_options) = false /\
  (exists p, @call_load IntegerHost unit [] no_options = Normal p /\
             p = Rejected (Error (js "API key is required"))) /\
  (forall e, @call_load IntegerHost unit [] no_options <> Throw e).
Proof.
  split; [reflexivity|]. split; [|discriminate].
  eexists. split; reflexivity.
Qed.

(** ** The collection phase *)

Section Collection.
Context {NH : NumberHost} {host : Type}.

Lemma launch_reports (h : host) (cs : list Collector) (rs : list SignalResult) :
  Forall2 (reports h) cs rs ->
  launch h cs = (Normal (List.map Fulfils rs), length cs).
Proof.
  induction 1 as [|c r cs rs Hc _ IH]; simpl; [reflexivity|].
  rewrite IH. destruct Hc as [-> | ->]; reflexivity.
Qed.

Lemma launch_count (h : host) (cs : list Collector) :
  (snd (launch h cs) <= length cs)%nat.
Proof.
  induction cs as [|c cs IH]; simpl; [lia|].
  destruct (collect c h); simpl; try lia;
    destruct (launch h cs) as [[ps|err] n]; simpl in *; lia.
Qed.

Section Aggregate.
Variable ps : list settlement.

Lemma distinct_indices_bound (l : list nat) :
  NoDup l -> Forall (fun i => (i < length ps)%nat) l -> (length l <= length ps)%nat.
Proof.
  intros Hnd Hlt.
  rewrite <- (List.length_seq (length ps) 0).
  apply NoDup_incl_length; [now apply NoDup_ListNoDup|].
  intros i Hi. apply in_seq. rewrite Forall_forall in Hlt.
  apply list_elem_of_In, Hlt in Hi. lia.
Qed.

Lemma fulfils_lt (i : nat) : fulfils ps i -> (i < length ps)%nat.
Proof. intros [r Hr]. now apply lookup_lt_Some in Hr. Qed.

(** While only fulfilled promises have been settled, the aggregate holds
    their values at their own indices and waits for the others. *)
Lemma fulfilled_prefix (pre : list nat) :
  NoDup pre -> Forall (fulfils ps) pre ->
  let st := fold_left (all_step ps) pre (all_init ps) in
  length (values st) = length ps /\
  (forall i, values st !! i = slot ps pre i) /\
  remaining st = (length ps - length pre)%nat /\
  aggregate st = if (length pre <? length ps)%nat then Pending
                 else Fulfilled (values st).
Proof.
  induction pre as [|i pre IH] using rev_ind; intros Hnd Hall.
  - simpl. split; [apply length_replicate|]. split; [|split].
    + intros i. unfold slot. destruct (ps !! i) as [s|] eqn:E.
      * rewrite lookup_replicate_2 by (now apply lookup_lt_Some in E).
        destruct s; [|reflexivity]. now rewrite decide_False by apply not_elem_of_nil.
      * apply lookup_replicate_None. now apply lookup_ge_None in E.
    + lia.
    + destruct ps; reflexivity.
  - apply NoDup_app in Hnd as (Hnd & Hfresh & _).
    apply Forall_app in Hall as [Hall Hi]. apply Forall_inv in Hi.
    specialize (IH Hnd Hall). cbv zeta in IH.
    rewrite fold_left_app. simpl. cbv zeta.
    set (st := fold_left (all_step ps) pre (all_init ps)) in *.
    destruct IH as (Hlen & Hval & Hrem & Hagg).
    assert (Hni : i ∉ pre) by (intros Hin; apply (Hfresh i Hin); constructor).
    assert (Hbound : (length (pre ++ [i]) <= length ps)%nat).
    { apply distinct_indices_bound.
      - apply NoDup_app. split; [exact Hnd|]. split; [exact Hfresh|]. apply NoDup_singleton.
      - apply Forall_app. split; [|constructor; [now apply fulfils_lt|constructor]].
        eapply Forall_impl; [exact Hall|]. intros ?; apply fulfils_lt. }
    rewrite length_app in Hbound. simpl in Hbound.
    replace (length pre <? length ps)%nat with true in Hagg
      by (symmetry; apply Nat.ltb_lt; lia).
    destruct Hi as [r Hr].
    assert (Hslot : values st !! i = Some None).
    { rewrite Hval. unfold slot. rewrite Hr. now rewrite decide_False. }
    unfold all_step. rewrite Hagg, Hr, Hslot. simpl.
    split; [now rewrite length_insert|]. split; [|split].
    + intros k. destruct (decide (k = i)) as [->|Hne].
      * rewrite list_lookup_insert_eq by (rewrite Hlen; now apply lookup_lt_Some in Hr).
        unfold slot. rewrite Hr. rewrite decide_True; [reflexivity|].
        apply elem_of_app. right. constructor.
      * rewrite list_lookup_insert_ne by congruence. rewrite Hval. unfold slot.
        destruct (ps !! k) as [[r'|e']|]; try reflexivity.
        f_equal. destruct (decide (k ∈ pre)) as [Hk|Hk].
        -- rewrite decide_True; [reflexivity|]. apply elem_of_app. now left.
        -- rewrite decide_False; [reflexivity|].
           intros Hin. apply elem_of_app in Hin as [Hin|Hin]; [contradiction|].
           apply list_elem_of_singleton in Hin. contradiction.
    + rewrite Hrem, length_app. simpl. lia.
    + rewrite Hrem, length_app. simpl.
      destruct (Nat.eqb_spec (length ps - length pre - 1) 0) as [Hz|Hz].
      * replace (length pre + 1 <? length ps)%nat with false
          by (symmetry; apply Nat.ltb_ge; lia). reflexivity.
      * replace (length pre + 1 <? length ps)%nat with true
          by (symmetry; apply Nat.ltb_lt; lia). reflexivity.
Qed.

(** The first rejection to be settled rejects the aggregate. *)
Lemma first_rejection (pre post : list nat) (i : nat) (e : error) :
  NoDup pre -> Forall (fulfils ps) pre ->
  ps !! i = Some (RejectsWith e) ->
  Promise_all ps (pre ++ i :: post) = Rejected e.
Proof.
  intros Hnd Hall Hi. unfold Promise_all. rewrite fold_left_app. simpl.
  destruct (fulfilled_prefix pre Hnd Hall) as (_ & _ & _ & Hagg).
  assert (Hlt : (length pre < length ps)%nat).
  { assert (i ∉ pre).
    { intros Hin. rewrite Forall_forall in Hall. destruct (Hall i Hin) as [r Hr].
      congruence. }
    assert (Hb : (length (i :: pre) <= length ps)%nat).
    { apply distinct_indices_bound.
      - now constructor.
      - constructor; [now apply lookup_lt_Some in Hi|].
        eapply Forall_impl; [exact Hall|]. intros ?; apply fulfils_lt. }
    simpl in Hb. lia. }
  replace (length pre <? length ps)%nat with true in Hagg
    by (symmetry; apply Nat.ltb_lt; lia).
  set (st := fold_left (all_step ps) pre (all_init ps)) in *.
  assert (Hstep : aggregate (all_step ps st i) = Rejected e).
  { unfold all_step. now rewrite Hagg, Hi. }
  revert Hstep. generalize (all_step ps st i). clear.
  induction post as [|k post IH]; intros s Hs; simpl; [exact Hs|].
  apply IH. unfold all_step. now rewrite Hs.
Qed.

End Aggregate.
End Collection.

Section Orchestrator.
Context {NH : NumberHost} {host : Type}.

Lemma schedule_complete (n : nat) (sched : list nat) :
  Permutation sched (seq 0 n) ->
  NoDup sched /\ length sched = n /\ (forall i, i ∈ sched <-> (i < n)%nat).
Proof.
  intros Hp. split; [|split].
  - rewrite Hp. apply NoDup_ListNoDup, List.seq_NoDup.
  - rewrite Hp. apply List.length_seq.
  - intros i. rewrite Hp, list_elem_of_In, in_seq. lia.
Qed.

(** When every promise is fulfilled, the aggregate is fulfilled with the
    values in the order of the promises, whatever the order of settling. *)
Lemma Promise_all_fulfilled (rs : list SignalResult) (sched : list nat) :
  Permutation sched (seq 0 (length rs)) ->
  Promise_all (List.map Fulfils rs) sched = Fulfilled (List.map Some rs).
Proof.
  intros Hp. set (ps := List.map Fulfils rs).
  assert (Hn : length ps = length rs) by apply length_map.
  destruct (schedule_complete _ _ Hp) as (Hnd & Hlen & Hmem).
  assert (Hall : Forall (fulfils ps) sched).
  { apply Forall_forall. intros i Hi. apply Hmem in Hi.
    destruct (lookup_lt_is_Some_2 rs i Hi) as [r Hr]. exists r.
    unfold ps. change (List.map Fulfils rs) with (Fulfils <$> rs).
    now rewrite list_lookup_fmap, Hr. }
  destruct (fulfilled_prefix ps sched Hnd Hall) as (Hl & Hval & _ & Hagg).
  unfold Promise_all. fold ps. rewrite Hagg, Hlen, Hn, Nat.ltb_irrefl. f_equal.
  apply list_eq. intros i. rewrite Hval. unfold slot, ps.
  change (List.map Fulfils rs) with (Fulfils <$> rs).
  change (List.map Some rs) with (Some <$> rs).
  rewrite !list_lookup_fmap. destruct (rs !! i) as [r|] eqn:E; simpl; [|reflexivity].
  rewrite decide_True; [reflexivity|]. apply Hmem. now apply lookup_lt_Some in E.
Qed.

Lemma elements_full (rs : list SignalResult) :
  elements (List.map Some rs) = Normal rs.
Proof. induction rs as [|r rs IH]; simpl; [reflexivity|now rewrite IH]. Qed.

Lemma hashComponents_identifier (rs : list SignalResult) :
  hashComponents (stable rs) = Normal (identifier rs).
Proof.
  unfold hashComponents, identifier, described_fold.
  now rewrite stringify_array, fold_hash_described.
Qed.

(** A miss with well-behaved collectors: the whole of what [get()] does. *)
Lemma get_miss (this : @BrowserFingerprint NH host) (m : @moment host) (j : jar)
    (cached : option jsstring) (rs : list SignalResult) :
  getCookie this (clock m) j = Normal cached ->
  truthy cached = false ->
  Forall2 (reports (ambient m)) (components this) rs ->
  Permutation (schedule m) (seq 0 (length (components this))) ->
  get this m j
  = {| promised := Fulfilled {| visitorId := identifier rs;
                                fromCookie := None;
                                r_components := Some rs |};
       stored := setCookie this (clock_after m) j (identifier rs);
       launched := length (components this) |}.
Proof.
  intros Hread Hfalsy Hrs Hp. unfold get, verifyApiKey.
  rewrite Hread, Hfalsy. cbn [negb].
  rewrite (launch_reports _ _ _ Hrs).
  rewrite (Forall2_length _ _ _ Hrs) in Hp.
  rewrite (Promise_all_fulfilled rs _ Hp), elements_full, hashComponents_identifier.
  reflexivity.
Qed.

(** C3. On a miss, when every registered collector hands over a
    [SignalResult] (plainly or through a promise, whatever its value) and
    every promise is settled, in any order, the component list [get()]
    resolves with holds exactly the collectors' results in registration
    order: it is as long as the registry and its keys are the collectors'
    keys in that order. *)
Theorem components_follow_registration (this : @BrowserFingerprint NH host) (m : @moment host)
    (j : jar) (cached : option jsstring) (rs : list SignalResult) :
  getCookie this (clock m) j = Normal cached ->
  truthy cached = false ->
  Forall2 (reports (ambient m)) (components this) rs ->
  Permutation (schedule m) (seq 0 (length (components this))) ->
  exists result comps,
    promised (get this m j) = Fulfilled result /\
    r_components result = Some comps /\
    comps = rs /\
    length comps = length (components this) /\
    List.map key comps = List.map key rs /\
    Forall2 (reports (ambient m)) (components this) comps.
Proof.
  intros Hread Hfalsy Hrs Hp.
  rewrite (get_miss this m j cached rs Hread Hfalsy Hrs Hp). simpl.
  eexists; exists rs. repeat split; try reflexivity; try assumption.
  symmetry. apply (Forall2_length _ _ _ Hrs).
Qed.

End Orchestrator.

Section Failure.
Context {NH : NumberHost} {host : Type}.

Lemma launch_cases (h : host) (cs : list Collector) :
  (exists i c e, cs !! i = Some c /\ collect c h = Throws e /\
                 launch h cs = (Throw e, S i)) \/
  (exists ps, launch h cs = (Normal ps, length cs) /\ Forall2 (settles h) cs ps).
Proof.
  induction cs as [|c cs IH]; simpl.
  - right. exists []. split; [reflexivity|constructor].
  - destruct (collect c h) as [r|e|r|e] eqn:E.
    + destruct IH as [(i & c' & e' & Hi & Hc & Hl)|(ps & Hl & Hf)]; rewrite Hl.
      * left. exists (S i), c', e'. auto.
      * right. exists (Fulfils r :: ps). split; [reflexivity|].
        constructor; [now left|exact Hf].
    + left. exists O, c, e. auto.
    + destruct IH as [(i & c' & e' & Hi & Hc & Hl)|(ps & Hl & Hf)]; rewrite Hl.
      * left. exists (S i), c', e'. auto.
      * right. exists (Fulfils r :: ps). split; [reflexivity|].
        constructor; [now right|exact Hf].
    + destruct IH as [(i & c' & e' & Hi & Hc & Hl)|(ps & Hl & Hf)]; rewrite Hl.
      * left. exists (S i), c', e'. auto.
      * right. exists (RejectsWith e :: ps). split; [reflexivity|].
        constructor; [exact E|exact Hf].
Qed.

Lemma first_rejected (ps : list settlement) (sched : list nat) (k : nat) (e : error) :
  k ∈ sched -> ps !! k = Some (RejectsWith e) ->
  (forall i, i ∈ sched -> (i < length ps)%nat) ->
  exists pre i e' post,
    sched = pre ++ i :: post /\ Forall (fulfils ps) pre /\
    ps !! i = Some (RejectsWith e').
Proof.
  induction sched as [|a sched IH]; intros Hk Hr Hlt.
  - now apply elem_of_nil in Hk.
  - destruct (ps !! a) as [[r|e']|] eqn:Ea.
    + assert (Hk' : k ∈ sched).
      { apply elem_of_cons in Hk as [->|Hk]; [congruence|exact Hk]. }
      destruct (IH Hk' Hr) as (pre & i & e' & post & -> & Hall & Hi).
      { intros i Hi. apply Hlt. now right. }
      exists (a :: pre), i, e', post. split; [reflexivity|].
      split; [|exact Hi]. constructor; [now exists r|exact Hall].
    + exists [], a, e', sched. split; [reflexivity|]. split; [constructor|exact Ea].
    + apply lookup_ge_None in Ea. specialize (Hlt a ltac:(left)). lia.
Qed.

(** C8. On a miss, when some registered collector raises instead of handing
    over a result, and every launched promise is settled, [get()] is rejected
    with the error of a collector that raised (so with that collector's error
    when it is the only one); nothing is written to the store and no component
    list, partial or whole, is returned. *)
Theorem raising_collector_rejects_get (this : @BrowserFingerprint NH host)
    (m : @moment host) (j : jar) (cached : option jsstring)
    (c0 : Collector) (e0 : error) :
  getCookie this (clock m) j = Normal cached ->
  truthy cached = false ->
  In c0 (components this) ->
  raises (ambient m) c0 e0 ->
  Permutation (schedule m) (seq 0 (length (components this))) ->
  (exists i c e,
      components this !! i = Some c /\ raises (ambient m) c e /\
      promised (get this m j) = Rejected e) /\
  ((forall c e, In c (components this) -> raises (ambient m) c e -> e = e0) ->
   promised (get this m j) = Rejected e0) /\
  (forall result, promised (get this m j) <> Fulfilled result) /\
  stored (get this m j) = j.
Proof.
  intros Hread Hfalsy Hin Hraise Hp.
  assert (Hmain : exists i c e,
             components this !! i = Some c /\ raises (ambient m) c e /\
             promised (get this m j) = Rejected e /\ stored (get this m j) = j).
  { unfold get, verifyApiKey. rewrite Hread, Hfalsy. cbn [negb].
    destruct (launch_cases (ambient m) (components this))
      as [(i & c & e & Hi & Hc & Hl)|(ps & Hl & Hf)]; rewrite Hl.
    - exists i, c, e. repeat split; [exact Hi|now left].
    - apply list_elem_of_In, list_elem_of_lookup in Hin as [k Hk].
      destruct (Forall2_lookup_l _ _ _ _ _ Hf Hk) as (p & Hpk & Hs).
      assert (Hrej : ps !! k = Some (RejectsWith e0)).
      { destruct p as [r|e]; simpl in Hs.
        - destruct Hraise as [H|H], Hs as [H'|H']; congruence.
        - destruct Hraise as [H|H]; congruence. }
      pose proof (Forall2_length _ _ _ Hf) as Hlen.
      destruct (schedule_complete _ _ Hp) as (Hnd & _ & Hmem).
      destruct (first_rejected ps (schedule m) k e0) as (pre & i & e & post & Hs' & Hall & Hi).
      { apply Hmem. now apply lookup_lt_Some in Hk. }
      { exact Hrej. }
      { intros i Hi. apply Hmem in Hi. lia. }
      rewrite Hs' in *.
      apply NoDup_app in Hnd as (Hnd & _ & _).
      rewrite (first_rejection ps pre post i e Hnd Hall Hi).
      destruct (Forall2_lookup_r _ _ _ _ _ Hf Hi) as (c & Hc & Hsc).
      exists i, c, e. repeat split; [exact Hc|now right]. }
  destruct Hmain as (i & c & e & Hi & Hc & Hrej & Hst).
  split; [exists i, c, e; auto|]. split; [|split; [|exact Hst]].
  - intros Honly. rewrite Hrej. f_equal. apply (Honly c); [|exact Hc].
    apply list_elem_of_In, list_elem_of_lookup. now exists i.
  - intros result. rewrite Hrej. discriminate.
Qed.

End Failure.

(** ** The miss path of [get()] *)

Section Miss.
Context {NH : NumberHost} {host : Type}.

Lemma scenario_loaded :
  load (host := host)
    [fixed_collector "userAgent" "UA-X"; fixed_collector "canvas" "CANVAS-Y"]
    {| o_apiKey := VString (js "k"); o_cookieName := VUndefined;
       o_cookieDays := VUndefined |}
  = Fulfilled scenario_session.
Proof. reflexivity. Qed.

(** C9. A falsy [cookieName] or [cookieDays] (the empty string, 0, [null],
    [false]; also [undefined] and [NaN]) gives the session the default
    "smbfjs_id", respectively 365, without any error: its record name,
    lifetime, key and registry are those of the session built with the field
    absent, and a requested lifetime of 0 days writes records exactly as a
    lifetime of 365 days does. *)
Theorem falsy_options_take_defaults (key name days : jsval) :
  ToBoolean key = true ->
  (ToBoolean (VString []) = false /\ ToBoolean (VNumber 0) = false /\
   ToBoolean VNull = false /\ ToBoolean (VBool false) = false) /\
  (forall v, ToBoolean v = false ->
     exists bf bf0 : @BrowserFingerprint NH host,
       constructor {| o_apiKey := key; o_cookieName := v; o_cookieDays := days |}
       = Normal bf /\
       constructor {| o_apiKey := key; o_cookieName := VUndefined; o_cookieDays := days |}
       = Normal bf0 /\
       cookieName bf = VString (js "smbfjs_id") /\
       cookieName bf = cookieName bf0 /\ cookieDays bf = cookieDays bf0 /\
       apiKey bf = apiKey bf0 /\ components bf = components bf0) /\
  (forall v, ToBoolean v = false ->
     exists bf bf0 : @BrowserFingerprint NH host,
       constructor {| o_apiKey := key; o_cookieName := name; o_cookieDays := v |}
       = Normal bf /\
       constructor {| o_apiKey := key; o_cookieName := name; o_cookieDays := VUndefined |}
       = Normal bf0 /\
       cookieDays bf = VNumber 365 /\
       cookieName bf = cookieName bf0 /\ cookieDays bf = cookieDays bf0 /\
       apiKey bf = apiKey bf0 /\ components bf = components bf0) /\
  (exists bf bf365 : @BrowserFingerprint NH host,
       constructor {| o_apiKey := key; o_cookieName := name; o_cookieDays := VNumber 0 |}
       = Normal bf /\
       constructor {| o_apiKey := key; o_cookieName := name; o_cookieDays := VNumber 365 |}
       = Normal bf365 /\
       forall now j v, setCookie bf now j v = setCookie bf365 now j v).
Proof.
  intros Hkey. split; [repeat split|]. split; [|split].
  - intros v Hv. do 2 eexists.
    rewrite !constructor_truthy by exact Hkey.
    split; [reflexivity|]. split; [reflexivity|]. simpl.
    unfold or_else. rewrite Hv. simpl. repeat split.
  - intros v Hv. do 2 eexists.
    rewrite !constructor_truthy by exact Hkey.
    split; [reflexivity|]. split; [reflexivity|]. simpl.
    unfold or_else at 1 3 4. rewrite Hv. simpl. repeat split.
  - do 2 eexists. rewrite !constructor_truthy by exact Hkey.
    split; [reflexivity|]. split; [reflexivity|]. reflexivity.
Qed.

End Miss.

Lemma falsy_options_take_defaults_witness :
  exists bf bf365 : @BrowserFingerprint IntegerHost unit,
    constructor {| o_apiKey := VString (js "k"); o_cookieName := VString [];
                   o_cookieDays := VNumber 0 |} = Normal bf /\
    constructor {| o_apiKey := VString (js "k"); o_cookieName := VString [];
                   o_cookieDays := VNumber 365 |} = Normal bf365 /\
    forall now j v, setCookie bf now j v = setCookie bf365 now j v.
Proof.
  apply (proj2 (proj2 (proj2
    (@falsy_options_take_defaults IntegerHost unit (VString (js "k")) (VString [])
       VNull eq_refl)))).
Defined.

(** ** The calendar *)

Lemma YearFromDay_spec (day : Z) :
  DayFromYear (YearFromDay day) <= day < DayFromYear (YearFromDay day + 1).
Proof.
  unfold YearFromDay.
  set (y0 := 1970 + 400 * day / 146097).
  assert (H0 : DayFromYear (y0 - 1) <= day < DayFromYear (y0 + 2)).
  { subst y0. unfold DayFromYear. Z.div_mod_to_equations. lia. }
  destruct (Z.leb_spec (DayFromYear (y0 + 1)) day) as [H1|H1].
  - replace (y0 + 1 + 1) with (y0 + 2) by ring. lia.
  - destruct (Z.leb_spec (DayFromYear y0) day) as [H2|H2].
    + lia.
    + replace (y0 - 1 + 1) with y0 by ring. lia.
Qed.

Lemma DayFromYear_mono (a b : Z) : a <= b -> DayFromYear a <= DayFromYear b.
Proof. intros H. unfold DayFromYear. Z.div_mod_to_equations. lia. Qed.

Lemma YearFromDay_range (day : Z) :
  0 <= day < 2932897 -> 1970 <= YearFromDay day <= 9999.
Proof.
  intros Hd. pose proof (YearFromDay_spec day) as Hs.
  split.
  - destruct (Z.le_gt_cases 1970 (YearFromDay day)) as [H|H]; [exact H|].
    pose proof (DayFromYear_mono (YearFromDay day + 1) 1970 ltac:(lia)) as Hm.
    change (DayFromYear 1970) with 0 in Hm. lia.
  - destruct (Z.le_gt_cases (YearFromDay day) 9999) as [H|H]; [exact H|].
    pose proof (DayFromYear_mono 10000 (YearFromDay day) ltac:(lia)) as Hm.
    change (DayFromYear 10000) with 2932897 in Hm. lia.
Qed.

Lemma InLeapYear_cases (y : Z) :
  (InLeapYear y = 0 /\ DayFromYear (y + 1) - DayFromYear y = 365) \/
  (InLeapYear y = 1 /\ DayFromYear (y + 1) - DayFromYear y = 366).
Proof.
  unfold InLeapYear.
  destruct (Z.eqb_spec (DayFromYear (y + 1) - DayFromYear y) 366) as [H|H].
  - right. auto.
  - left. split; [reflexivity|]. unfold DayFromYear in *.
    Z.div_mod_to_equations. lia.
Qed.

Lemma month_search_unfold (leap diy : Z) :
  month_search 11 leap diy 0
  = if diy <? 31 then 0 else if diy <? 59 + leap then 1
    else if diy <? 90 + leap then 2 else if diy <? 120 + leap then 3
    else if diy <? 151 + leap then 4 else if diy <? 181 + leap then 5
    else if diy <? 212 + leap then 6 else if diy <? 243 + leap then 7
    else if diy <? 273 + leap then 8 else if diy <? 304 + leap then 9
    else if diy <? 334 + leap then 10 else 11.
Proof. reflexivity. Qed.

Lemma month_search_spec (leap diy : Z) :
  0 <= leap <= 1 -> 0 <= diy < 365 + leap ->
  let m := month_search 11 leap diy 0 in
  0 <= m <= 11 /\ MonthStart leap m <= diy < MonthStart leap (m + 1).
Proof.
  intros Hl Hd. rewrite month_search_unfold.
  repeat match goal with
         | |- context [diy <? ?b] => destruct (Z.ltb_spec diy b)
         end; cbv zeta; unfold MonthStart; simpl; lia.
Qed.

Lemma month_length (leap m : Z) :
  0 <= leap <= 1 -> 0 <= m <= 11 ->
  28 <= MonthStart leap (m + 1) - MonthStart leap m <= 31.
Proof.
  intros Hl Hm.
  assert (Hc : m = 0 \/ m = 1 \/ m = 2 \/ m = 3 \/ m = 4 \/ m = 5 \/ m = 6 \/
               m = 7 \/ m = 8 \/ m = 9 \/ m = 10 \/ m = 11) by lia.
  repeat (destruct Hc as [->|Hc]; [unfold MonthStart; simpl; lia|]).
  subst. unfold MonthStart; simpl; lia.
Qed.

(** ** Dates as text *)

Lemma digit_facts (d : Z) :
  0 <= d <= 9 ->
  is_digit (digit d) = true /\ is_delimiter (digit d) = false /\
  Z.of_N (digit d) - 48 = d /\ (digit d =? 58)%N = false /\
  (digit d =? semicolon)%N = false.
Proof.
  intros Hd.
  assert (Hc : d = 0 \/ d = 1 \/ d = 2 \/ d = 3 \/ d = 4 \/ d = 5 \/ d = 6 \/
               d = 7 \/ d = 8 \/ d = 9) by lia.
  repeat (destruct Hc as [->|Hc]; [repeat split|]). subst. repeat split.
Qed.

Lemma two_digits_range (n : Z) :
  0 <= n <= 99 -> 0 <= n / 10 <= 9 /\ 0 <= n mod 10 <= 9 /\ 10 * (n / 10) + n mod 10 = n.
Proof. intros H. Z.div_mod_to_equations. lia. Qed.

Lemma four_digits_range (n : Z) :
  0 <= n <= 9999 ->
  0 <= n / 1000 <= 9 /\ 0 <= (n / 100) mod 10 <= 9 /\ 0 <= (n / 10) mod 10 <= 9 /\
  0 <= n mod 10 <= 9 /\
  10 * (10 * (10 * (n / 1000) + (n / 100) mod 10) + (n / 10) mod 10) + n mod 10 = n.
Proof. intros H. Z.div_mod_to_equations. lia. Qed.

Lemma take_digits_cons (max : nat) (d : Z) (rest : jsstring) :
  0 <= d <= 9 ->
  take_digits (S max) (digit d :: rest)
  = (d :: fst (take_digits max rest), snd (take_digits max rest)).
Proof.
  intros Hd. destruct (digit_facts d Hd) as (H1 & _ & H3 & _).
  simpl. rewrite H1, H3. now destruct (take_digits max rest).
Qed.

Lemma take_digits_stop (max : nat) (rest : jsstring) :
  field_end rest = true -> take_digits max rest = ([], rest).
Proof.
  intros H. destruct max; [now destruct rest|].
  destruct rest as [|c rest]; [reflexivity|]. simpl in *.
  now destruct (is_digit c).
Qed.

Lemma digit_field_two (n : Z) (rest : jsstring) :
  0 <= n <= 99 -> digit_field 1 2 (two_digits n ++ rest) = Some (n, rest).
Proof.
  intros Hn. destruct (two_digits_range n Hn) as (Ha & Hb & Hv).
  unfold digit_field, two_digits. cbn [app].
  rewrite take_digits_cons by exact Ha. rewrite take_digits_cons by exact Hb.
  cbn. do 2 f_equal. unfold digits_value. cbn. lia.
Qed.

Lemma digit_field_four (n : Z) (rest : jsstring) :
  0 <= n <= 9999 -> field_end rest = true ->
  digit_field 2 4 (four_digits n ++ rest) = Some (n, rest).
Proof.
  intros Hn Hend. destruct (four_digits_range n Hn) as (Ha & Hb & Hc & Hd & Hv).
  unfold digit_field, four_digits.
  replace (n <? 10000) with true by (symmetry; apply Z.ltb_lt; lia).
  cbn [app].
  rewrite take_digits_cons by exact Ha. rewrite take_digits_cons by exact Hb.
  rewrite take_digits_cons by exact Hc. rewrite take_digits_cons by exact Hd.
  cbn. do 2 f_equal. unfold digits_value. cbn. lia.
Qed.

Lemma after_colon_colon (r : jsstring) : after_colon (js ":" ++ r) = Some r.
Proof. reflexivity. Qed.

Lemma parse_time_formatted (h m s : Z) :
  0 <= h <= 99 -> 0 <= m <= 99 -> 0 <= s <= 99 ->
  parse_time (two_digits h ++ js ":" ++ two_digits m ++ js ":" ++ two_digits s)
  = Some (h, m, s).
Proof.
  intros Hh Hm Hs. unfold parse_time.
  rewrite digit_field_two by exact Hh. rewrite after_colon_colon.
  rewrite digit_field_two by exact Hm. rewrite after_colon_colon.
  rewrite <- (app_nil_r (two_digits s)), digit_field_two by exact Hs. reflexivity.
Qed.

Lemma parse_time_two_digits (n : Z) : 0 <= n <= 99 -> parse_time (two_digits n) = None.
Proof.
  intros Hn. unfold parse_time.
  rewrite <- (app_nil_r (two_digits n)), digit_field_two by exact Hn. reflexivity.
Qed.

Lemma parse_time_four_digits (n : Z) : 0 <= n <= 9999 -> parse_time (four_digits n) = None.
Proof.
  intros Hn. destruct (four_digits_range n Hn) as (Ha & Hb & Hc & Hd & Hv).
  unfold parse_time, digit_field, four_digits.
  replace (n <? 10000) with true by (symmetry; apply Z.ltb_lt; lia).
  rewrite take_digits_cons by exact Ha. rewrite take_digits_cons by exact Hb.
  cbn. destruct (digit_facts _ Hc) as (_ & _ & _ & H58 & _). now rewrite H58.
Qed.

Lemma parse_day_two_digits (n : Z) :
  0 <= n <= 99 -> parse_day_of_month (two_digits n) = Some n.
Proof.
  intros Hn. unfold parse_day_of_month.
  rewrite <- (app_nil_r (two_digits n)), digit_field_two by exact Hn. reflexivity.
Qed.

Lemma parse_year_four_digits (n : Z) :
  0 <= n <= 9999 -> parse_year (four_digits n) = Some n.
Proof.
  intros Hn. unfold parse_year.
  rewrite <- (app_nil_r (four_digits n)), digit_field_four by (exact Hn || reflexivity).
  reflexivity.
Qed.

Lemma date_tokens_word (w rest cur : jsstring) :
  Forall (fun c => is_delimiter c = false) w ->
  date_tokens (w ++ rest) cur = date_tokens rest (cur ++ w).
Proof.
  intros Hw. revert cur. induction Hw as [|c w Hc _ IH]; intros cur.
  - now rewrite app_nil_r.
  - simpl. rewrite Hc, IH. now rewrite <- app_assoc.
Qed.

Lemma emit_word (w : jsstring) : w <> [] -> emit w = [w].
Proof. now destruct w. Qed.

Lemma date_tokens_next (w rest : jsstring) :
  word w -> date_tokens (w ++ js " " ++ rest) [] = w :: date_tokens rest [].
Proof.
  intros [Hne Hw]. rewrite date_tokens_word by exact Hw. simpl.
  now rewrite emit_word.
Qed.

Lemma date_tokens_comma (w rest : jsstring) :
  word w -> date_tokens (w ++ js ", " ++ rest) [] = w :: date_tokens rest [].
Proof.
  intros [Hne Hw]. rewrite date_tokens_word by exact Hw. simpl.
  now rewrite emit_word.
Qed.

Lemma date_tokens_last (w : jsstring) :
  word w -> date_tokens (w ++ js " GMT") [] = [w; js "GMT"].
Proof.
  intros [Hne Hw]. rewrite date_tokens_word by exact Hw. simpl.
  now rewrite emit_word.
Qed.

Lemma formatted_tokens (W A B C T : jsstring) :
  word W -> word A -> word B -> word C -> word T ->
  date_tokens (W ++ js ", " ++ A ++ js " " ++ B ++ js " " ++ C ++ js " " ++ T
               ++ js " GMT") []
  = [W; A; B; C; T; js "GMT"].
Proof.
  intros HW HA HB HC HT.
  rewrite date_tokens_comma by exact HW.
  rewrite !date_tokens_next by assumption.
  now rewrite date_tokens_last.
Qed.

Lemma two_digits_word (n : Z) : 0 <= n <= 99 -> word (two_digits n).
Proof.
  intros Hn. destruct (two_digits_range n Hn) as (Ha & Hb & _).
  split; [discriminate|]. unfold two_digits.
  repeat constructor; now apply digit_facts.
Qed.

Lemma four_digits_word (n : Z) : 0 <= n <= 9999 -> word (four_digits n).
Proof.
  intros Hn. destruct (four_digits_range n Hn) as (Ha & Hb & Hc & Hd & _).
  unfold four_digits.
  replace (n <? 10000) with true by (symmetry; apply Z.ltb_lt; lia).
  split; [discriminate|]. repeat constructor; now apply digit_facts.
Qed.

Lemma time_word (h m s : Z) :
  0 <= h <= 99 -> 0 <= m <= 99 -> 0 <= s <= 99 ->
  word (two_digits h ++ js ":" ++ two_digits m ++ js ":" ++ two_digits s).
Proof.
  intros Hh Hm Hs.
  destruct (two_digits_word h Hh) as [_ H1], (two_digits_word m Hm) as [_ H2],
    (two_digits_word s Hs) as [_ H3].
  split; [discriminate|].
  repeat (apply Forall_app; split); try assumption; repeat constructor.
Qed.

Lemma weekday_name_cases (d : Z) :
  0 <= d <= 6 -> In (weekday_name d) weekday_names.
Proof. intros Hd. unfold weekday_name. apply nth_In. simpl. lia. Qed.

Lemma weekday_facts (w : jsstring) :
  In w weekday_names ->
  word w /\ parse_time w = None /\ parse_day_of_month w = None /\
  parse_month w = None /\ parse_year w = None /\ trim_left is_wsp w = w.
Proof.
  intros Hw. simpl in Hw.
  repeat (destruct Hw as [<-|Hw];
          [split; [split; [discriminate|repeat constructor]|repeat split]|]).
  contradiction.
Qed.

Lemma month_facts (m : Z) :
  0 <= m <= 11 ->
  word (month_name m) /\ parse_time (month_name m) = None /\
  parse_month (month_name m) = Some m.
Proof.
  intros Hm.
  assert (Hc : m = 0 \/ m = 1 \/ m = 2 \/ m = 3 \/ m = 4 \/ m = 5 \/ m = 6 \/
               m = 7 \/ m = 8 \/ m = 9 \/ m = 10 \/ m = 11) by lia.
  repeat (destruct Hc as [->|Hc];
          [split; [split; [discriminate|repeat constructor]|split; reflexivity]|]).
  subst. split; [split; [discriminate|repeat constructor]|split; reflexivity].
Qed.

Lemma date_fields_formatted (W : jsstring) (d mo y h mi s : Z) :
  In W weekday_names -> 0 <= d <= 99 -> 0 <= mo <= 11 -> 0 <= y <= 9999 ->
  0 <= h <= 99 -> 0 <= mi <= 99 -> 0 <= s <= 99 ->
  fold_left date_step
    (date_tokens
       (W ++ js ", " ++ two_digits d ++ js " " ++ month_name mo ++ js " "
        ++ four_digits y ++ js " "
        ++ (two_digits h ++ js ":" ++ two_digits mi ++ js ":" ++ two_digits s)
        ++ js " GMT") [])
    {| f_time := None; f_day := None; f_month := None; f_year := None |}
  = {| f_time := Some (h, mi, s); f_day := Some d; f_month := Some mo;
       f_year := Some y |}.
Proof.
  intros HW Hd Hmo Hy Hh Hmi Hs.
  destruct (weekday_facts W HW) as (Hw & W1 & W2 & W3 & W4 & _).
  destruct (month_facts mo Hmo) as (Hm & M1 & M2).
  rewrite formatted_tokens;
    [|assumption|now apply two_digits_word|assumption|now apply four_digits_word
     |now apply time_word].
  cbn [fold_left].
  unfold date_step at 6. cbn [f_time f_day f_month f_year].
  rewrite W1, W2, W3, W4.
  unfold date_step at 5. cbn [f_time f_day f_month f_year].
  rewrite parse_time_two_digits, parse_day_two_digits by exact Hd.
  unfold date_step at 4. cbn [f_time f_day f_month f_year].
  rewrite M1, M2.
  unfold date_step at 3. cbn [f_time f_day f_month f_year].
  rewrite parse_time_four_digits, parse_year_four_digits by exact Hy.
  unfold date_step at 2. cbn [f_time f_day f_month f_year].
  rewrite parse_time_formatted by assumption.
  reflexivity.
Qed.

Lemma time_fields (t : Z) :
  0 <= t < year10000 ->
  let y := YearFromTime t in
  let leap := InLeapYear y in
  let m := MonthFromTime t in
  let d := DateFromTime t in
  1970 <= y <= 9999 /\ 0 <= leap <= 1 /\ 0 <= m <= 11 /\
  1 <= d <= MonthStart leap (m + 1) - MonthStart leap m /\ d <= 31 /\
  0 <= WeekDay t <= 6 /\
  0 <= HourFromTime t <= 23 /\ 0 <= MinFromTime t <= 59 /\
  0 <= SecFromTime t <= 59 /\
  MakeDate y m d (HourFromTime t) (MinFromTime t) (SecFromTime t)
  = 1000 * (t / 1000).
Proof.
  intros Ht. cbv zeta.
  assert (Hday : 0 <= Day t < 2932897).
  { unfold Day, msPerDay, year10000 in *. Z.div_mod_to_equations. lia. }
  pose proof (YearFromDay_range _ Hday) as Hy.
  pose proof (YearFromDay_spec (Day t)) as Hs.
  fold (YearFromTime t) in Hy, Hs.
  destruct (InLeapYear_cases (YearFromTime t)) as [[Hl Hlen]|[Hl Hlen]].
  all: assert (Hleap : 0 <= InLeapYear (YearFromTime t) <= 1) by lia.
  all: assert (Hdiy : 0 <= DayWithinYear t < 365 + InLeapYear (YearFromTime t))
         by (unfold DayWithinYear; lia).
  all: pose proof (month_search_spec _ _ Hleap Hdiy) as Hm; cbv zeta in Hm.
  all: fold (MonthFromTime t) in Hm; destruct Hm as [Hm Hms].
  all: pose proof (month_length _ _ Hleap Hm) as Hml.
  all: repeat split; try (unfold DateFromTime; lia); try lia.
  all: try (unfold WeekDay, HourFromTime, MinFromTime, SecFromTime;
            Z.div_mod_to_equations; lia).
  all: unfold MakeDate, DateFromTime, DayWithinYear, HourFromTime, MinFromTime,
         SecFromTime, Day, msPerDay;
       generalize (DayFromYear (YearFromTime t));
       generalize (MonthStart (InLeapYear (YearFromTime t)) (MonthFromTime t));
       intros; Z.div_mod_to_equations; lia.
Qed.

(** The host reads an expiry date back as the time it was written from,
    cut to whole seconds. *)
Lemma parse_cookie_date_toUTCString (t : Z) :
  0 <= t < year10000 ->
  parse_cookie_date (toUTCString (Some t)) = Some (1000 * (t / 1000)).
Proof.
  intros Ht.
  destruct (time_fields t Ht) as (Hy & Hl & Hm & Hd & Hd31 & Hw & Hh & Hmi & Hs & Hmk).
  unfold parse_cookie_date, toUTCString.
  replace (YearFromTime t <? 0) with false by (symmetry; apply Z.ltb_ge; lia).
  rewrite Z.abs_eq by lia. cbn [app].
  replace (two_digits (HourFromTime t) ++ js ":" ++ two_digits (MinFromTime t)
           ++ js ":" ++ two_digits (SecFromTime t) ++ js " GMT")
    with ((two_digits (HourFromTime t) ++ js ":" ++ two_digits (MinFromTime t)
           ++ js ":" ++ two_digits (SecFromTime t)) ++ js " GMT")
    by (now rewrite <- !app_assoc).
  rewrite date_fields_formatted;
    [|now apply weekday_name_cases|lia..].
  cbn [f_time f_day f_month f_year].
  replace ((70 <=? YearFromTime t) && (YearFromTime t <=? 99)) with false
    by (symmetry; apply andb_false_iff; right; apply Z.leb_gt; lia).
  replace ((0 <=? YearFromTime t) && (YearFromTime t <=? 69)) with false
    by (symmetry; apply andb_false_iff; right; apply Z.leb_gt; lia).
  replace (1 <=? DateFromTime t) with true by (symmetry; apply Z.leb_le; lia).
  replace (DateFromTime t <=? _) with true by (symmetry; apply Z.leb_le; lia).
  replace (1601 <=? YearFromTime t) with true by (symmetry; apply Z.leb_le; lia).
  replace (HourFromTime t <=? 23) with true by (symmetry; apply Z.leb_le; lia).
  replace (MinFromTime t <=? 59) with true by (symmetry; apply Z.leb_le; lia).
  replace (SecFromTime t <=? 59) with true by (symmetry; apply Z.leb_le; lia).
  cbn [andb]. now rewrite Hmk.
Qed.

(** ** Text handled by the store *)

Lemma plain_unit_range (c : code_unit) :
  plain_unit c = true -> (33 <= c <= 126)%N /\ c <> 59%N /\ c <> 61%N /\ c <> 37%N.
Proof.
  unfold plain_unit. rewrite !andb_true_iff, !negb_true_iff.
  intros ((((H1 & H2) & H3) & H4) & H5).
  apply N.leb_le in H1, H2. apply N.eqb_neq in H3, H4, H5. auto.
Qed.

Lemma plain_unit_facts (c : code_unit) :
  plain_unit c = true ->
  (c =? semicolon)%N = false /\ (c =? equals)%N = false /\
  (c =? percent)%N = false /\ (c =? space)%N = false /\ is_wsp c = false /\
  is_control c = false /\ (c <? 128)%N = true.
Proof.
  intros H. apply plain_unit_range in H as (Hr & H1 & H2 & H3).
  unfold semicolon, equals, percent, space, is_wsp, is_control.
  repeat split.
  - now apply N.eqb_neq.
  - now apply N.eqb_neq.
  - now apply N.eqb_neq.
  - apply N.eqb_neq. lia.
  - apply orb_false_iff. split; apply N.eqb_neq; lia.
  - rewrite !orb_false_iff, andb_false_iff. repeat split.
    + apply N.leb_gt. lia.
    + right. apply N.leb_gt. lia.
    + apply N.eqb_neq. lia.
  - apply N.ltb_lt. lia.
Qed.

Lemma plain_text_Forall (s : jsstring) :
  plain_text s = true <-> Forall (fun c => plain_unit c = true) s.
Proof. unfold plain_text. rewrite forallb_forall, List.Forall_forall. reflexivity. Qed.

Lemma plain_text_app (a b : jsstring) :
  plain_text (a ++ b) = plain_text a && plain_text b.
Proof. apply forallb_app. Qed.

(** *** Splitting *)

Lemma split_nonempty (sep : code_unit) (s : jsstring) : split sep s <> [].
Proof.
  induction s as [|c s IH]; simpl; [discriminate|].
  destruct (c =? sep)%N; [discriminate|]. now destruct (split sep s).
Qed.

Lemma split_app (sep : code_unit) (a b : jsstring) :
  split sep (a ++ sep :: b) = split sep a ++ split sep b.
Proof.
  induction a as [|c a IH]; simpl.
  - now rewrite N.eqb_refl.
  - destruct (c =? sep)%N; [now rewrite IH|].
    rewrite IH. pose proof (split_nonempty sep a).
    now destruct (split sep a).
Qed.

Lemma split_whole (sep : code_unit) (s : jsstring) :
  Forall (fun c => (c =? sep)%N = false) s -> split sep s = [s].
Proof.
  induction 1 as [|c s Hc _ IH]; simpl; [reflexivity|]. now rewrite Hc, IH.
Qed.

Lemma cut_app (sep : code_unit) (a b : jsstring) :
  Forall (fun c => (c =? sep)%N = false) a -> cut sep (a ++ sep :: b) = (a, Some b).
Proof.
  induction 1 as [|c a Hc _ IH]; simpl.
  - now rewrite N.eqb_refl.
  - now rewrite Hc, IH.
Qed.

Lemma trim_left_nonblank (blank : code_unit -> bool) (s : jsstring) :
  match s with c :: _ => blank c = false | [] => True end ->
  trim_left blank s = s.
Proof. destruct s as [|c s]; simpl; [reflexivity|]. now intros ->. Qed.

Lemma trim_by_ends (blank : code_unit -> bool) (s : jsstring) :
  match s with c :: _ => blank c = false | [] => True end ->
  match rev s with c :: _ => blank c = false | [] => True end ->
  trim_by blank s = s.
Proof.
  intros H1 H2. unfold trim_by.
  rewrite (trim_left_nonblank blank s H1), (trim_left_nonblank blank (rev s) H2).
  apply rev_involutive.
Qed.

Lemma trim_nonblank (s : jsstring) :
  Forall (fun c => is_wsp c = false) s -> trim s = s.
Proof.
  intros H. apply trim_by_ends.
  - destruct H; [exact I|assumption].
  - apply Forall_rev in H. destruct H; [exact I|assumption].
Qed.

Lemma plain_forall (P : code_unit -> Prop) (s : jsstring) :
  (forall c, plain_unit c = true -> P c) -> plain_text s = true -> Forall P s.
Proof.
  intros HP Hs. apply plain_text_Forall in Hs.
  eapply Forall_impl; [exact Hs|exact HP].
Qed.

Lemma plain_no_semicolon (s : jsstring) :
  plain_text s = true -> Forall (fun c => (c =? semicolon)%N = false) s.
Proof. apply plain_forall. intros c Hc. now apply plain_unit_facts. Qed.

Lemma plain_no_equals (s : jsstring) :
  plain_text s = true -> Forall (fun c => (c =? equals)%N = false) s.
Proof. apply plain_forall. intros c Hc. now apply plain_unit_facts. Qed.

Lemma plain_no_percent (s : jsstring) :
  plain_text s = true -> Forall (fun c => (c =? percent)%N = false) s.
Proof. apply plain_forall. intros c Hc. now apply plain_unit_facts. Qed.

Lemma plain_trim (s : jsstring) : plain_text s = true -> trim s = s.
Proof.
  intros H. apply trim_nonblank. revert H. apply plain_forall.
  intros c Hc. now apply plain_unit_facts.
Qed.

Lemma plain_no_control (s : jsstring) : plain_text s = true -> existsb is_control s = false.
Proof.
  intros H. apply plain_text_Forall in H.
  induction H as [|c s Hc _ IH]; simpl; [reflexivity|].
  rewrite IH. now destruct (plain_unit_facts c Hc) as (_ & _ & _ & _ & _ & -> & _).
Qed.

Lemma plain_utf8_length (s : jsstring) :
  plain_text s = true -> utf8_length s = Z.of_nat (length s).
Proof.
  intros H. apply plain_text_Forall in H.
  induction H as [|c s Hc _ IH]; [reflexivity|].
  cbn [utf8_length length].
  destruct (plain_unit_facts c Hc) as (_ & _ & _ & _ & _ & _ & ->). lia.
Qed.

(** *** The text of an expiry date *)

Lemma digit_harmless (d : Z) : 0 <= d <= 9 -> harmless (digit d).
Proof.
  intros Hd.
  assert (Hc : d = 0 \/ d = 1 \/ d = 2 \/ d = 3 \/ d = 4 \/ d = 5 \/ d = 6 \/
               d = 7 \/ d = 8 \/ d = 9) by lia.
  repeat (destruct Hc as [->|Hc]; [split; reflexivity|]). subst. split; reflexivity.
Qed.

Lemma two_digits_harmless (n : Z) : 0 <= n <= 99 -> Forall harmless (two_digits n).
Proof.
  intros Hn. destruct (two_digits_range n Hn) as (Ha & Hb & _).
  repeat constructor; now apply digit_harmless.
Qed.

Lemma four_digits_harmless (n : Z) : 0 <= n <= 9999 -> Forall harmless (four_digits n).
Proof.
  intros Hn. destruct (four_digits_range n Hn) as (Ha & Hb & Hc & Hd & _).
  unfold four_digits.
  replace (n <? 10000) with true by (symmetry; apply Z.ltb_lt; lia).
  repeat constructor; now apply digit_harmless.
Qed.

Lemma weekday_harmless (w : jsstring) : In w weekday_names -> Forall harmless w.
Proof.
  intros Hw. simpl in Hw.
  repeat (destruct Hw as [<-|Hw]; [repeat constructor|]). contradiction.
Qed.

Lemma month_harmless (m : Z) : 0 <= m <= 11 -> Forall harmless (month_name m).
Proof.
  intros Hm.
  assert (Hc : m = 0 \/ m = 1 \/ m = 2 \/ m = 3 \/ m = 4 \/ m = 5 \/ m = 6 \/
               m = 7 \/ m = 8 \/ m = 9 \/ m = 10 \/ m = 11) by lia.
  repeat (destruct Hc as [->|Hc]; [repeat constructor|]). subst. repeat constructor.
Qed.

Lemma weekday_head (w : jsstring) :
  In w weekday_names -> exists c w', w = c :: w' /\ is_wsp c = false.
Proof.
  intros Hw. simpl in Hw.
  repeat (destruct Hw as [<-|Hw]; [do 2 eexists; split; reflexivity|]).
  contradiction.
Qed.

Lemma toUTCString_text (t : Z) :
  0 <= t < year10000 ->
  Forall harmless (toUTCString (Some t)) /\
  trim (toUTCString (Some t)) = toUTCString (Some t).
Proof.
  intros Ht.
  destruct (time_fields t Ht) as (Hy & Hl & Hm & Hd & Hd31 & Hw & Hh & Hmi & Hs & _).
  pose proof (weekday_name_cases _ Hw) as HW.
  unfold toUTCString.
  replace (YearFromTime t <? 0) with false by (symmetry; apply Z.ltb_ge; lia).
  rewrite Z.abs_eq by lia. cbn [app].
  split.
  - repeat (apply Forall_app; split);
      try (apply two_digits_harmless; lia);
      try (apply four_digits_harmless; lia);
      try (now apply weekday_harmless); try (now apply month_harmless);
      repeat constructor.
  - apply trim_by_ends.
    + destruct (weekday_head _ HW) as (c & w & -> & Hc). exact Hc.
    + rewrite !app_assoc, rev_app_distr. reflexivity.
Qed.

Lemma harmless_no_semicolon (s : jsstring) :
  Forall harmless s -> Forall (fun c => (c =? semicolon)%N = false) s.
Proof. intros H. eapply Forall_impl; [exact H|]. now intros c [_ Hc]. Qed.

Lemma harmless_no_control (s : jsstring) :
  Forall harmless s -> existsb is_control s = false.
Proof.
  induction 1 as [|c s [Hc _] _ IH]; simpl; [reflexivity|]. now rewrite Hc, IH.
Qed.

(** *** What the store makes of the record [setCookie] assigns *)

Lemma attribute_expires (now t : Z) :
  0 <= t < year10000 ->
  attribute_expiry now (js "expires=" ++ toUTCString (Some t))
  = Some (inl (1000 * (t / 1000))).
Proof.
  intros Ht. unfold attribute_expiry, name_value.
  change (js "expires=" ++ toUTCString (Some t))
    with (js "expires" ++ equals :: toUTCString (Some t)).
  rewrite cut_app by (repeat constructor).
  destruct (toUTCString_text t Ht) as [_ ->].
  change (trim (js "expires")) with (js "expires").
  change (jsstring_eqb (lowercase (js "expires")) (js "expires")) with true.
  cbv iota. now rewrite parse_cookie_date_toUTCString.
Qed.

Lemma parse_written (now t : Z) (n v : jsstring) :
  plain_text n = true -> n <> [] -> plain_text v = true ->
  Z.of_nat (length n + length v) <= 4096 -> reserved_prefix n = false ->
  0 <= t < year10000 ->
  parse_set_cookie now
    (n ++ js "=" ++ v ++ js ";" ++ (js "expires=" ++ toUTCString (Some t))
     ++ js ";path=/;SameSite=Lax")
  = Some {| c_name := n; c_value := v;
            c_expires := Some (Z.min (now + age_limit) (1000 * (t / 1000))) |}.
Proof.
  intros Hn Hne Hv Hlen Hres Ht.
  destruct (toUTCString_text t Ht) as [Hd _].
  unfold parse_set_cookie.
  rewrite !existsb_app, (plain_no_control n Hn), (plain_no_control v Hv),
    (harmless_no_control _ Hd).
  change (existsb is_control (js "=")) with false.
  change (existsb is_control (js ";")) with false.
  change (existsb is_control (js "expires=")) with false.
  change (existsb is_control (js ";path=/;SameSite=Lax")) with false.
  cbn [orb].
  replace (n ++ js "=" ++ v ++ js ";" ++ (js "expires=" ++ toUTCString (Some t))
           ++ js ";path=/;SameSite=Lax")
    with ((n ++ js "=" ++ v) ++ semicolon
          :: (js "expires=" ++ toUTCString (Some t)) ++ semicolon
          :: js "path=/" ++ semicolon :: js "SameSite=Lax")
    by (now rewrite <- !app_assoc).
  rewrite !split_app.
  rewrite (split_whole semicolon (n ++ js "=" ++ v)).
  2:{ repeat (apply Forall_app; split); try (now apply plain_no_semicolon);
      repeat constructor. }
  rewrite (split_whole semicolon (js "expires=" ++ toUTCString (Some t))).
  2:{ apply Forall_app; split; [repeat constructor|now apply harmless_no_semicolon]. }
  change (split semicolon (js "path=/")) with [js "path=/"].
  change (split semicolon (js "SameSite=Lax")) with [js "SameSite=Lax"].
  cbn [app]. unfold name_value at 1.
  change (n ++ js "=" ++ v) with (n ++ equals :: v).
  rewrite cut_app by (now apply plain_no_equals).
  rewrite (plain_trim n Hn), (plain_trim v Hv).
  destruct n as [|c n]; [contradiction|].
  rewrite (plain_utf8_length _ Hn), (plain_utf8_length _ Hv), Hres.
  replace (4096 <? Z.of_nat (length (c :: n)) + Z.of_nat (length v)) with false
    by (symmetry; apply Z.ltb_ge; lia).
  cbn [orb expiry_of]. rewrite attribute_expires by exact Ht.
  reflexivity.
Qed.

(** *** Percent-decoding *)

Lemma escapes_plain (s : jsstring) :
  Forall (fun c => (c =? percent)%N = false) s -> escapes s = Some (List.map Unit s).
Proof. induction 1 as [|c s Hc _ IH]; simpl; [reflexivity|]. now rewrite Hc, IH. Qed.

Lemma octets_units (s : jsstring) : octets (List.map Unit s) = Some s.
Proof. induction s as [|c s IH]; simpl; [reflexivity|]. now rewrite IH. Qed.




Lemma decode_plain (s : jsstring) :
  Forall (fun c => (c =? percent)%N = false) s -> decodeURIComponent s = Normal s.
Proof.
  intros H. unfold decodeURIComponent. now rewrite escapes_plain, octets_units.
Qed.


(** *** Looking a record up in the decoded text *)


Lemma find_cookie_app (name : jsstring) (l1 l2 : list jsstring) :
  find_cookie name (l1 ++ l2)
  = match find_cookie name l1 with
    | Some x => Some x
    | None => find_cookie name l2
    end.
Proof.
  induction l1 as [|p l1 IH]; simpl; [reflexivity|].
  destruct (indexOf (strip_spaces p) name =? 0); [reflexivity|exact IH].
Qed.

Lemma is_prefix_app (p s : jsstring) : is_prefix p (p ++ s) = true.
Proof. induction p as [|c p IH]; simpl; [reflexivity|]. now rewrite N.eqb_refl. Qed.

Lemma indexOf_prefix (s p : jsstring) : is_prefix p s = true -> indexOf s p = 0.
Proof. intros H. unfold indexOf. destruct s; simpl; now rewrite H. Qed.

Lemma find_cookie_own (n v : jsstring) (lead : jsstring) :
  plain_text n = true -> n <> [] ->
  Forall (fun c => c = space) lead ->
  find_cookie (n ++ js "=") [lead ++ n ++ js "=" ++ v] = Some v.
Proof.
  intros Hn Hne Hlead. cbn [find_cookie].
  assert (Hs : strip_spaces (lead ++ n ++ js "=" ++ v) = n ++ js "=" ++ v).
  { induction Hlead as [|c lead -> _ IH]; [|exact IH].
    destruct n as [|c n]; [contradiction|]. simpl.
    apply andb_true_iff in Hn as [Hc _].
    now destruct (plain_unit_facts c Hc) as (_ & _ & _ & -> & _). }
  rewrite Hs, (app_assoc n (js "=") v), indexOf_prefix by apply is_prefix_app.
  cbn [Z.eqb]. unfold substring.
  rewrite skipn_app, skipn_all, Nat.sub_diag. cbn [skipn app].
  rewrite length_app.
  replace (length (n ++ js "=") + length v - length (n ++ js "="))%nat
    with (length v) by lia.
  now rewrite firstn_all.
Qed.

(** ** The store *)

Lemma alive_earlier (t t' : Z) (c : cookie) :
  t <= t' -> alive t' c = true -> alive t c = true.
Proof.
  unfold alive. destruct (c_expires c) as [e|]; [|reflexivity].
  intros Ht H. apply Z.ltb_lt in H. apply Z.ltb_lt. lia.
Qed.

Lemma visible_app (t : Z) (a b : jar) : visible t (a ++ b) = visible t a ++ visible t b.
Proof. apply List.filter_app. Qed.

Lemma visible_later (t t' : Z) (j : jar) :
  t <= t' -> visible t' (visible t j) = visible t' j.
Proof.
  intros Ht. unfold visible. induction j as [|c j IH]; [reflexivity|].
  cbn [List.filter]. destruct (alive t c) eqn:E.
  - cbn [List.filter]. now rewrite IH.
  - rewrite IH. destruct (alive t' c) eqn:E'; [|reflexivity].
    apply (alive_earlier t t' c Ht) in E'. congruence.
Qed.

Lemma visible_idem (t : Z) (j : jar) : visible t (visible t j) = visible t j.
Proof. apply visible_later. lia. Qed.


Lemma store_absent (c : cookie) (j : jar) :
  record_of (c_name c) j = None -> store c j = j ++ [c].
Proof.
  unfold record_of. induction j as [|d j IH]; simpl; [reflexivity|].
  destruct (jsstring_eqb (c_name d) (c_name c)); [discriminate|].
  intros H. now rewrite IH.
Qed.



Lemma record_of_visible_None (t : Z) (n : jsstring) (j : jar) :
  record_of n j = None -> record_of n (visible t j) = None.
Proof.
  unfold record_of, visible. induction j as [|d j IH]; simpl; [reflexivity|].
  destruct (jsstring_eqb (c_name d) n) eqn:E; [discriminate|].
  intros H. destruct (alive t d); simpl; [rewrite E|]; now apply IH.
Qed.


(** ** [setCookie] and [getCookie] *)

Lemma storable_name_facts (n : jsstring) :
  storable_name n = true ->
  plain_text n = true /\ n <> [] /\ (length n <= 4000)%nat /\ reserved_prefix n = false.
Proof.
  unfold storable_name. rewrite !andb_true_iff, !negb_true_iff.
  intros (((H1 & H2) & H3) & H4). repeat split; try assumption.
  - intros ->. discriminate.
  - now apply Nat.leb_le.
Qed.

Lemma token_name_facts (n : jsstring) :
  token_name n = true -> plain_text n = true /\ n <> [] /\ reserved_prefix n = false.
Proof.
  unfold token_name. rewrite !andb_true_iff, !negb_true_iff.
  intros ((H1 & H2) & H3). repeat split; try assumption.
  intros ->. discriminate.
Qed.

Lemma storable_token (n : jsstring) :
  storable_name n = true -> token_name n = true /\ (length n <= 4000)%nat.
Proof.
  intros H. destruct (storable_name_facts n H) as (Hp & Hne & Hl & Hr).
  split; [|exact Hl]. unfold token_name. rewrite Hp, Hr.
  destruct n; [contradiction|reflexivity].
Qed.

(** The expiry the store keeps, against the date that is written. *)
Lemma kept_until_ahead (now days : Z) : 1 <= days -> now < kept_until now days.
Proof.
  intros Hd. unfold kept_until, age_limit, msPerDay.
  apply Z.min_glb_lt; [lia|]. Z.div_mod_to_equations. lia.
Qed.

Lemma kept_until_le (now days : Z) : kept_until now days <= written_expiry now days.
Proof. apply Z.le_min_r. Qed.

Lemma kept_until_written (now days : Z) :
  days <= 400 -> kept_until now days = written_expiry now days.
Proof.
  intros Hd. unfold kept_until, written_expiry, age_limit, msPerDay.
  apply Z.min_r. Z.div_mod_to_equations. lia.
Qed.




Section Store.
Context {NH : NumberHost} {host : Type}.

(** The record the store keeps after [setCookie]. *)
Lemma setCookie_writes (this : @BrowserFingerprint NH host) (now days : Z)
    (j : jar) (v : jsstring) :
  token_name (ToString (cookieName this)) = true ->
  ToNumber (cookieDays this) = Some days ->
  plain_text v = true ->
  (length (ToString (cookieName this)) + length v <= 4096)%nat ->
  0 <= now + days * 24 * 60 * 60 * 1000 < year10000 ->
  setCookie this now j v
  = visible now
      (store {| c_name := ToString (cookieName this); c_value := v;
                c_expires := Some (kept_until now days) |}
         (visible now j)).
Proof.
  intros Hn Hd Hv Hlen Ht.
  destruct (token_name_facts _ Hn) as (Hp & Hne & Hr).
  unfold setCookie, document_cookie_set. rewrite Hd.
  unfold TimeClip.
  replace (Z.abs (now + days * 24 * 60 * 60 * 1000) <=? maxTime) with true
    by (symmetry; apply Z.leb_le; unfold maxTime, year10000 in *; lia).
  rewrite parse_written; try assumption; [reflexivity|lia].
Qed.


(** Where the store showed no record of the name, the written record comes
    last, behind the records that are still shown. *)
Lemma setCookie_appends (this : @BrowserFingerprint NH host) (t0 now days : Z)
    (j : jar) (v : jsstring) :
  token_name (ToString (cookieName this)) = true ->
  ToNumber (cookieDays this) = Some days ->
  plain_text v = true ->
  (length (ToString (cookieName this)) + length v <= 4096)%nat ->
  0 <= now + days * 24 * 60 * 60 * 1000 < year10000 ->
  now < kept_until now days -> t0 <= now ->
  record_of (ToString (cookieName this)) (visible t0 j) = None ->
  setCookie this now j v
  = visible now j ++ [{| c_name := ToString (cookieName this); c_value := v;
                         c_expires := Some (kept_until now days) |}].
Proof.
  intros Hn Hd Hv Hlen Ht Hahead Ht0 Hnone.
  rewrite (setCookie_writes this now days j v Hn Hd Hv Hlen Ht).
  set (c := {| c_name := ToString (cookieName this); c_value := v;
               c_expires := Some (kept_until now days) |}).
  assert (Hnone' : record_of (c_name c) (visible now j) = None).
  { rewrite <- (visible_later t0 now j Ht0). now apply record_of_visible_None. }
  rewrite (store_absent c _ Hnone'), visible_app, visible_idem.
  unfold visible at 2. cbn [List.filter].
  replace (alive now c) with true; [reflexivity|].
  symmetry. unfold alive, c. cbn. now apply Z.ltb_lt.
Qed.

Lemma getCookie_text (this : @BrowserFingerprint NH host) (now : Z) (j : jar) :
  getCookie this now j
  = match decodeURIComponent (join (js "; ") (List.map render (visible now j))) with
    | Throw e => Throw e
    | Normal d =>
        Normal (find_cookie (ToString (cookieName this) ++ js "=") (split semicolon d))
    end.
Proof. reflexivity. Qed.


End Store.

(** ** Identifiers are text the store keeps as given *)

Lemma lower_hex_plain (c : code_unit) : is_lower_hex c = true -> plain_unit c = true.
Proof.
  unfold is_lower_hex, plain_unit.
  rewrite orb_true_iff, !andb_true_iff, !negb_true_iff.
  intros [[H1 H2]|[H1 H2]]; apply N.leb_le in H1, H2;
    repeat split; try (apply N.leb_le; lia); apply N.eqb_neq; lia.
Qed.

Lemma hex_digits_length (fuel : nat) (n : Z) (acc : jsstring) :
  (length (hex_digits fuel n acc) <= fuel + length acc)%nat.
Proof.
  revert n acc. induction fuel as [|fuel IH]; intros n acc; simpl; [lia|].
  destruct (n / 16 =? 0); simpl; [lia|].
  specialize (IH (n / 16) (hex_digit (Z.to_N (n mod 16)) :: acc)). simpl in IH. lia.
Qed.

Lemma Number_toString_16_plain (h : Z) :
  - 2 ^ 31 <= h < 2 ^ 31 ->
  plain_text (Number_toString_16 h) = true /\
  (length (Number_toString_16 h) <= 96)%nat /\ Number_toString_16 h <> [].
Proof.
  intros Hh. destruct (Number_toString_16_shape h) as (digits & Hne & Hlow & Heq).
  split; [|split].
  - rewrite Heq, plain_text_app. apply andb_true_iff. split.
    + now destruct (h <? 0).
    + apply plain_text_Forall. eapply Forall_impl; [exact Hlow|].
      intros c. apply lower_hex_plain.
  - unfold Number_toString_16, hex_of_nonneg.
    assert (Hlog : forall n, 0 <= n <= 2 ^ 31 -> (Z.to_nat (Z.log2 n) <= 31)%nat).
    { intros n Hn. destruct (Z.eq_dec n 0) as [->|Hz]; [simpl; lia|].
      assert (Z.log2 n <= Z.log2 (2 ^ 31)) by (apply Z.log2_le_mono; lia).
      rewrite Z.log2_pow2 in H by lia. lia. }
    destruct (h <? 0) eqn:E.
    + apply Z.ltb_lt in E. rewrite length_app.
      pose proof (hex_digits_length (S (Z.to_nat (Z.log2 (- h)))) (- h) []).
      pose proof (Hlog (- h) ltac:(lia)). simpl in *. lia.
    + apply Z.ltb_ge in E.
      pose proof (hex_digits_length (S (Z.to_nat (Z.log2 h))) h []).
      pose proof (Hlog h ltac:(lia)). simpl in *. lia.
  - rewrite Heq. destruct (h <? 0); [discriminate|]. exact Hne.
Qed.

Section Caching.
Context {NH : NumberHost} {host : Type}.

Lemma identifier_plain (rs : list SignalResult) :
  plain_text (identifier rs) = true /\ (length (identifier rs) <= 96)%nat /\
  identifier rs <> [].
Proof. apply Number_toString_16_plain, described_fold_range. Qed.



End Caching.

(** ** A stored record shows when the store is read *)

Lemma escapes_semicolon (a b : jsstring) (ts : list token) :
  escapes (a ++ semicolon :: b) = Some ts ->
  exists ta tb, escapes a = Some ta /\ escapes b = Some tb /\
                ts = ta ++ Unit semicolon :: tb.
Proof.
  assert (Hk : (length a <= length a)%nat) by lia.
  revert Hk. generalize (length a) at 2. intros k. revert a ts.
  induction k as [|k IH]; intros a ts Hk H.
  { destruct a; [|simpl in Hk; lia]. simpl in H.
    destruct (escapes b) as [tb|]; [|discriminate]. injection H as <-.
    now exists [], tb. }
  destruct a as [|c a].
  { simpl in H. destruct (escapes b) as [tb|]; [|discriminate]. injection H as <-.
    now exists [], tb. }
  cbn [app escapes] in H |- *. destruct (c =? percent)%N.
  - destruct a as [|h [|l a]].
    + cbn [app] in H. destruct b as [|l b]; [discriminate|].
      change (hex_digit_value semicolon) with (@None N) in H. discriminate.
    + cbn [app] in H. change (hex_digit_value semicolon) with (@None N) in H.
      destruct (hex_digit_value h); discriminate.
    + cbn [app] in H.
      destruct (hex_digit_value h) as [x|]; [|discriminate].
      destruct (hex_digit_value l) as [y|]; [|discriminate].
      destruct (escapes (a ++ semicolon :: b)) as [ts'|] eqn:E; [|discriminate].
      injection H as <-.
      destruct (IH a ts' ltac:(simpl in Hk; lia) E) as (ta & tb & -> & Hb & ->).
      now exists (Octet (16 * x + y) :: ta), tb.
  - destruct (escapes (a ++ semicolon :: b)) as [ts'|] eqn:E; [|discriminate].
    injection H as <-.
    destruct (IH a ts' ltac:(simpl in Hk; lia) E) as (ta & tb & -> & Hb & ->).
    now exists (Unit c :: ta), tb.
Qed.

Ltac octets_split IH Hk :=
  match goal with
  | H : (if ?c then _ else None) = Some _ |- _ =>
      destruct c; [|discriminate H]
  end;
  match goal with
  | H : option_map _ (octets (?t ++ _)) = Some _ |- _ =>
      let r := fresh "r" in
      let E := fresh "E" in
      let da := fresh "da" in
      let db := fresh "db" in
      let Ha := fresh "Ha" in
      let Hb := fresh "Hb" in
      destruct (octets (t ++ _)) as [r|] eqn:E; [|discriminate H];
      injection H as <-;
      destruct (IH t r ltac:(simpl in Hk; lia) E) as (da & db & Ha & Hb & ->);
      rewrite Ha; eexists; exists db;
      split; [reflexivity|]; split; [exact Hb|];
      simpl; rewrite <- ?app_assoc; reflexivity
  end.

Lemma octets_semicolon (ta tb : list token) (d : jsstring) :
  octets (ta ++ Unit semicolon :: tb) = Some d ->
  exists da db, octets ta = Some da /\ octets tb = Some db /\
                d = da ++ semicolon :: db.
Proof.
  assert (Hk : (length ta <= length ta)%nat) by lia.
  revert Hk. generalize (length ta) at 2. intros k. revert ta d.
  induction k as [|k IH]; intros ta d Hk H.
  { destruct ta; [|simpl in Hk; lia]. simpl in H.
    destruct (octets tb) as [db|]; [|discriminate]. injection H as <-.
    now exists [], db. }
  destruct ta as [|[c|b] ta].
  - simpl in H. destruct (octets tb) as [db|]; [|discriminate]. injection H as <-.
    now exists [], db.
  - simpl in H |- *.
    destruct (octets (ta ++ Unit semicolon :: tb)) as [r|] eqn:E; [|discriminate].
    injection H as <-.
    destruct (IH ta r ltac:(simpl in Hk; lia) E) as (da & db & -> & Hb & ->).
    now exists (c :: da), db.
  - simpl in H |- *. destruct (b <? 128)%N.
    { destruct (octets (ta ++ Unit semicolon :: tb)) as [r|] eqn:E; [|discriminate].
      injection H as <-.
      destruct (IH ta r ltac:(simpl in Hk; lia) E) as (da & db & -> & Hb & ->).
      now exists (b :: da), db. }
    destruct (b <? 192)%N; [discriminate|].
    destruct (b <? 224)%N.
    { destruct ta as [|[c1|b1] ta]; try discriminate.
      simpl in H |- *. octets_split IH Hk. }
    destruct (b <? 240)%N.
    { destruct ta as [|[c1|b1] [|[c2|b2] ta]]; try discriminate.
      simpl in H |- *. octets_split IH Hk. }
    destruct (b <? 248)%N; [|discriminate].
    destruct ta as [|[c1|b1] [|[c2|b2] [|[c3|b3] ta]]]; try discriminate.
    simpl in H |- *. octets_split IH Hk.
Qed.

(** Decoding goes piece by piece: a separator is never part of an escape. *)
Lemma decode_semicolon (a b d : jsstring) :
  decodeURIComponent (a ++ semicolon :: b) = Normal d ->
  exists da db, decodeURIComponent a = Normal da /\
                decodeURIComponent b = Normal db /\ d = da ++ semicolon :: db.
Proof.
  unfold decodeURIComponent. intros H.
  destruct (escapes (a ++ semicolon :: b)) as [ts|] eqn:E; [|discriminate].
  destruct (octets ts) as [r|] eqn:Eo; [|discriminate]. injection H as ->.
  destruct (escapes_semicolon a b ts E) as (ta & tb & -> & -> & ->).
  destruct (octets_semicolon ta tb d Eo) as (da & db & -> & -> & ->).
  now exists da, db.
Qed.

Lemma decode_plain_prefix (p r d : jsstring) :
  Forall (fun c => (c =? percent)%N = false) p ->
  decodeURIComponent (p ++ r) = Normal d ->
  exists dr, decodeURIComponent r = Normal dr /\ d = p ++ dr.
Proof.
  intros Hp. revert d. induction Hp as [|c p Hc _ IH]; intros d H.
  - now exists d.
  - assert (Hd : decodeURIComponent (c :: p ++ r)
                 = match decodeURIComponent (p ++ r) with
                   | Normal d' => Normal (c :: d')
                   | Throw e => Throw e
                   end).
    { unfold decodeURIComponent. cbn [escapes]. rewrite Hc.
      destruct (escapes (p ++ r)) as [ts|]; [|reflexivity].
      cbn [octets]. now destruct (octets ts). }
    pose proof (eq_trans (eq_sym Hd) H) as H'. clear H Hd.
    destruct (decodeURIComponent (p ++ r)) as [d'|e] eqn:E; [|discriminate].
    injection H' as <-.
    destruct (IH d' E) as (dr & Hr & ->).
    exists dr. split; [exact Hr|reflexivity].
Qed.

Lemma split_prefix (sep : code_unit) (p r : jsstring) :
  Forall (fun c => (c =? sep)%N = false) p ->
  exists q qs, split sep r = q :: qs /\ split sep (p ++ r) = (p ++ q) :: qs.
Proof.
  intros Hp. pose proof (split_nonempty sep r) as Hne.
  destruct (split sep r) as [|q qs] eqn:E; [contradiction|].
  exists q, qs. split; [reflexivity|].
  induction Hp as [|c p Hc _ IH]; [exact E|].
  cbn [app split]. now rewrite Hc, IH.
Qed.

Lemma find_cookie_first (n q lead : jsstring) (qs : list jsstring) :
  plain_text n = true -> n <> [] ->
  Forall (fun c => c = space) lead ->
  find_cookie (n ++ js "=") ((lead ++ n ++ js "=" ++ q) :: qs) = Some q.
Proof.
  intros Hn Hne Hlead.
  pose proof (find_cookie_own n q lead Hn Hne Hlead) as H.
  cbn [find_cookie] in H |- *.
  destruct (indexOf (strip_spaces (lead ++ n ++ js "=" ++ q)) (n ++ js "=") =? 0);
    [exact H|discriminate].
Qed.

Section Shown.
Context {NH : NumberHost} {host : Type}.

Lemma join_middle (sep x : jsstring) (l1 l2 : list jsstring) :
  exists before after,
    join sep (l1 ++ x :: l2) = before ++ x ++ after /\
    (before = [] \/ exists s, before = s ++ sep) /\
    (after = [] \/ exists s, after = sep ++ s).
Proof.
  assert (Htail : exists after, join sep (x :: l2) = x ++ after /\
                                (after = [] \/ exists s, after = sep ++ s)).
  { destruct l2 as [|y l2].
    - exists []. split; [now rewrite app_nil_r|now left].
    - exists (sep ++ join sep (y :: l2)). split; [reflexivity|right; eauto]. }
  destruct Htail as (after & Hj & Ha).
  destruct l1 as [|p l1].
  - exists [], after. split; [exact Hj|]. split; [now left|exact Ha].
  - exists (join sep (p :: l1) ++ sep), after.
    split; [|split; [right; eauto|exact Ha]].
    rewrite <- Hj, <- app_assoc. clear.
    revert p. induction l1 as [|q l1 IH]; intros p; [reflexivity|].
    change (join sep ((p :: q :: l1) ++ x :: l2))
      with (p ++ sep ++ join sep ((q :: l1) ++ x :: l2)).
    rewrite IH.
    change (join sep (p :: q :: l1)) with (p ++ sep ++ join sep (q :: l1)).
    now rewrite <- !app_assoc.
Qed.

(** A record under the session's name that the store shows is found by
    [getCookie], unless decoding the store fails. *)
Lemma getCookie_finds_own (this : @BrowserFingerprint NH host) (now : Z)
    (j : jar) (r : cookie) :
  plain_text (ToString (cookieName this)) = true ->
  ToString (cookieName this) <> [] ->
  In r (visible now j) -> c_name r = ToString (cookieName this) ->
  getCookie this now j <> Normal None.
Proof.
  intros Hp Hne Hin Hname Hread.
  rewrite getCookie_text in Hread.
  apply in_split in Hin as (j1 & j2 & Hj). rewrite Hj, map_app in Hread.
  cbn [List.map] in Hread.
  assert (Hr : render r = ToString (cookieName this) ++ js "=" ++ c_value r).
  { unfold render. rewrite Hname. destruct (ToString (cookieName this));
      [contradiction|reflexivity]. }
  rewrite Hr in Hread. set (n := ToString (cookieName this)) in *.
  destruct (join_middle (js "; ") (n ++ js "=" ++ c_value r)
              (List.map render j1) (List.map render j2))
    as (before & after & Hjoin & Hb & _).
  rewrite Hjoin in Hread.
  assert (Hfound : forall lead rest d,
             Forall (fun c => c = space) lead ->
             decodeURIComponent (lead ++ n ++ js "=" ++ rest) = Normal d ->
             find_cookie (n ++ js "=") (split semicolon d) <> None).
  { intros lead rest d Hlead Hd.
    assert (Hpre : Forall (fun c => (c =? percent)%N = false) (lead ++ n ++ js "=")).
    { repeat (apply Forall_app; split); try (now apply plain_no_percent);
        [|repeat constructor].
      eapply Forall_impl; [exact Hlead|]. now intros c ->. }
    rewrite !app_assoc, <- (app_assoc lead) in Hd.
    destruct (decode_plain_prefix _ _ _ Hpre Hd) as (dr & _ & ->).
    assert (Hsemi : Forall (fun c => (c =? semicolon)%N = false) (lead ++ n ++ js "=")).
    { repeat (apply Forall_app; split); try (now apply plain_no_semicolon);
        [|repeat constructor].
      eapply Forall_impl; [exact Hlead|]. now intros c ->. }
    destruct (split_prefix semicolon _ dr Hsemi) as (q & qs & _ & ->).
    rewrite <- !app_assoc.
    now rewrite (find_cookie_first n q lead qs Hp Hne Hlead). }
  destruct Hb as [->|[s ->]].
  - match type of Hread with
    | context [decodeURIComponent ?t] =>
        destruct (decodeURIComponent t) as [d|e] eqn:Ed; [|discriminate Hread];
        replace t with (@nil code_unit ++ n ++ js "=" ++ (c_value r ++ after)) in Ed
          by (cbn [app]; now rewrite <- !app_assoc)
    end.
    injection Hread as Hfind.
    exact (Hfound [] (c_value r ++ after) d ltac:(constructor) Ed Hfind).
  - match type of Hread with
    | context [decodeURIComponent ?t] =>
        destruct (decodeURIComponent t) as [d|e] eqn:Ed; [|discriminate Hread];
        replace t
          with (s ++ semicolon :: ([space] ++ n ++ js "=" ++ (c_value r ++ after)))
          in Ed by (rewrite <- !app_assoc; reflexivity)
    end.
    injection Hread as Hfind.
    destruct (decode_semicolon _ _ _ Ed) as (da & db & _ & Hdb & ->).
    rewrite split_app, find_cookie_app in Hfind.
    destruct (find_cookie (n ++ js "=") (split semicolon da)); [discriminate|].
    exact (Hfound [space] (c_value r ++ after) db ltac:(repeat constructor) Hdb Hfind).
Qed.

Lemma read_none_no_record (this : @BrowserFingerprint NH host) (now : Z) (j : jar) :
  plain_text (ToString (cookieName this)) = true ->
  ToString (cookieName this) <> [] ->
  getCookie this now j = Normal None ->
  record_of (ToString (cookieName this)) (visible now j) = None.
Proof.
  intros Hp Hne Hread. unfold record_of.
  destruct (List.find _ (visible now j)) as [r|] eqn:E; [|reflexivity].
  apply List.find_some in E as [Hin Heq]. apply jsstring_eqb_eq in Heq.
  now destruct (getCookie_finds_own this now j r Hp Hne Hin Heq).
Qed.

End Shown.

(** ** A store that names every record once *)



(** ** Reading a store of plain records *)

Lemma indexOf_from_ge (i : Z) (s p : jsstring) :
  indexOf_from i s p = -1 \/ i <= indexOf_from i s p.
Proof.
  revert i. induction s as [|c s IH]; intros i; cbn [indexOf_from].
  - destruct (is_prefix p []); [right; lia|now left].
  - destruct (is_prefix p (c :: s)); [right; lia|].
    destruct (IH (i + 1)) as [->|H]; [now left|right; lia].
Qed.

Lemma indexOf_not_prefix (s p : jsstring) :
  is_prefix p s = false -> (indexOf s p =? 0) = false.
Proof.
  intros H. unfold indexOf. destruct s as [|c s]; cbn [indexOf_from]; rewrite H.
  - reflexivity.
  - destruct (indexOf_from_ge (0 + 1) s p) as [->|Hge]; [reflexivity|].
    apply Z.eqb_neq. lia.
Qed.

Lemma prefix_same_name (n n' x y : jsstring) :
  plain_text n = true -> plain_text n' = true ->
  is_prefix (n ++ equals :: x) (n' ++ equals :: y) = true -> n = n'.
Proof.
  unfold plain_text.
  revert n'. induction n as [|c n IH]; intros [|c' n'] Hn Hn' Hp;
    cbn [app is_prefix forallb] in Hp, Hn, Hn'.
  - reflexivity.
  - apply andb_true_iff in Hp as [Hc _].
    apply andb_true_iff in Hn' as [Hc' _].
    apply N.eqb_eq in Hc. subst c'.
    destruct (plain_unit_facts _ Hc') as (_ & He & _). discriminate.
  - apply andb_true_iff in Hp as [Hc _].
    apply andb_true_iff in Hn as [Hc' _].
    apply N.eqb_eq in Hc. subst c.
    destruct (plain_unit_facts _ Hc') as (_ & He & _). discriminate.
  - apply andb_true_iff in Hp as [Hc Hp].
    apply andb_true_iff in Hn as [_ Hn]. apply andb_true_iff in Hn' as [_ Hn'].
    apply N.eqb_eq in Hc. subst c'. f_equal. now apply IH.
Qed.

Lemma strip_spaces_lead (lead s : jsstring) :
  Forall (fun c => c = space) lead ->
  match s with c :: _ => (c =? space)%N = false | [] => True end ->
  strip_spaces (lead ++ s) = s.
Proof.
  intros Hlead Hs. induction Hlead as [|c lead -> _ IH]; [|exact IH].
  destruct s as [|c s]; [reflexivity|]. cbn. now rewrite Hs.
Qed.

Lemma plain_record_facts (c : cookie) :
  plain_record c = true ->
  plain_text (c_name c) = true /\ c_name c <> [] /\ plain_text (c_value c) = true /\
  render c = c_name c ++ equals :: c_value c.
Proof.
  unfold plain_record. rewrite !andb_true_iff, negb_true_iff.
  intros ((Hn & Hne) & Hv).
  assert (c_name c <> []) by (intros E; rewrite E in Hne; discriminate).
  repeat split; try assumption.
  unfold render. destruct (c_name c); [contradiction|reflexivity].
Qed.

Lemma find_cookie_plain (n : jsstring) (pieces : list jsstring) (V : jar) :
  plain_text n = true -> n <> [] ->
  Forall (fun c => plain_record c = true) V ->
  Forall2 (fun p r => exists lead, Forall (fun c => c = space) lead /\
                                   p = lead ++ render r) pieces V ->
  find_cookie (n ++ js "=") pieces = option_map c_value (record_of n V).
Proof.
  intros Hn Hne HV HF. induction HF as [|p r pieces V (lead & Hlead & ->) HF IH].
  - reflexivity.
  - apply Forall_cons in HV as [Hr HV].
    destruct (plain_record_facts r Hr) as (Hrn & Hrne & Hrv & Hrender).
    unfold record_of. cbn [List.find].
    destruct (jsstring_eqb (c_name r) n) eqn:E.
    + apply jsstring_eqb_eq in E. rewrite Hrender, E.
      exact (find_cookie_first n (c_value r) lead pieces Hn Hne Hlead).
    + cbn [find_cookie]. rewrite strip_spaces_lead; [|exact Hlead|].
      2:{ rewrite Hrender. destruct (c_name r) as [|c0 rn]; [contradiction|].
          cbn. cbn in Hrn. apply andb_true_iff in Hrn as [Hc0 _].
          now destruct (plain_unit_facts _ Hc0) as (_ & _ & _ & Hsp & _). }
      rewrite indexOf_not_prefix; [exact (IH HV)|].
      destruct (is_prefix (n ++ js "=") (render r)) eqn:Hp; [|reflexivity].
      exfalso. rewrite Hrender in Hp.
      change (n ++ js "=") with (n ++ equals :: []) in Hp.
      rewrite (prefix_same_name n (c_name r) [] (c_value r) Hn Hrn Hp) in E.
      now rewrite jsstring_eqb_refl in E.
Qed.

Lemma split_join (l : list jsstring) :
  Forall (Forall (fun c => (c =? semicolon)%N = false)) l ->
  Forall2 (fun p r => exists lead, Forall (fun c => c = space) lead /\ p = lead ++ r)
    (split semicolon (join (js "; ") l)) (match l with [] => [[]] | _ => l end).
Proof.
  intros Hl. destruct l as [|x l].
  - cbn. constructor; [|constructor]. exists []. split; [constructor|reflexivity].
  - revert x Hl. induction l as [|y l IH]; intros x Hl.
    + cbn [join]. apply Forall_cons in Hl as [Hx _].
      rewrite split_whole by exact Hx. constructor; [|constructor].
      exists []. split; [constructor|reflexivity].
    + apply Forall_cons in Hl as [Hx Hl].
      change (join (js "; ") (x :: y :: l))
        with (x ++ semicolon :: ([space] ++ join (js "; ") (y :: l))).
      rewrite split_app, split_whole by exact Hx.
      pose proof (IH y Hl) as HF.
      destruct (split_prefix semicolon [space] (join (js "; ") (y :: l)))
        as (q & qs & Hq & Hsplit); [repeat constructor|].
      rewrite Hsplit. rewrite Hq in HF. cbn [app].
      constructor; [exists []; split; [constructor|reflexivity]|].
      inversion HF as [|? ? ? ? (lead & Hlead & ->) HF']; subst.
      constructor; [|exact HF'].
      exists (space :: lead). split; [now constructor|reflexivity].
Qed.

Section PlainStore.
Context {NH : NumberHost} {host : Type}.

(** On a store whose shown records are plain, [getCookie()] returns the value
    of the first record whose name is the session's record name. *)
Lemma getCookie_plain (this : @BrowserFingerprint NH host)
    (now : Z) (j : jar) :
  plain_text (ToString (cookieName this)) = true ->
  ToString (cookieName this) <> [] ->
  Forall (fun c => plain_record c = true) (visible now j) ->
  getCookie this now j
  = Normal (option_map c_value
              (record_of (ToString (cookieName this)) (visible now j))).
Proof.
  intros Hn Hne HV. rewrite getCookie_text.
  set (n := ToString (cookieName this)) in *.
  set (V := visible now j) in *.
  assert (Hrender : forall P : code_unit -> Prop,
            (forall c, plain_unit c = true -> P c) -> P equals ->
            Forall (Forall P) (List.map render V)).
  { intros P HP He. apply List.Forall_forall. intros s Hs.
    apply in_map_iff in Hs as (c & <- & Hc).
    rewrite List.Forall_forall in HV.
    destruct (plain_record_facts c (HV c Hc)) as (Hcn & _ & Hcv & ->).
    apply Forall_app. split; [now apply plain_forall|].
    constructor; [exact He|now apply plain_forall]. }
  assert (Hjoin : forall (P : code_unit -> Prop) l,
            P semicolon -> P space -> Forall (Forall P) l ->
            Forall P (join (js "; ") l)).
  { intros P l Hsemi Hsp Hl. induction Hl as [|x l Hx Hl IH]; [constructor|].
    destruct l as [|y l]; [exact Hx|].
    change (join (js "; ") (x :: y :: l))
      with (x ++ js "; " ++ join (js "; ") (y :: l)).
    apply Forall_app. split; [exact Hx|].
    constructor; [exact Hsemi|]. constructor; [exact Hsp|exact IH]. }
  rewrite decode_plain.
  2:{ apply Hjoin; [reflexivity|reflexivity|].
      apply Hrender; [|reflexivity].
      intros c Hc. now destruct (plain_unit_facts c Hc) as (_ & _ & Hp & _). }
  f_equal.
  pose proof (split_join (List.map render V)
                (Hrender _ (fun c Hc => proj1 (plain_unit_facts c Hc)) eq_refl)) as HF.
  clearbody n V. destruct V as [|r V'].
  - destruct n; [contradiction|reflexivity].
  - apply (find_cookie_plain n _ (r :: V') Hn Hne HV).
    cbn [List.map] in HF |- *.
    remember (split semicolon (join (js "; ") (render r :: List.map render V'))) as pieces.
    clear Heqpieces.
    change (render r :: List.map render V') with (List.map render (r :: V')) in HF.
    clear - HF. remember (r :: V') as W. clear HeqW.
    revert pieces HF. induction W as [|w W IH]; intros pieces HF.
    + inversion HF. constructor.
    + inversion HF as [|? ? ? ? Hh HF']; subst. constructor; [exact Hh|now apply IH].
Qed.





End PlainStore.

(** ** The stable subset and the identifier, in the words of the description *)

Section Subset.
Context {NH : NumberHost}.

Lemma stable_subset_stable (rs : list (@SignalResult NH)) :
  stable rs = stable_subset rs.
Proof.
  induction rs as [|r rs IH]; [reflexivity|].
  cbn [stable_subset]. unfold stable in *. cbn [List.filter]. rewrite IH.
  destruct (decide (key r ∈ described_keys)) as [Hin|Hout].
  - replace (includes stable_keys (key r)) with true; [reflexivity|].
    symmetry. apply existsb_exists. exists (key r).
    split; [now apply list_elem_of_In|apply jsstring_eqb_refl].
  - replace (includes stable_keys (key r)) with false; [reflexivity|].
    symmetry. apply not_true_is_false. intros H.
    apply existsb_exists in H as (k & Hk & Heq). apply jsstring_eqb_eq in Heq.
    subst k. apply Hout. now apply list_elem_of_In.
Qed.

Lemma identifier_described (rs : list (@SignalResult NH)) :
  identifier rs = described_identifier rs.
Proof. unfold identifier, described_identifier. now rewrite stable_subset_stable. Qed.

Lemma described_identifier_plain (rs : list (@SignalResult NH)) :
  plain_text (described_identifier rs) = true /\
  (length (described_identifier rs) <= 96)%nat /\ described_identifier rs <> [].
Proof. rewrite <- identifier_described. apply identifier_plain. Qed.

End Subset.

(** ** The miss path of [get()], with its write *)

Section MissWrite.
Context {NH : NumberHost} {host : Type}.

(** What a miss resolves with, and how many collectors it calls. *)
Lemma get_miss_described (this : @BrowserFingerprint NH host) (m : @moment host)
    (j : jar) (cached : option jsstring) (rs : list SignalResult) :
  getCookie this (clock m) j = Normal cached ->
  truthy cached = false ->
  Forall2 (reports (ambient m)) (components this) rs ->
  Permutation (schedule m) (seq 0 (length (components this))) ->
  get this m j
  = {| promised := Fulfilled {| visitorId := described_identifier rs;
                                fromCookie := None;
                                r_components := Some rs |};
       stored := setCookie this (clock_after m) j (described_identifier rs);
       launched := length (components this) |}.
Proof.
  intros Hread Hfalsy Hrs Hp. rewrite <- identifier_described.
  now apply (get_miss this m j cached rs).
Qed.

Lemma storable_room (this : @BrowserFingerprint NH host) (v : jsstring) :
  storable_name (ToString (cookieName this)) = true -> (length v <= 96)%nat ->
  token_name (ToString (cookieName this)) = true /\
  (length (ToString (cookieName this)) + length v <= 4096)%nat.
Proof.
  intros Hn Hv. destruct (storable_token _ Hn) as (Ht & Hl). split; [exact Ht|lia].
Qed.

(** C2. When the read of the store returns no value and the collectors keep
    their contract, [get()] calls every registered collector and resolves
    with [visitorId] and the full result list, in registration order;
    [visitorId] is the hash, as the description tells it, of the values of
    the results whose key is on the allow-list of the description, in the
    order of the result list, and it is what [hashComponents] returns for
    that subset.  [get()] then writes it: the store it leaves is the one
    [setCookie(visitorId)] leaves, and for a record name the store keeps as
    given, a lifetime of a number of days from one day on and an expiry date
    between 1970 and the year 9999, that store shows the records it showed
    before, followed by one record with the session's name, [visitorId] as
    its value and an expiry that lies ahead, which is the written date, to
    the second, for a lifetime of up to 400 days.  In
    the scenario with collectors for [userAgent] and [canvas] yielding
    "UA-X" and "CANVAS-Y" and an empty store, the result carries both
    components and [visitorId] "-10626487", the hash of the text
    [["UA-X","CANVAS-Y"]], and the store then holds the single record
    [smbfjs_id=-10626487], which expires 365 days later; with a collector
    for [webdriver], which is not on the allow-list, between the two, the
    result carries three components and the same [visitorId]. *)
Theorem get_miss_runs_pipeline (this : @BrowserFingerprint NH host)
    (m : @moment host) (j : jar) (rs : list SignalResult) :
  getCookie this (clock m) j = Normal None ->
  Forall2 (reports (ambient m)) (components this) rs ->
  Permutation (schedule m) (seq 0 (length (components this))) ->
  promised (get this m j)
  = Fulfilled {| visitorId := described_identifier rs; fromCookie := None;
                 r_components := Some rs |} /\
  launched (get this m j) = length (components this) /\
  hashComponents (stable_subset rs) = Normal (described_identifier rs) /\
  stored (get this m j) = setCookie this (clock_after m) j (described_identifier rs) /\
  (forall days : Z,
      storable_name (ToString (cookieName this)) = true ->
      ToNumber (cookieDays this) = Some days -> 1 <= days ->
      0 <= clock_after m + days * 24 * 60 * 60 * 1000 < year10000 ->
      clock m <= clock_after m ->
      exists e : Z,
        stored (get this m j)
        = visible (clock_after m) j
          ++ [{| c_name := ToString (cookieName this);
                 c_value := described_identifier rs;
                 c_expires := Some e |}] /\
        clock_after m < e <= written_expiry (clock_after m) days /\
        (days <= 400 -> e = written_expiry (clock_after m) days)) /\
  (forall m' : @moment host,
      Permutation (schedule m') [0; 1]%nat ->
      0 <= clock_after m' + 365 * 24 * 60 * 60 * 1000 < year10000 ->
      Number_toString_16 (described_fold scenario_text) = js "-10626487" /\
      get scenario_session m' []
      = {| promised := Fulfilled {| visitorId := js "-10626487";
                                    fromCookie := None;
                                    r_components := Some scenario_results |};
           stored := [{| c_name := js "smbfjs_id"; c_value := js "-10626487";
                         c_expires := Some (written_expiry (clock_after m') 365) |}];
           launched := 2 |}) /\
  (forall m' : @moment host,
      Permutation (schedule m') [0; 1; 2]%nat ->
      exists webdriver : SignalResult,
        key webdriver = js "webdriver" /\
        promised (get observed_session m' [])
        = Fulfilled {| visitorId := js "-10626487"; fromCookie := None;
                       r_components :=
                         Some [{| key := js "userAgent"; value := JStr (js "UA-X") |};
                               webdriver;
                               {| key := js "canvas"; value := JStr (js "CANVAS-Y") |}] |}).
Proof.
  intros Hread Hrs Hp.
  pose proof (get_miss_described this m j None rs Hread eq_refl Hrs Hp) as Hget.
  split; [now rewrite Hget|]. split; [now rewrite Hget|]. split.
  { rewrite <- stable_subset_stable, <- identifier_described.
    apply hashComponents_identifier. }
  split; [now rewrite Hget|]. split; [|split].
  - intros days Hn Hd Hdays Hw Hclock.
    destruct (described_identifier_plain rs) as (Hv & Hlen & _).
    destruct (storable_room this _ Hn Hlen) as (Htok & Hroom).
    destruct (token_name_facts _ Htok) as (Hpl & Hne & _).
    exists (kept_until (clock_after m) days).
    rewrite Hget. cbn [stored]. split; [|split; [split|]].
    + apply (setCookie_appends this (clock m)); try assumption.
      * now apply kept_until_ahead.
      * now apply read_none_no_record.
    + now apply kept_until_ahead.
    + apply kept_until_le.
    + apply kept_until_written.
  - intros m' Hp' Hw. split; [vm_compute; reflexivity|].
    rewrite (get_miss_described (@scenario_session NH host) m' [] None scenario_results
               eq_refl eq_refl ltac:(repeat constructor) Hp').
    assert (Hid : described_identifier (@scenario_results NH) = js "-10626487")
      by (vm_compute; reflexivity).
    rewrite Hid. f_equal.
    rewrite (setCookie_appends (@scenario_session NH host) (clock_after m')
               (clock_after m') 365 [] (js "-10626487")); try reflexivity;
      try lia.
    + cbn [visible List.filter app]. now rewrite kept_until_written by lia.
    + cbn. lia.
    + apply kept_until_ahead. lia.
  - intros m' Hp'.
    exists {| key := js "webdriver"; value := JStr (js "true") |}.
    split; [reflexivity|].
    rewrite (get_miss_described (@observed_session NH host) m' [] None
               [{| key := js "userAgent"; value := JStr (js "UA-X") |};
                {| key := js "webdriver"; value := JStr (js "true") |};
                {| key := js "canvas"; value := JStr (js "CANVAS-Y") |}]
               eq_refl eq_refl ltac:(repeat constructor) Hp').
    cbn [promised]. do 2 f_equal.
Qed.

End MissWrite.

(** ** Cache hits *)

Section Idempotence.
Context {NH : NumberHost} {host : Type}.



End Idempotence.



(** ** The written value is not percent-encoded *)

(** C7, at failing inputs.  [setCookie] puts the value into the record as it
    is: the store then holds [smbfjs_id=%41], and [getCookie], which
    percent-decodes what it reads, returns "A" for the written "%41"; for the
    written "100%" its decoding throws; and the written "a;b" is cut at the
    separator. *)
Theorem setCookie_does_not_encode :
  let this := @scenario_session IntegerHost unit in
  let now := 1793619780000 in
  document_cookie_get now (setCookie this now [] (js "%41")) = js "smbfjs_id=%41" /\
  getCookie this now (setCookie this now [] (js "%41")) = Normal (Some (js "A")) /\
  js "A" <> js "%41" /\
  getCookie this now (setCookie this now [] (js "100%")) = Throw URIError /\
  getCookie this now (setCookie this now [] (js "a;b")) = Normal (Some (js "a")).
Proof.
  cbv zeta. repeat split; try (vm_compute; reflexivity). discriminate.
Qed.

(** ** Instances *)

Lemma components_follow_registration_witness :
  let this := @scenario_session IntegerHost unit in
  let m := {| clock := 1793619780000; clock_after := 1793619780250;
              ambient := tt; schedule := [1; 0]%nat |} in
  exists (result : @Result IntegerHost) (comps : list (@SignalResult IntegerHost)),
    promised (get this m []) = Fulfilled result /\
    r_components result = Some comps /\
    comps = (@scenario_results IntegerHost) /\
    length comps = length (components this) /\
    List.map key comps = List.map key (@scenario_results IntegerHost) /\
    Forall2 (reports (ambient m)) (components this) comps.
Proof.
  intros this m.
  apply (@components_follow_registration IntegerHost unit this m [] None
           (@scenario_results IntegerHost) eq_refl eq_refl
           ltac:(repeat constructor) ltac:(simpl; apply perm_swap)).
Defined.

Lemma raising_collector_rejects_get_witness :
  let this := @failing_session IntegerHost unit in
  let m := {| clock := 1793619780000; clock_after := 1793619780250;
              ambient := tt; schedule := [1; 0]%nat |} in
  (exists i c e,
      components this !! i = Some c /\ raises (ambient m) c e /\
      promised (get this m []) = Rejected e) /\
  ((forall c e, In c (components this) -> raises (ambient m) c e ->
                e = Error (js "denied")) ->
   promised (get this m []) = Rejected (Error (js "denied"))) /\
  (forall result, promised (get this m []) <> Fulfilled result) /\
  stored (get this m []) = [].
Proof.
  intros this m.
  apply (@raising_collector_rejects_get IntegerHost unit this m [] None
           (rejecting_collector "denied") (Error (js "denied")) eq_refl eq_refl
           ltac:(simpl; right; left; reflexivity) ltac:(right; reflexivity)
           ltac:(simpl; apply perm_swap)).
Defined.

Lemma get_miss_runs_pipeline_witness :
  let this := @scenario_session IntegerHost unit in
  let m := {| clock := 1793619780000; clock_after := 1793619780250;
              ambient := tt; schedule := [1; 0]%nat |} in
  promised (get this m [theme_record])
  = Fulfilled {| visitorId := js "-10626487"; fromCookie := None;
                 r_components := Some (@scenario_results IntegerHost) |} /\
  launched (get this m [theme_record]) = 2%nat /\
  stored (get this m [theme_record])
  = [theme_record;
     {| c_name := js "smbfjs_id"; c_value := js "-10626487";
        c_expires := Some (written_expiry 1793619780250 365) |}].
Proof.
  intros this m.
  destruct (@get_miss_runs_pipeline IntegerHost unit this m [theme_record]
              (@scenario_results IntegerHost) eq_refl ltac:(repeat constructor)
              ltac:(simpl; apply perm_swap))
    as (Hres & Hrun & _ & _ & Hwrite & _).
  split; [exact Hres|]. split; [exact Hrun|].
  destruct (Hwrite 365 eq_refl eq_refl ltac:(lia)
              ltac:(vm_compute; split; [discriminate|reflexivity])
              ltac:(simpl; lia)) as (e & Hstore & _ & He).
  rewrite Hstore, (He ltac:(lia)). reflexivity.
Defined.



(** * Further properties *)

(** ** The hash as a weighted sum *)

Lemma wrap_int32_small (x : Z) : - 2 ^ 31 <= x < 2 ^ 31 -> wrap_int32 x = x.
Proof.
  intros H. unfold wrap_int32.
  rewrite Z.mod_small; lia.
Qed.

Lemma fold_described_sum (str : jsstring) (h : Z) :
  wrap_int32 (fold_left described_step str h)
  = wrap_int32 (h * 31 ^ Z.of_nat (length str) + weighted_sum str).
Proof.
  revert h. induction str as [|c s IH]; intros h.
  - simpl. f_equal. lia.
  - cbn [fold_left]. rewrite IH.
    unfold described_step at 1.
    destruct (wrap_int32_residue (Z.shiftl h 5 - h + Z.of_N c)) as [k Hk].
    rewrite Hk. apply (wrap_int32_congr _ _ (k * 31 ^ Z.of_nat (length s))).
    cbn [weighted_sum length]. rewrite Z.shiftl_mul_pow2 by lia.
    rewrite Nat2Z.inj_succ, Z.pow_succ_r by lia.
    change (2 ^ 5) with 32. ring.
Qed.

Lemma fold_described_range (str : jsstring) (h : Z) :
  - 2 ^ 31 <= h < 2 ^ 31 ->
  - 2 ^ 31 <= fold_left described_step str h < 2 ^ 31.
Proof.
  revert h. induction str as [|c s IH]; intros h Hh; [exact Hh|].
  cbn [fold_left]. apply IH, described_step_range.
Qed.

Lemma fold_hash_sum (str : jsstring) :
  fold_left hash_step str 0 = wrap_int32 (weighted_sum str).
Proof.
  rewrite fold_hash_described.
  rewrite <- (wrap_int32_small (fold_left described_step str 0))
    by (apply fold_described_range; lia).
  rewrite fold_described_sum. f_equal.
Qed.

Lemma hashSDP_fold (sdp : jsstring) : _hashSDP sdp = fold_left hash_step sdp 0.
Proof. reflexivity. Qed.

Lemma join_context (sep : jsstring) (l1 l2 : list jsstring) :
  exists before after,
    forall x, join sep (l1 ++ x :: l2) = before ++ x ++ after.
Proof.
  assert (Htail : exists after, forall x, join sep (x :: l2) = x ++ after).
  { destruct l2 as [|y l2].
    - exists []. intros x. now rewrite app_nil_r.
    - exists (sep ++ join sep (y :: l2)). reflexivity. }
  destruct Htail as (after & Ha).
  induction l1 as [|p l1 (before & after' & IH)].
  - exists [], after. exact Ha.
  - exists (p ++ sep ++ before), after'. intros x.
    replace (join sep ((p :: l1) ++ x :: l2))
      with (p ++ sep ++ join sep (l1 ++ x :: l2)).
    + rewrite IH. now rewrite <- !app_assoc.
    + destruct l1; reflexivity.
Qed.

Section HashFacts.
Context {NH : NumberHost}.

(** X1. The loop of [hashComponents] and of [_hashSDP] computes the sum of
    the code units, each multiplied by the power of 31 of its distance from
    the end of the string, wrapped to the signed 32-bit range: appending a
    code unit [c] turns the hash [h] into the wrapped [31 * h + c].
    [hashComponents] is the base-16 text of [_hashSDP] applied to the JSON
    text of the values. *)
Theorem hash_is_weighted_sum (str : jsstring) (components : list SignalResult) :
  _hashSDP str = wrap_int32 (weighted_sum str) /\
  - 2 ^ 31 <= _hashSDP str < 2 ^ 31 /\
  (forall c, _hashSDP (str ++ [c]) = wrap_int32 (31 * _hashSDP str + Z.of_N c)) /\
  exists text,
    JSON_stringify (JArr (List.map value components)) = Some text /\
    hashComponents components = Normal (Number_toString_16 (_hashSDP text)) /\
    hashComponents components
    = Normal (Number_toString_16 (wrap_int32 (weighted_sum text))).
Proof.
  split; [|split; [|split]].
  - rewrite hashSDP_fold. apply fold_hash_sum.
  - rewrite hashSDP_fold, fold_hash_described. apply described_fold_range.
  - intros c. rewrite !hashSDP_fold, fold_left_app. cbn [fold_left].
    rewrite hash_step_described. unfold described_step.
    f_equal. rewrite Z.shiftl_mul_pow2 by lia. change (2 ^ 5) with 32. ring.
  - eexists. split; [apply stringify_array|].
    unfold hashComponents. rewrite stringify_array.
    split; [reflexivity|]. now rewrite fold_hash_sum.
Qed.

(** X2. The hash is not injective, and what surrounds a difference does
    not matter: two strings of the same length whose weighted sums differ
    by a multiple of [2^32] can replace each other anywhere in a string
    without a change of [_hashSDP], and two values whose JSON texts are such
    strings can replace each other in a component list without a change of
    the identifier [hashComponents] gives.  [Aa] and [BB] are such
    strings. *)
Theorem hash_collides (a b pre post : jsstring) :
  length a = length b ->
  wrap_int32 (weighted_sum a) = wrap_int32 (weighted_sum b) ->
  _hashSDP (pre ++ a ++ post) = _hashSDP (pre ++ b ++ post) /\
  (forall (va vb : json) (cs1 cs2 : list SignalResult) (k k' : jsstring),
      element_text va = a -> element_text vb = b ->
      hashComponents (cs1 ++ {| key := k; value := va |} :: cs2)
      = hashComponents (cs1 ++ {| key := k'; value := vb |} :: cs2)).
Proof.
  intros Hlen Hsum.
  assert (Hmid : forall h, fold_left described_step a h = fold_left described_step b h).
  { intros h. destruct a as [|c a'].
    - destruct b; [reflexivity|discriminate].
    - destruct b as [|d b']; [discriminate|].
      assert (Hr : forall x s, - 2 ^ 31 <= fold_left described_step (x :: s) h < 2 ^ 31).
      { intros x s. cbn [fold_left]. apply fold_described_range, described_step_range. }
      rewrite <- (wrap_int32_small _ (Hr c a')), <- (wrap_int32_small _ (Hr d b')).
      rewrite !fold_described_sum, Hlen.
      destruct (wrap_int32_residue (weighted_sum (c :: a'))) as [ka Hka].
      destruct (wrap_int32_residue (weighted_sum (d :: b'))) as [kb Hkb].
      apply (wrap_int32_congr _ _ (kb - ka)). lia. }
  assert (Hctx : forall before after,
            fold_left hash_step (before ++ a ++ after) 0
            = fold_left hash_step (before ++ b ++ after) 0).
  { intros before after. rewrite !fold_hash_described, !fold_left_app.
    f_equal. apply Hmid. }
  split.
  - rewrite !hashSDP_fold. apply Hctx.
  - intros va vb cs1 cs2 k k' Hva Hvb.
    unfold hashComponents. rewrite !stringify_array, !map_app. cbn [List.map value].
    destruct (join_context (js ",") (List.map element_text (List.map value cs1))
                (List.map element_text (List.map value cs2)))
      as (before & after & Hj).
    rewrite !Hj, Hva, Hvb. do 2 f_equal.
    pose proof (Hctx (js "[" ++ before) (after ++ js "]")) as H.
    etransitivity; [|etransitivity; [exact H|]]; f_equal;
      rewrite <- ?app_assoc; reflexivity.
Qed.

End HashFacts.

(** ** More on the store *)

Lemma record_of_other_store (p : cookie -> bool) (n : jsstring) (c : cookie) (j : jar) :
  c_name c <> n ->
  record_of n (List.filter p (store c j)) = record_of n (List.filter p j).
Proof.
  intros Hn. unfold record_of.
  assert (Hc : jsstring_eqb (c_name c) n = false).
  { destruct (jsstring_eqb (c_name c) n) eqn:E; [|reflexivity].
    now apply jsstring_eqb_eq in E. }
  assert (Hskip : forall d l, jsstring_eqb (c_name d) n = false ->
            List.find (fun c0 => jsstring_eqb (c_name c0) n) (List.filter p (d :: l))
            = List.find (fun c0 => jsstring_eqb (c_name c0) n) (List.filter p l)).
  { intros d l Hd. cbn [List.filter]. destruct (p d); [|reflexivity].
    cbn [List.find]. now rewrite Hd. }
  induction j as [|d j IH].
  - cbn [store]. now rewrite Hskip.
  - cbn [store]. destruct (jsstring_eqb (c_name d) (c_name c)) eqn:E.
    + apply jsstring_eqb_eq in E. rewrite !Hskip; [reflexivity| |exact Hc].
      now rewrite E.
    + cbn [List.filter]. destruct (p d); [|exact IH].
      cbn [List.find]. destruct (jsstring_eqb (c_name d) n); [reflexivity|exact IH].
Qed.

Section MoreStore.
Context {NH : NumberHost} {host : Type}.




(** X7. For a session and a value as in X4 (plain record name without a
    reserved prefix, numeric [cookieDays], plain value that fits into 4096
    characters with the name, expiry date between 1970 and the year 9999),
    [setCookie] touches the record under the session's name only: the record
    the store shows under any other name is the same before and after the
    call. *)
Theorem setCookie_keeps_other_records (this : @BrowserFingerprint NH host)
    (now days : Z) (j : jar) (v n' : jsstring) :
  token_name (ToString (cookieName this)) = true ->
  ToNumber (cookieDays this) = Some days ->
  plain_text v = true ->
  (length (ToString (cookieName this)) + length v <= 4096)%nat ->
  0 <= now + days * 24 * 60 * 60 * 1000 < year10000 ->
  n' <> ToString (cookieName this) ->
  record_of n' (setCookie this now j v) = record_of n' (visible now j).
Proof.
  intros Hn Hd Hv Hlen Hw Hother.
  rewrite (setCookie_writes this now days j v Hn Hd Hv Hlen Hw).
  unfold visible at 1. rewrite record_of_other_store by (cbn; congruence).
  fold (visible now (visible now j)). now rewrite visible_idem.
Qed.

End MoreStore.

(** ** Decoding the store piece by piece *)

Lemma decode_throws (s : jsstring) (e : error) :
  decodeURIComponent s = Throw e -> e = URIError.
Proof.
  unfold decodeURIComponent.
  destruct (escapes s) as [ts|]; [destruct (octets ts)|]; congruence.
Qed.

Lemma decode_piece (before x after d : jsstring) :
  (before = [] \/ exists s, before = s ++ js "; ") ->
  (after = [] \/ exists s, after = js "; " ++ s) ->
  decodeURIComponent (before ++ x ++ after) = Normal d ->
  exists dx, decodeURIComponent x = Normal dx.
Proof.
  intros Hb Ha Hd.
  assert (Hx : exists d', decodeURIComponent (x ++ after) = Normal d').
  { destruct Hb as [->|[s ->]]; [now exists d|].
    replace ((s ++ js "; ") ++ x ++ after)
      with (s ++ semicolon :: ([space] ++ (x ++ after))) in Hd
      by (rewrite <- !app_assoc; reflexivity).
    destruct (decode_semicolon _ _ _ Hd) as (_ & db & _ & Hdb & _).
    destruct (decode_plain_prefix [space] (x ++ after) db) as (dr & Hdr & _);
      [repeat constructor|exact Hdb|].
    now exists dr. }
  destruct Hx as (d' & Hd').
  destruct Ha as [->|[s ->]].
  - rewrite app_nil_r in Hd'. now exists d'.
  - change (x ++ js "; " ++ s) with (x ++ semicolon :: ([space] ++ s)) in Hd'.
    destruct (decode_semicolon _ _ _ Hd') as (da & _ & Hda & _ & _).
    now exists da.
Qed.

Section Reading.
Context {NH : NumberHost} {host : Type}.

(** X8. One shown record whose text is not a valid percent-encoding (a
    lone percent sign, say), under whatever name and written by whatever
    script, makes [getCookie()] throw a [URIError]; [get()] is then rejected
    with it, calls no collector and leaves the store as it is. *)
Theorem malformed_record_rejects_get (this : @BrowserFingerprint NH host)
    (m : @moment host) (j : jar) (r : cookie) :
  In r (visible (clock m) j) ->
  decodeURIComponent (render r) = Throw URIError ->
  getCookie this (clock m) j = Throw URIError /\
  get this m j = {| promised := Rejected URIError; stored := j; launched := O |}.
Proof.
  intros Hin Hbad.
  assert (Hread : getCookie this (clock m) j = Throw URIError).
  { rewrite getCookie_text.
    apply in_split in Hin as (j1 & j2 & Hj). rewrite Hj, map_app. cbn [List.map].
    destruct (join_middle (js "; ") (render r) (List.map render j1) (List.map render j2))
      as (before & after & -> & Hb & Ha).
    destruct (decodeURIComponent (before ++ render r ++ after)) as [d|e] eqn:Ed.
    - destruct (decode_piece _ _ _ _ Hb Ha Ed) as (dx & Hdx). congruence.
    - now rewrite (decode_throws _ _ Ed). }
  split; [exact Hread|].
  unfold get, verifyApiKey. now rewrite Hread.
Qed.

(** X9. On a store whose shown records have names and values made of
    plain characters, [getCookie()] returns the value of the first record
    whose name is exactly the session's record name, and [null] when there
    is none: a record whose name only begins or ends with that name is not
    taken for it. *)
Theorem getCookie_reads_exact_name (this : @BrowserFingerprint NH host)
    (now : Z) (j : jar) :
  plain_text (ToString (cookieName this)) = true ->
  ToString (cookieName this) <> [] ->
  Forall (fun c => plain_record c = true) (visible now j) ->
  getCookie this now j
  = Normal (option_map c_value
              (record_of (ToString (cookieName this)) (visible now j))).
Proof. apply getCookie_plain. Qed.

End Reading.

(** ** More on [get()] and [Fingerprint.load] *)

Section Pipeline.
Context {NH : NumberHost} {host : Type}.

Lemma fold_addComponent (cs : list Collector) (bf : @BrowserFingerprint NH host) :
  fold_left addComponent cs bf
  = {| options := options bf; apiKey := apiKey bf; cookieName := cookieName bf;
       cookieDays := cookieDays bf; components := components bf ++ cs |}.
Proof.
  revert bf. induction cs as [|c cs IH]; intros bf.
  - cbn. rewrite app_nil_r. now destruct bf.
  - cbn [fold_left]. rewrite IH. cbn. now rewrite <- app_assoc.
Qed.

(** X3. The identifier [get()] computes on a miss depends on the values
    of the components under stable keys only: two sessions, whatever their
    collectors, stores and settling orders, resolve with the same
    [visitorId] when the stable components they collect carry the same
    values in the same order. *)
Theorem visitorId_ignores_unstable_signals
    (this this' : @BrowserFingerprint NH host) (m m' : @moment host) (j j' : jar)
    (rs rs' : list SignalResult) :
  getCookie this (clock m) j = Normal None ->
  getCookie this' (clock m') j' = Normal None ->
  Forall2 (reports (ambient m)) (components this) rs ->
  Forall2 (reports (ambient m')) (components this') rs' ->
  Permutation (schedule m) (seq 0 (length (components this))) ->
  Permutation (schedule m') (seq 0 (length (components this'))) ->
  List.map value (stable rs) = List.map value (stable rs') ->
  exists res res',
    promised (get this m j) = Fulfilled res /\
    promised (get this' m' j') = Fulfilled res' /\
    visitorId res = visitorId res'.
Proof.
  intros Hr Hr' Hrs Hrs' Hp Hp' Hsame.
  rewrite (get_miss this m j None rs Hr eq_refl Hrs Hp).
  rewrite (get_miss this' m' j' None rs' Hr' eq_refl Hrs' Hp').
  do 2 eexists. split; [reflexivity|]. split; [reflexivity|].
  cbn. unfold identifier. now rewrite Hsame.
Qed.

(** X11. No timeout: on a miss, when every collector hands over a result
    but the promise of one of them is never settled, the promise of [get()]
    is never settled either, after every collector was called, and the
    store is not written. *)
Theorem unsettled_collector_leaves_get_pending (this : @BrowserFingerprint NH host)
    (m : @moment host) (j : jar) (cached : option jsstring)
    (rs : list SignalResult) (k : nat) :
  getCookie this (clock m) j = Normal cached ->
  truthy cached = false ->
  Forall2 (reports (ambient m)) (components this) rs ->
  NoDup (schedule m) ->
  (forall i, i ∈ schedule m -> (i < length (components this))%nat) ->
  (k < length (components this))%nat -> k ∉ schedule m ->
  get this m j
  = {| promised := Pending; stored := j; launched := length (components this) |}.
Proof.
  intros Hread Hfalsy Hrs Hnd Hin Hk Hout. unfold get, verifyApiKey.
  rewrite Hread, Hfalsy. cbn [negb].
  rewrite (launch_reports _ _ _ Hrs).
  pose proof (Forall2_length _ _ _ Hrs) as Hlen.
  set (ps := List.map Fulfils rs).
  assert (Hps : length ps = length (components this))
    by (unfold ps; now rewrite length_map).
  assert (Hful : forall i, (i < length ps)%nat -> fulfils ps i).
  { intros i Hi. unfold fulfils, ps in *. rewrite length_map in Hi.
    destruct (lookup_lt_is_Some_2 rs i Hi) as [r Hr]. exists r.
    change (List.map Fulfils rs) with (Fulfils <$> rs).
    now rewrite list_lookup_fmap, Hr. }
  assert (Hall : Forall (fulfils ps) (schedule m)).
  { apply Forall_forall. intros i Hi. apply Hful. rewrite Hps. now apply Hin. }
  destruct (fulfilled_prefix ps (schedule m) Hnd Hall) as (_ & _ & _ & Hagg).
  unfold Promise_all. rewrite Hagg.
  assert (Hshort : (length (k :: schedule m) <= length ps)%nat).
  { apply distinct_indices_bound.
    - apply NoDup_cons. now split.
    - constructor; [now rewrite Hps|].
      apply Forall_forall. intros i Hi. rewrite Hps. now apply Hin. }
  cbn [length] in Hshort.
  replace (length (schedule m) <? length ps)%nat with true
    by (symmetry; apply Nat.ltb_lt; lia).
  reflexivity.
Qed.

Lemma launch_stops (h : host) (cs1 cs2 : list (@Collector NH host)) (c : Collector)
    (e : error) :
  Forall (fun c' => forall e', collect c' h <> Throws e') cs1 ->
  collect c h = Throws e ->
  launch h (cs1 ++ c :: cs2) = (Throw e, S (length cs1)).
Proof.
  intros Hcs1 Hc. induction Hcs1 as [|c' cs1 Hc' _ IH].
  - cbn. now rewrite Hc.
  - cbn [app launch length]. rewrite IH.
    destruct (collect c' h) as [r|e'|r|e']; try reflexivity.
    now destruct (Hc' e').
Qed.

(** X12. A collector that throws ends the collection phase: on a miss
    [get()] is rejected with the error of the first collector that throws,
    the collectors registered after it are never called, and the store is
    not written. *)
Theorem throwing_collector_stops_collection (this : @BrowserFingerprint NH host)
    (m : @moment host) (j : jar) (cached : option jsstring)
    (cs1 cs2 : list Collector) (c : Collector) (e : error) :
  getCookie this (clock m) j = Normal cached ->
  truthy cached = false ->
  components this = cs1 ++ c :: cs2 ->
  Forall (fun c' => forall e', collect c' (ambient m) <> Throws e') cs1 ->
  collect c (ambient m) = Throws e ->
  get this m j
  = {| promised := Rejected e; stored := j; launched := S (length cs1) |}.
Proof.
  intros Hread Hfalsy Hcs Hcs1 Hc. unfold get, verifyApiKey.
  rewrite Hread, Hfalsy. cbn [negb].
  now rewrite Hcs, (launch_stops _ cs1 cs2 c e Hcs1 Hc).
Qed.

(** X13. [get()] writes the store only when it resolves with a freshly
    computed identifier, and then through the one call of [setCookie] with
    that identifier; a hit, a rejection and a pending result leave the store
    as it was.  It never calls more collectors than are registered, none on
    a hit, and none when reading the store throws. *)
Theorem get_writes_only_a_fresh_identifier (this : @BrowserFingerprint NH host)
    (m : @moment host) (j : jar) :
  (launched (get this m j) <= length (components this))%nat /\
  (stored (get this m j) = j \/
   exists res,
     promised (get this m j) = Fulfilled res /\ fromCookie res = None /\
     stored (get this m j) = setCookie this (clock_after m) j (visitorId res)) /\
  (forall res, promised (get this m j) = Fulfilled res ->
               fromCookie res = Some true ->
               stored (get this m j) = j /\ launched (get this m j) = O) /\
  (forall e, getCookie this (clock m) j = Throw e ->
             get this m j = {| promised := Rejected e; stored := j; launched := O |}).
Proof.
  pose proof (launch_count (ambient m) (components this)) as Hcount.
  unfold get, verifyApiKey.
  destruct (getCookie this (clock m) j) as [cached|e0] eqn:Hread.
  2:{ cbn. split; [lia|]. split; [now left|].
      split; [intros res H; discriminate H|now intros e [= ->]]. }
  assert (Hquiet : forall (p : promise Result) (n : nat),
            (n <= length (components this))%nat ->
            (forall res, p = Fulfilled res -> fromCookie res = Some true -> n = O) ->
            (forall res, p = Fulfilled res -> fromCookie res = None -> False) ->
            let run := {| promised := p; stored := j; launched := n |} in
            (launched run <= length (components this))%nat /\
            (stored run = j \/
             exists res,
               promised run = Fulfilled res /\ fromCookie res = None /\
               stored run = setCookie this (clock_after m) j (visitorId res)) /\
            (forall res, promised run = Fulfilled res ->
                         fromCookie res = Some true ->
                         stored run = j /\ launched run = O) /\
            (forall e, Normal cached = Throw e ->
                       run = {| promised := Rejected e; stored := j; launched := O |})).
  { intros p n Hn Hhit Hfresh. cbn. split; [exact Hn|]. split; [now left|].
    split; [|intros e H; discriminate H].
    intros res Hp Hc. split; [reflexivity|exact (Hhit res Hp Hc)]. }
  destruct (truthy cached); cbn [negb].
  { apply Hquiet; [lia|reflexivity|]. intros res [= <-]. discriminate. }
  destruct (launch (ambient m) (components this)) as [[ps|e] n]; cbn [snd] in Hcount.
  2:{ apply Hquiet; [exact Hcount|intros res H; discriminate H..]. }
  destruct (Promise_all ps (schedule m)) as [slots|e|].
  2,3: apply Hquiet; [exact Hcount|intros res H; discriminate H..].
  destruct (elements slots) as [rs|e].
  2:{ apply Hquiet; [exact Hcount|intros res H; discriminate H..]. }
  destruct (hashComponents (stable rs)) as [id|e].
  2:{ apply Hquiet; [exact Hcount|intros res H; discriminate H..]. }
  cbn. split; [exact Hcount|]. split.
  - right. eexists. repeat split.
  - split; [|intros e H; discriminate H].
    intros res [= <-]. discriminate.
Qed.

End Pipeline.

(** ** [promiseUtils.retry] *)

Section RetryFacts.
Context {A : Type}.

Lemma attempt_rejections (fn : nat -> attempt_end A) (delay : Z) (k : nat) :
  forall (fuel i : nat) (retries : Z) (ts : list Z),
    (forall n, (i <= n < i + k)%nat -> exists err, fn n = Reject err) ->
    (k <= Z.to_nat retries)%nat -> (Z.to_nat retries <= fuel)%nat ->
    attempt fuel fn delay i retries ts
    = attempt (fuel - k) fn delay (i + k) (retries - Z.of_nat k)
        (repeat delay k ++ ts).
Proof.
  induction k as [|k IH]; intros fuel i retries ts Hrej Hk Hfuel.
  - rewrite Nat.sub_0_r, Nat.add_0_r, Z.sub_0_r. reflexivity.
  - destruct fuel as [|fuel]; [lia|].
    destruct (Hrej i ltac:(lia)) as [err Herr].
    cbn [attempt]. rewrite Herr.
    replace (0 <? retries) with true by (symmetry; apply Z.ltb_lt; lia).
    rewrite IH; [| |lia|lia].
    + replace (S fuel - S k)%nat with (fuel - k)%nat by lia.
      replace (S i + k)%nat with (i + S k)%nat by lia.
      replace (retries - 1 - Z.of_nat k) with (retries - Z.of_nat (S k)) by lia.
      f_equal. change (delay :: ts) with ([delay] ++ ts).
      rewrite app_assoc. f_equal.
      change (repeat delay (S k)) with (delay :: repeat delay k).
      now rewrite repeat_cons.
    + intros n Hn. apply Hrej. lia.
Qed.

(** X14. [retry] resolves with the first success: when the first [k]
    calls of [fn] are rejected and call [k] is fulfilled with [v], with [k]
    at most [retries], the promise is fulfilled with [v] after [k + 1]
    calls and [k] timers of [delay] milliseconds. *)
Theorem retry_resolves_with_first_success (fn : nat -> attempt_end A)
    (retries delay : option Z) (k : nat) (v : A) :
  (forall n, (n < k)%nat -> exists err, fn n = Reject err) ->
  fn k = Fulfil v ->
  (k <= granted retries)%nat ->
  retry fn retries delay
  = {| settled := Fulfilled v; calls := S k; timers := repeat (pause delay) k |}.
Proof.
  intros Hrej Hok Hk. unfold retry, granted, pause in *.
  set (r := match retries with Some r => r | None => 3 end) in *.
  rewrite (attempt_rejections fn _ k); [| |lia|lia].
  - cbn [Nat.add]. destruct (Z.to_nat r - k)%nat; cbn [attempt]; rewrite Hok;
      now rewrite app_nil_r.
  - intros n Hn. apply Hrej. lia.
Qed.

(** X15. [retry] gives up with the last error: when the first
    [retries + 1] calls of [fn] are all rejected, the promise is rejected
    with the error of the last of them, after exactly [retries + 1] calls;
    with [retries] zero or negative that is the first call. *)
Theorem retry_rejects_with_last_error (fn : nat -> attempt_end A)
    (retries delay : option Z) (last : error) :
  (forall n, (n < granted retries)%nat -> exists err, fn n = Reject err) ->
  fn (granted retries) = Reject last ->
  retry fn retries delay
  = {| settled := Rejected last; calls := S (granted retries);
       timers := repeat (pause delay) (granted retries) |}.
Proof.
  intros Hrej Hlast. unfold retry, granted, pause in *.
  set (r := match retries with Some r => r | None => 3 end) in *.
  rewrite (attempt_rejections fn _ (Z.to_nat r)); [| |lia|lia].
  - cbn [Nat.add]. rewrite Nat.sub_diag. cbn [attempt]. rewrite Hlast.
    replace (0 <? r - Z.of_nat (Z.to_nat r)) with false
      by (symmetry; apply Z.ltb_ge; lia).
    now rewrite app_nil_r.
  - intros n Hn. apply Hrej. lia.
Qed.


(** X16. An exception of [fn] is not retried: on the first call it
    rejects the promise at once, whatever [retries] is; on a later call,
    which runs from a timer, it is lost and the promise of [retry] is never
    settled. *)
Theorem retry_exception_is_lost (fn : nat -> attempt_end A)
    (retries delay : option Z) (k : nat) (e : error) :
  (forall n, (n < k)%nat -> exists err, fn n = Reject err) ->
  fn k = Raise e ->
  (k <= granted retries)%nat ->
  retry fn retries delay
  = {| settled := match k with O => Rejected e | S _ => Pending end;
       calls := S k; timers := repeat (pause delay) k |}.
Proof.
  intros Hrej Hok Hk. unfold retry, granted, pause in *.
  set (r := match retries with Some r => r | None => 3 end) in *.
  rewrite (attempt_rejections fn _ k); [| |lia|lia].
  - cbn [Nat.add]. destruct (Z.to_nat r - k)%nat; cbn [attempt]; rewrite Hok;
      now rewrite app_nil_r.
  - intros n Hn. apply Hrej. lia.
Qed.


End RetryFacts.

(** ** [utils.assign] and [utils.exclude] *)

Section UtilsFacts.
Context {V : Type} (kind_of : V -> kind).

Lemma get_own_update (key k : jsstring) (v : V) (props : list (jsstring * V)) :
  get_own (update key v props) k
  = match get_own props key with
    | Some _ => if jsstring_eqb key k then Some v else get_own props k
    | None => get_own props k
    end.
Proof.
  induction props as [|[k0 w] rest IH]; [reflexivity|].
  cbn [update get_own]. destruct (jsstring_eqb k0 key) eqn:E.
  - apply jsstring_eqb_eq in E. subst k0. cbn [get_own].
    now destruct (jsstring_eqb key k).
  - cbn [get_own]. rewrite IH. destruct (jsstring_eqb k0 k) eqn:E'; [|reflexivity].
    apply jsstring_eqb_eq in E'. subst k0.
    destruct (get_own rest key); [|reflexivity].
    destruct (jsstring_eqb key k) eqn:E2; [|reflexivity].
    apply jsstring_eqb_eq in E2. subst. now rewrite jsstring_eqb_refl in E.
Qed.

Lemma get_own_create_index (i : Z) (key k : jsstring) (v : V)
    (props : list (jsstring * V)) :
  get_own props key = None ->
  get_own (create_index i key v props) k
  = if jsstring_eqb key k then Some v else get_own props k.
Proof.
  induction props as [|[k0 w] rest IH]; intros Hnone; [reflexivity|].
  cbn [get_own] in Hnone. destruct (jsstring_eqb k0 key) eqn:E; [discriminate|].
  cbn [create_index].
  assert (Hhead : get_own ((key, v) :: (k0, w) :: rest) k
                  = if jsstring_eqb key k then Some v else get_own ((k0, w) :: rest) k)
    by reflexivity.
  destruct (array_index k0) as [i'|]; [|exact Hhead].
  destruct (i' <? i); [|exact Hhead].
  cbn [get_own]. rewrite (IH Hnone).
  destruct (jsstring_eqb k0 k) eqn:E'; [|reflexivity].
  apply jsstring_eqb_eq in E'. subst k0.
  destruct (jsstring_eqb key k) eqn:E2; [|reflexivity].
  apply jsstring_eqb_eq in E2. subst. now rewrite jsstring_eqb_refl in E.
Qed.

Lemma get_own_app (l1 l2 : list (jsstring * V)) (k : jsstring) :
  get_own (l1 ++ l2) k
  = match get_own l1 k with Some v => Some v | None => get_own l2 k end.
Proof.
  induction l1 as [|[k0 w] l1 IH]; [reflexivity|].
  cbn [app get_own]. now destruct (jsstring_eqb k0 k).
Qed.

Lemma get_own_create (key k : jsstring) (v : V) (props : list (jsstring * V)) :
  get_own props key = None ->
  get_own (create key v props) k
  = if jsstring_eqb key k then Some v else get_own props k.
Proof.
  intros Hnone. unfold create. destruct (array_index key) as [i|].
  - now apply get_own_create_index.
  - rewrite get_own_app. cbn [get_own].
    destruct (get_own props k) eqn:E; [|reflexivity].
    destruct (jsstring_eqb key k) eqn:E2; [|reflexivity].
    apply jsstring_eqb_eq in E2. subst. congruence.
Qed.

(** What an assignment does to an object whose prototype is known. *)
Lemma put_known (target : object V) (key : jsstring) (v : V) :
  (forall p, prototype target <> Foreign p) ->
  (jsstring_eqb key (js "__proto__") = true -> prototype target = ObjectPrototype ->
   get_own (own target) key = None -> kind_of v <> AnObject) ->
  exists target',
    put kind_of target key v = Some target' /\
    (forall p, prototype target' <> Foreign p) /\
    (forall k, get_own (own target') k
               = if jsstring_eqb key k then
                   (if jsstring_eqb key (js "__proto__") then
                      match get_own (own target) key, prototype target with
                      | None, ObjectPrototype => None
                      | _, _ => Some v
                      end
                    else Some v)
                 else get_own (own target) k) /\
    prototype target'
    = (if jsstring_eqb key (js "__proto__") then
         match get_own (own target) key, prototype target, kind_of v with
         | None, ObjectPrototype, ANull => NoPrototype
         | _, _, _ => prototype target
         end
       else prototype target).
Proof.
  intros Hknown Hproto. unfold put.
  destruct (get_own (own target) key) as [w|] eqn:Hown.
  - eexists. split; [reflexivity|]. cbn [own prototype]. split; [exact Hknown|]. split.
    + intros k. rewrite get_own_update, Hown.
      destruct (jsstring_eqb key k); [|reflexivity].
      now destruct (jsstring_eqb key (js "__proto__")).
    + now destruct (jsstring_eqb key (js "__proto__")).
  - destruct (prototype target) as [| |p] eqn:Hp.
    + destruct (jsstring_eqb key (js "__proto__")) eqn:E.
      * specialize (Hproto eq_refl eq_refl eq_refl).
        assert (Hk : forall k, jsstring_eqb key k = true -> get_own (own target) k = None).
        { intros k Hk. apply jsstring_eqb_eq in Hk. now subst. }
        destruct (kind_of v) eqn:Ek; [contradiction| |].
        -- eexists. split; [reflexivity|]. cbn [own prototype]. split; [discriminate|]. split; [|reflexivity].
           intros k. destruct (jsstring_eqb key k) eqn:E'; [now apply Hk|reflexivity].
        -- exists target. split; [reflexivity|]. rewrite Hp. split; [discriminate|].
           split; [|reflexivity].
           intros k. destruct (jsstring_eqb key k) eqn:E'; [now apply Hk|reflexivity].
      * eexists. split; [reflexivity|]. cbn [own prototype]. split; [discriminate|]. split; [|reflexivity].
        intros k. now rewrite get_own_create.
    + eexists. split; [reflexivity|]. cbn [own prototype]. split; [discriminate|]. split.
      * intros k. rewrite get_own_create by exact Hown.
        destruct (jsstring_eqb key k); [|reflexivity].
        now destruct (jsstring_eqb key (js "__proto__")).
      * now destruct (jsstring_eqb key (js "__proto__")).
    + now destruct (Hknown p).
Qed.

Lemma get_own_fresh (key : jsstring) (props : list (jsstring * V)) :
  ~ In key (List.map fst props) -> get_own props key = None.
Proof.
  induction props as [|[k0 w] rest IH]; intros Hnot; [reflexivity|].
  cbn [get_own]. destruct (jsstring_eqb k0 key) eqn:E.
  - apply jsstring_eqb_eq in E. subst. destruct Hnot. now left.
  - apply IH. intros Hin. apply Hnot. now right.
Qed.

Lemma array_indexOf_listed (array : list jsval) (key : jsstring) :
  (array_indexOf array key <? 0) = false <-> listed array key.
Proof.
  unfold array_indexOf, listed.
  assert (H : forall i, 0 <= i ->
            (array_indexOf_from i array key = -1 /\ ~ In (VString key) array) \/
            (i <= array_indexOf_from i array key /\ In (VString key) array)).
  { induction array as [|x array IH]; intros i Hi; [left; split; [reflexivity|intros []]|].
    assert (Hskip : x <> VString key ->
              (array_indexOf_from (i + 1) array key = -1 /\ ~ In (VString key) (x :: array)) \/
              (i <= array_indexOf_from (i + 1) array key /\ In (VString key) (x :: array))).
    { intros Hx. destruct (IH (i + 1) ltac:(lia)) as [[H1 H2]|[H1 H2]].
      - left. split; [exact H1|]. intros [Hin|Hin]; [now apply Hx|now apply H2].
      - right. split; [lia|now right]. }
    destruct x as [| |b|n| |s]; cbn [array_indexOf_from]; try (apply Hskip; discriminate).
    destruct (jsstring_eqb s key) eqn:E.
    - apply jsstring_eqb_eq in E. subst. right. split; [lia|now left].
    - apply Hskip. intros [= ->]. now rewrite jsstring_eqb_refl in E. }
  destruct (H 0 ltac:(lia)) as [[H1 H2]|[H1 H2]].
  - rewrite H1. split; [discriminate|intros Hin; now destruct H2].
  - split; [intros _; exact H2|intros _; apply Z.ltb_ge; lia].
Qed.

Lemma exclude_loop_spec (excludeKeys : list jsval) (props : list (jsstring * V)) :
  forall result : object V,
    NoDup (List.map fst props) ->
    (forall v, get_own props (js "__proto__") = Some v -> kind_of v <> AnObject) ->
    (forall p, prototype result <> Foreign p) ->
    get_own (own result) (js "__proto__") = None ->
    (prototype result = ObjectPrototype \/ get_own props (js "__proto__") = None) ->
    exists r,
      exclude_loop kind_of props excludeKeys result = Some r /\
      (forall p, prototype r <> Foreign p) /\
      (get_own props (js "__proto__") = None -> prototype r = prototype result) /\
      (forall k, get_own (own r) k
         = if jsstring_eqb k (js "__proto__") then None
           else match (if array_indexOf excludeKeys k <? 0 then get_own props k
                       else None) with
                | Some v => Some v
                | None => get_own (own result) k
                end).
Proof.
  induction props as [|[key v] rest IH]; intros result Hnd Hkind Hknown Hnone Hproto.
  - exists result. split; [reflexivity|]. split; [exact Hknown|].
    split; [reflexivity|].
    intros k. cbn [get_own].
    destruct (jsstring_eqb k (js "__proto__")) eqn:E.
    + apply jsstring_eqb_eq in E. now subst.
    + now destruct (array_indexOf excludeKeys k <? 0).
  - cbn [List.map fst] in Hnd. apply NoDup_cons in Hnd as [Hfresh Hnd].
    assert (Hrest : get_own rest key = None).
    { apply get_own_fresh. intros Hin. apply Hfresh. now apply list_elem_of_In. }
    assert (Hkind' : forall w, get_own rest (js "__proto__") = Some w ->
                               kind_of w <> AnObject).
    { intros w Hw. apply Hkind. cbn [get_own].
      destruct (jsstring_eqb key (js "__proto__")) eqn:E; [|exact Hw].
      apply jsstring_eqb_eq in E. subst. congruence. }
    cbn [exclude_loop].
    destruct (array_indexOf excludeKeys key <? 0) eqn:Hex.
    + destruct (put_known result key v Hknown) as (t & Hset & Hknown' & Hget & Hp).
      { intros E _ _. apply Hkind. cbn [get_own]. now rewrite E. }
      rewrite Hset.
      assert (Hnone' : get_own (own t) (js "__proto__") = None).
      { rewrite Hget. destruct (jsstring_eqb key (js "__proto__")) eqn:E; [|exact Hnone].
        apply jsstring_eqb_eq in E. subst key. rewrite Hnone.
        destruct Hproto as [->|Hp0]; [reflexivity|].
        cbn [get_own] in Hp0. rewrite jsstring_eqb_refl in Hp0. discriminate. }
      assert (Hproto' : prototype t = ObjectPrototype \/
                        get_own rest (js "__proto__") = None).
      { destruct (jsstring_eqb key (js "__proto__")) eqn:E.
        - right. apply jsstring_eqb_eq in E. now subst.
        - rewrite Hp. destruct Hproto as [->|Hp0]; [now left|right].
          cbn [get_own] in Hp0. now rewrite E in Hp0. }
      destruct (IH t Hnd Hkind' Hknown' Hnone' Hproto') as (r & Hloop & Hr & Hpr & Hlook).
      exists r. split; [exact Hloop|]. split; [exact Hr|].
      split.
      { cbn [get_own]. intros Hno.
        destruct (jsstring_eqb key (js "__proto__")); [discriminate|].
        now rewrite (Hpr Hno), Hp. }
      intros k. rewrite Hlook. cbn [get_own].
      destruct (jsstring_eqb k (js "__proto__")) eqn:Ek; [reflexivity|].
      rewrite Hget. destruct (jsstring_eqb key k) eqn:E.
      * apply jsstring_eqb_eq in E. subst k. rewrite Hex, Hrest, Ek. reflexivity.
      * reflexivity.
    + assert (Hproto' : prototype result = ObjectPrototype \/
                        get_own rest (js "__proto__") = None).
      { destruct Hproto as [->|Hp0]; [now left|right].
        cbn [get_own] in Hp0. now destruct (jsstring_eqb key (js "__proto__")). }
      destruct (IH result Hnd Hkind' Hknown Hnone Hproto') as (r & Hloop & Hr & Hpr & Hlook).
      exists r. split; [exact Hloop|]. split; [exact Hr|].
      split.
      { cbn [get_own]. intros Hno. apply Hpr.
        now destruct (jsstring_eqb key (js "__proto__")). }
      intros k. rewrite Hlook. cbn [get_own].
      destruct (jsstring_eqb k (js "__proto__")) eqn:Ek; [reflexivity|].
      destruct (jsstring_eqb key k) eqn:E; [|reflexivity].
      apply jsstring_eqb_eq in E. subst k. now rewrite Hex.
Qed.

(** X18. [exclude] copies the own properties of [obj] whose key is not a
    string of [excludeKeys], with their values: a listed key is absent from
    the result, every other key but [__proto__] reads as in [obj], and
    nothing else is there.  An own property [__proto__] of [obj] (here one
    whose value is not an object) is never copied.  Only a string of
    [excludeKeys] excludes a key, a Number does not. *)
Theorem exclude_drops_listed_keys (obj : object V) (excludeKeys : list jsval) :
  distinct_keys obj ->
  (forall v, get_own (own obj) (js "__proto__") = Some v -> kind_of v <> AnObject) ->
  exists result,
    exclude kind_of obj excludeKeys = Some result /\
    (forall k, listed excludeKeys k -> get_own (own result) k = None) /\
    (forall k, ~ listed excludeKeys k -> k <> js "__proto__" ->
               get_own (own result) k = get_own (own obj) k) /\
    get_own (own result) (js "__proto__") = None /\
    (forall k v, get_own (own result) k = Some v -> get_own (own obj) k = Some v) /\
    (get_own (own obj) (js "__proto__") = None -> prototype result = ObjectPrototype).
Proof.
  intros Hnd Hkind. unfold exclude.
  destruct (exclude_loop_spec excludeKeys (own obj) empty_object Hnd Hkind)
    as (r & Hloop & _ & Hpr & Hlook); [discriminate|reflexivity|now left|].
  exists r. split; [exact Hloop|].
  assert (Hform : forall k, get_own (own r) k
            = if jsstring_eqb k (js "__proto__") then None
              else if array_indexOf excludeKeys k <? 0 then get_own (own obj) k
                   else None).
  { intros k. rewrite Hlook. destruct (jsstring_eqb k (js "__proto__")); [reflexivity|].
    destruct (array_indexOf excludeKeys k <? 0); [|reflexivity].
    now destruct (get_own (own obj) k). }
  split; [|split; [|split; [|split]]]; [| | | |exact Hpr].
  - intros k Hk. rewrite Hform. apply array_indexOf_listed in Hk. rewrite Hk.
    now destruct (jsstring_eqb k (js "__proto__")).
  - intros k Hk Hp. rewrite Hform.
    destruct (jsstring_eqb k (js "__proto__")) eqn:E;
      [apply jsstring_eqb_eq in E; contradiction|].
    destruct (array_indexOf excludeKeys k <? 0) eqn:Hex; [reflexivity|].
    apply array_indexOf_listed in Hex. contradiction.
  - rewrite Hform. now rewrite jsstring_eqb_refl.
  - intros k v. rewrite Hform. destruct (jsstring_eqb k (js "__proto__")); [discriminate|].
    now destruct (array_indexOf excludeKeys k <? 0).
Qed.

Lemma assign_source_spec (props : list (jsstring * V)) :
  forall target : object V,
    NoDup (List.map fst props) ->
    get_own props (js "__proto__") = None ->
    (forall p, prototype target <> Foreign p) ->
    exists t,
      assign_source kind_of props target = Some t /\
      prototype t = prototype target /\
      (forall k, get_own (own t) k
         = match get_own props k with
           | Some v => Some v
           | None => get_own (own target) k
           end).
Proof.
  induction props as [|[key v] rest IH]; intros target Hnd Hnone Hknown.
  - exists target. repeat split.
  - cbn [List.map fst] in Hnd. apply NoDup_cons in Hnd as [Hfresh Hnd].
    assert (Hrest : get_own rest key = None).
    { apply get_own_fresh. intros Hin. apply Hfresh. now apply list_elem_of_In. }
    cbn [get_own] in Hnone.
    destruct (jsstring_eqb key (js "__proto__")) eqn:Ekey; [discriminate|].
    destruct (put_known target key v Hknown) as (t1 & Hset & Hknown1 & Hget & Hp).
    { intros E. congruence. }
    rewrite Ekey in Hp, Hget.
    cbn [assign_source]. rewrite Hset.
    destruct (IH t1 Hnd Hnone Hknown1) as (t & Hloop & Hpt & Hlook).
    exists t. split; [exact Hloop|]. split; [now rewrite Hpt, Hp|].
    intros k. rewrite Hlook, Hget. cbn [get_own].
    destruct (jsstring_eqb key k) eqn:E; [|reflexivity].
    apply jsstring_eqb_eq in E. subst k. now rewrite Hrest.
Qed.

(** X19. [assign] gives every key the value of the last source that has
    it and leaves the other properties of the target as they are; [null]
    and [undefined] sources are skipped; the prototype of the target is
    kept.  The sources have no own property [__proto__], and the prototype
    of the target is [Object.prototype] or none. *)
Theorem assign_later_sources_win (target : object V)
    (sources : list (option (object V))) :
  (forall p, prototype target <> Foreign p) ->
  Forall (fun s => match s with
                   | Some o => distinct_keys o /\
                               get_own (own o) (js "__proto__") = None
                   | None => True
                   end) sources ->
  exists t,
    assign kind_of target sources = Some t /\
    prototype t = prototype target /\
    (forall k, get_own (own t) k
       = match supplied sources k with
         | Some v => Some v
         | None => get_own (own target) k
         end).
Proof.
  intros Hknown Hs. revert target Hknown.
  induction Hs as [|s sources Hs _ IH]; intros target Hknown.
  - exists target. repeat split.
  - destruct s as [o|]; cbn [assign supplied].
    + destruct Hs as [Hnd Hnone].
      destruct (assign_source_spec (own o) target Hnd Hnone Hknown)
        as (t1 & Hloop & Hp1 & Hlook1).
      rewrite Hloop.
      destruct (IH t1 ltac:(now rewrite Hp1)) as (t & Hassign & Hp & Hlook).
      exists t. split; [exact Hassign|]. split; [now rewrite Hp, Hp1|].
      intros k. rewrite Hlook, Hlook1. now destruct (supplied sources k).
    + destruct (IH target Hknown) as (t & Hassign & Hp & Hlook).
      exists t. split; [exact Hassign|]. split; [exact Hp|].
      intros k. rewrite Hlook. now destruct (supplied sources k).
Qed.

End UtilsFacts.

(** ** The collectors *)

Section CollectorFacts.
Context {NH : NumberHost}.

Lemma load_components {host : Type} (builtin : list (@Collector NH host))
    (options : Options) (bf : BrowserFingerprint) :
  load builtin options = Fulfilled bf -> components bf = builtin.
Proof.
  unfold load, constructor. destruct (negb _); [discriminate|].
  intros [= <-]. now rewrite fold_addComponent.
Qed.

(** X20. In a browser whose canvas has no 2D context, [CanvasFingerprint]
    throws a [TypeError], against the contract of a collector; on a miss,
    [get()] on the session [Fingerprint.load] builds is then rejected with
    that error after eight collectors were called: the fifteen registered
    after the canvas collector are never called. *)
Theorem missing_canvas_context_rejects_get (rest : list (@Collector NH Browser))
    (options : Options) (bf : BrowserFingerprint) (m : @moment Browser) (j : jar)
    (cached : option jsstring) :
  load (builtin_head ++ rest) options = Fulfilled bf ->
  canvas_2d (ambient m) = None ->
  getCookie bf (clock m) j = Normal cached -> truthy cached = false ->
  collect CanvasFingerprint (ambient m) = Throws TypeError /\
  get bf m j = {| promised := Rejected TypeError; stored := j; launched := 8 |}.
Proof.
  intros Hload Hcanvas Hread Hfalsy.
  split; [cbn; now rewrite Hcanvas|].
  unfold get, verifyApiKey. rewrite Hread, Hfalsy. cbn [negb].
  rewrite (load_components _ _ _ Hload).
  unfold builtin_head. cbn [app launch collect components_userAgent
    components_webdriver components_language components_colorDepth
    components_deviceMemory components_pixelRatio components_hardwareConcurrency
    CanvasFingerprint].
  rewrite Hcanvas. reflexivity.
Qed.

(** X10. The session [Fingerprint.load] builds starts with the seven
    classes of [components] and [CanvasFingerprint], in this order.  In a
    browser whose canvas has a 2D context, when the collectors registered
    after them keep their contract, a miss of [get()] on that session calls
    every collector and resolves with a list that starts with what these
    eight read of the browser: [navigator.userAgent], whether
    [navigator.webdriver] is [true], [navigator.language],
    [screen.colorDepth], [navigator.deviceMemory],
    [window.devicePixelRatio], [navigator.hardwareConcurrency] (the two
    optional ones [undefined] where the browser lacks them) and the data URL
    of the canvas.  Of these eight, all but [webdriver] enter the identifier,
    in this order, before the stable results of the later collectors. *)
Theorem loaded_session_reads_the_browser (rest : list (@Collector NH Browser))
    (options : Options) (bf : BrowserFingerprint) (m : @moment Browser) (j : jar)
    (url : jsstring) (rs : list SignalResult) :
  load (builtin_head ++ rest) options = Fulfilled bf ->
  canvas_2d (ambient m) = Some url ->
  getCookie bf (clock m) j = Normal None ->
  Forall2 (reports (ambient m)) rest rs ->
  Permutation (schedule m) (seq 0 (8 + length rest)) ->
  promised (get bf m j)
  = Fulfilled {| visitorId := described_identifier (head_results (ambient m) url ++ rs);
                 fromCookie := None;
                 r_components := Some (head_results (ambient m) url ++ rs) |} /\
  launched (get bf m j) = (8 + length rest)%nat /\
  stable_subset (head_results (ambient m) url ++ rs)
  = [{| key := js "userAgent"; value := JStr (navigator_userAgent (ambient m)) |};
     {| key := js "language"; value := JStr (navigator_language (ambient m)) |};
     {| key := js "colorDepth"; value := JNum (screen_colorDepth (ambient m)) |};
     {| key := js "deviceMemory";
        value := match navigator_deviceMemory (ambient m) with
                 | Some n => JNum n
                 | None => JUndefined
                 end |};
     {| key := js "pixelRatio"; value := JNum (window_devicePixelRatio (ambient m)) |};
     {| key := js "hardwareConcurrency";
        value := match navigator_hardwareConcurrency (ambient m) with
                 | Some n => JNum n
                 | None => JUndefined
                 end |};
     {| key := js "canvas"; value := JStr url |}]
    ++ stable_subset rs.
Proof.
  intros Hload Hcanvas Hread Hrs Hp.
  pose proof (load_components _ _ _ Hload) as Hcs.
  assert (Hall : Forall2 (reports (ambient m)) (components bf)
                   (head_results (ambient m) url ++ rs)).
  { rewrite Hcs. apply Forall2_app; [|exact Hrs].
    unfold builtin_head, head_results.
    repeat (constructor; [left; cbn; try reflexivity|]); try constructor.
    - now destruct (navigator_webdriver (ambient m)) as [[|]|].
    - now rewrite Hcanvas. }
  assert (Hlen : length (components bf) = (8 + length rest)%nat).
  { rewrite Hcs, length_app. reflexivity. }
  rewrite <- Hlen in Hp.
  rewrite (get_miss_described bf m j None _ Hread eq_refl Hall Hp).
  split; [reflexivity|]. split; [exact Hlen|]. reflexivity.
Qed.

(** X21. [FontFingerprint] measures the spans of the base fonts before
    they are in the document, where they measure zero: a font of its list is
    reported exactly when its test span has a non-zero width or height over
    one of the base fonts, so that in a browser that lays the test text out
    at all the collector reports its whole list.  What it reports is a
    sublist of that list, and without a [body] element it throws. *)
Theorem fonts_are_compared_with_unrendered_spans (h : Browser) :
  (document_body h = false -> collect FontFingerprint h = Throws TypeError) /\
  (document_body h = true ->
   exists available,
     collect FontFingerprint h
     = Returns {| key := js "fonts"; value := JArr (List.map JStr available) |} /\
     sublist available fontList /\
     (forall font,
        In font available <->
        In font fontList /\
        exists baseFont, In baseFont baseFonts /\
                         layout h (font ++ js "," ++ baseFont) <> (0, 0)) /\
     ((forall font, In font fontList ->
                    layout h (font ++ js "," ++ js "monospace") <> (0, 0)) ->
      available = fontList)).
Proof.
  split; intros Hbody; cbn [collect FontFingerprint]; rewrite Hbody; [reflexivity|].
  cbn [negb]. eexists. split; [reflexivity|].
  match goal with
  | |- context [List.filter ?d fontList] => set (detected := d)
  end.
  assert (Hdet : forall font,
            detected font = true <->
            exists baseFont, In baseFont baseFonts /\
                             layout h (font ++ js "," ++ baseFont) <> (0, 0)).
  { intros font. unfold detected. rewrite existsb_exists.
    split; intros (b & Hb & Hs); exists b; (split; [exact Hb|]);
      unfold offsetSize in *; cbn [fst snd] in *;
      destruct (layout h (font ++ js "," ++ b)) as [w ht]; cbn [fst snd] in *.
    - intros [= -> ->]. discriminate.
    - apply orb_true_iff. rewrite !negb_true_iff, !Z.eqb_neq.
      destruct (Z.eq_dec w 0) as [->|Hw]; [|now left].
      right. intros ->. now apply Hs. }
  split; [|split].
  - clear. induction fontList as [|f l IH]; [constructor|].
    cbn [List.filter]. destruct (detected f); now constructor.
  - intros font. rewrite filter_In, Hdet. reflexivity.
  - intros Hall.
    assert (Hforall : forall l, (forall f, In f l -> detected f = true) ->
                                List.filter detected l = l).
    { induction l as [|f l IH]; intros Hl; [reflexivity|].
      cbn [List.filter]. rewrite (Hl f (or_introl eq_refl)). f_equal.
      apply IH. intros g Hg. apply Hl. now right. }
    apply Hforall. intros f Hf. apply Hdet. exists (js "monospace").
    split; [now left|exact (Hall f Hf)].
Qed.

(** X22. [MediaDevicesFingerprint] reports of a device its kind, label and
    group as they are and of its [deviceId] only whether it is empty: two
    browsers whose devices differ in their non-empty identifiers only report
    the same value, an array with one entry per device in order. *)
Theorem mediaDevices_hide_the_deviceId (h h' : Browser)
    (devices devices' : list MediaDeviceInfo) :
  enumerateDevices h = Some (Normal devices) ->
  enumerateDevices h' = Some (Normal devices') ->
  Forall2 (fun d d' =>
             md_kind d = md_kind d' /\ md_label d = md_label d' /\
             md_groupId d = md_groupId d' /\
             (md_deviceId d = [] <-> md_deviceId d' = []))
    devices devices' ->
  collect MediaDevicesFingerprint h = collect MediaDevicesFingerprint h' /\
  exists entries,
    collect MediaDevicesFingerprint h
    = Resolves {| key := js "mediaDevices"; value := JArr entries |} /\
    length entries = length devices /\
    (forall i d, devices !! i = Some d ->
       entries !! i
       = Some (JObj [(js "kind", JStr (md_kind d)); (js "label", JStr (md_label d));
                     (js "deviceId",
                      JBool (negb (jsstring_eqb (md_deviceId d) [])));
                     (js "groupId", JStr (md_groupId d))])).
Proof.
  intros Hh Hh' Hsame. cbn [collect MediaDevicesFingerprint]. rewrite Hh, Hh'.
  assert (Hentry : forall d,
            JObj [(js "kind", JStr (md_kind d));
                  (js "label",
                   JStr (if ToBoolean (VString (md_label d)) then md_label d else []));
                  (js "deviceId",
                   JBool (if ToBoolean (VString (md_deviceId d)) then true else false));
                  (js "groupId", JStr (md_groupId d))]
            = JObj [(js "kind", JStr (md_kind d)); (js "label", JStr (md_label d));
                    (js "deviceId", JBool (negb (jsstring_eqb (md_deviceId d) [])));
                    (js "groupId", JStr (md_groupId d))]).
  { intros d. destruct (md_label d), (md_deviceId d); reflexivity. }
  split.
  - do 3 f_equal. clear Hh Hh'.
    induction Hsame as [|d d' l l' (Hk & Hl & Hg & Hid) _ IH]; [reflexivity|].
    cbn [List.map]. rewrite IH, !Hentry, Hk, Hl, Hg. do 5 f_equal.
    destruct (md_deviceId d), (md_deviceId d'); try reflexivity.
    + destruct Hid as [Hid _]. now specialize (Hid eq_refl).
    + destruct Hid as [_ Hid]. now specialize (Hid eq_refl).
  - eexists. split; [reflexivity|]. split; [now rewrite length_map|].
    intros i d Hd.
    match goal with
    | |- List.map ?f devices !! i = _ => change (List.map f devices) with (f <$> devices)
    end.
    rewrite list_lookup_fmap, Hd. cbn. now rewrite Hentry.
Qed.

Lemma rest_of_line_clean (s : jsstring) :
  Forall (fun c => is_line_terminator c = false) (rest_of_line s).
Proof.
  induction s as [|c s IH]; [constructor|]. cbn [rest_of_line].
  destruct (is_line_terminator c) eqn:E; now constructor.
Qed.

Lemma rest_of_line_app (fp post : jsstring) :
  Forall (fun c => is_line_terminator c = false) fp ->
  match post with [] => True | c :: _ => is_line_terminator c = true end ->
  rest_of_line (fp ++ post) = fp.
Proof.
  intros Hfp Hpost. induction Hfp as [|c fp Hc _ IH].
  - destruct post as [|c post]; [reflexivity|]. cbn. now rewrite Hpost.
  - cbn [app rest_of_line]. now rewrite Hc, IH.
Qed.

Lemma is_prefix_split (m x y : jsstring) :
  is_prefix m (x ++ y) = true -> is_prefix m x = false ->
  exists a b, m = a ++ b /\ x = a /\ b <> [] /\ is_prefix b y = true.
Proof.
  revert x. induction m as [|c m IH]; intros x Hp Hx.
  - destruct x; discriminate.
  - destruct x as [|d x].
    + exists [], (c :: m). repeat split; [discriminate|exact Hp].
    + cbn [app is_prefix] in Hp, Hx. apply andb_true_iff in Hp as [Hc Hp].
      rewrite Hc in Hx. cbn [andb] in Hx.
      destruct (IH x Hp Hx) as (a & b & -> & -> & Hb & Hby).
      apply N.eqb_eq in Hc. subst d.
      exists (c :: a), b. repeat split; assumption.
Qed.

Lemma marker_not_straddled (m pre rest : jsstring) :
  match m with c :: m' => (c =? 102)%N = true /\ forallb (fun d => negb (d =? 102)%N) m' = true
             | [] => False end ->
  pre <> [] ->
  is_prefix m pre = false ->
  is_prefix m (pre ++ 102%N :: rest) = false.
Proof.
  intros Hm Hne Hpre.
  destruct (is_prefix m (pre ++ 102%N :: rest)) eqn:Hp; [|reflexivity].
  exfalso.
  destruct (is_prefix_split m pre _ Hp Hpre) as (a & b & -> & -> & Hb & Hby).
  destruct a as [|c a]; [contradiction|].
  cbn [app] in Hm. destruct Hm as [_ Hm]. rewrite forallb_app in Hm.
  apply andb_true_iff in Hm as [_ Hm].
  destruct b as [|d b]; [contradiction|].
  cbn [is_prefix forallb] in Hby, Hm.
  apply andb_true_iff in Hby as [Hd _]. apply andb_true_iff in Hm as [Hm _].
  apply N.eqb_eq in Hd. subst d. discriminate.
Qed.

(** X23. The match of [WebRTCFingerprint] reads the fingerprint line of an
    SDP: when the text before the marker [fingerprint:sha-256 ] (or
    [fingerprint:sha-1 ]) holds no match, the capture is the text after the
    marker up to the end of the line.  No capture holds a line
    terminator. *)
Theorem sdp_match_reads_the_fingerprint_line (pre fp post : jsstring) :
  sdp_match pre = None ->
  Forall (fun c => is_line_terminator c = false) fp ->
  match post with [] => True | c :: _ => is_line_terminator c = true end ->
  sdp_match (pre ++ js "fingerprint:sha-256 " ++ fp ++ post) = Some fp /\
  sdp_match (pre ++ js "fingerprint:sha-1 " ++ fp ++ post) = Some fp /\
  (forall sdp capture, sdp_match sdp = Some capture ->
     Forall (fun c => is_line_terminator c = false) capture).
Proof.
  intros Hpre Hfp Hpost.
  assert (Hgo : forall marker : jsstring,
            (marker = js "fingerprint:sha-256 " \/ marker = js "fingerprint:sha-1 ") ->
            sdp_match (pre ++ marker ++ fp ++ post) = Some fp).
  { intros marker Hmarker.
    induction pre as [|c pre IH].
    - destruct Hmarker as [->| ->]; cbn [app];
        [change (sdp_match (js "fingerprint:sha-256 " ++ fp ++ post))
           with (Some (rest_of_line (fp ++ post)))
        |change (sdp_match (js "fingerprint:sha-1 " ++ fp ++ post))
           with (Some (rest_of_line (fp ++ post)))];
        now rewrite rest_of_line_app.
    - assert (H1 : is_prefix (js "fingerprint:sha-256 ") (c :: pre) = false /\
                   is_prefix (js "fingerprint:sha-1 ") (c :: pre) = false /\
                   sdp_match pre = None).
      { revert Hpre. clear. intros Hpre.
        change (sdp_match (c :: pre))
          with (if is_prefix (js "fingerprint:sha-256 ") (c :: pre)
                then Some (rest_of_line (skipn 20 (c :: pre)))
                else if is_prefix (js "fingerprint:sha-1 ") (c :: pre)
                then Some (rest_of_line (skipn 18 (c :: pre)))
                else sdp_match pre) in Hpre.
        destruct (is_prefix (js "fingerprint:sha-256 ") (c :: pre)); [discriminate|].
        destruct (is_prefix (js "fingerprint:sha-1 ") (c :: pre)); [discriminate|].
        now repeat split. }
      destruct H1 as (H256 & H1 & Hrest).
      assert (Hshape : exists rest, marker ++ fp ++ post = 102%N :: rest).
      { destruct Hmarker as [->| ->]; eexists; reflexivity. }
      destruct Hshape as (rest & Hshape). rewrite Hshape.
      assert (Hn256 : is_prefix (js "fingerprint:sha-256 ") ((c :: pre) ++ 102%N :: rest) = false).
      { apply marker_not_straddled; [split; reflexivity|discriminate|exact H256]. }
      assert (Hn1 : is_prefix (js "fingerprint:sha-1 ") ((c :: pre) ++ 102%N :: rest) = false).
      { apply marker_not_straddled; [split; reflexivity|discriminate|exact H1]. }
      change (sdp_match ((c :: pre) ++ 102%N :: rest))
        with (if is_prefix (js "fingerprint:sha-256 ") ((c :: pre) ++ 102%N :: rest)
              then Some (rest_of_line (skipn 20 ((c :: pre) ++ 102%N :: rest)))
              else if is_prefix (js "fingerprint:sha-1 ") ((c :: pre) ++ 102%N :: rest)
              then Some (rest_of_line (skipn 18 ((c :: pre) ++ 102%N :: rest)))
              else sdp_match (pre ++ 102%N :: rest)).
      rewrite Hn256, Hn1, <- Hshape. exact (IH Hrest). }
  split; [apply Hgo; now left|]. split; [apply Hgo; now right|].
  intros sdp capture. induction sdp as [|c sdp IH].
  - cbn. discriminate.
  - change (sdp_match (c :: sdp))
      with (if is_prefix (js "fingerprint:sha-256 ") (c :: sdp)
            then Some (rest_of_line (skipn 20 (c :: sdp)))
            else if is_prefix (js "fingerprint:sha-1 ") (c :: sdp)
            then Some (rest_of_line (skipn 18 (c :: sdp)))
            else sdp_match sdp).
    destruct (is_prefix (js "fingerprint:sha-256 ") (c :: sdp));
      [intros [= <-]; apply rest_of_line_clean|].
    destruct (is_prefix (js "fingerprint:sha-1 ") (c :: sdp));
      [intros [= <-]; apply rest_of_line_clean|exact IH].
Qed.

End CollectorFacts.

(** ** A write whose date is not read *)


Section Undated.
Context {NH : NumberHost} {host : Type}.


End Undated.

(** ** Instances of the further properties *)

Lemma hash_collides_witness :
  _hashSDP (js "x" ++ js "Aa" ++ js "y") = _hashSDP (js "x" ++ js "BB" ++ js "y") /\
  hashComponents
    [{| key := js "userAgent"; value := @JStr IntegerHost (js "Aa") |}]
  = hashComponents
      [{| key := js "userAgent"; value := @JStr IntegerHost (js "BB") |}].
Proof.
  destruct (@hash_collides IntegerHost (js "Aa") (js "BB") (js "x") (js "y")
              eq_refl eq_refl) as [H _].
  split; [exact H|].
  destruct (@hash_collides IntegerHost ([34%N] ++ js "Aa" ++ [34%N])
              ([34%N] ++ js "BB" ++ [34%N]) [] [] eq_refl eq_refl) as [_ H'].
  exact (H' (JStr (js "Aa")) (JStr (js "BB")) [] [] (js "userAgent") (js "userAgent")
            eq_refl eq_refl).
Defined.

Lemma visitorId_ignores_unstable_signals_witness :
  let m := {| clock := 1793619780000; clock_after := 1793619780250;
              ambient := tt; schedule := [1; 0]%nat |} in
  let m' := {| clock := 1793619780000; clock_after := 1793619780250;
               ambient := tt; schedule := [0; 1; 2]%nat |} in
  exists res res',
    promised (get (@scenario_session IntegerHost unit) m []) = Fulfilled res /\
    promised (get (@observed_session IntegerHost unit) m' []) = Fulfilled res' /\
    visitorId res = visitorId res'.
Proof.
  intros m m'.
  apply (@visitorId_ignores_unstable_signals IntegerHost unit
           scenario_session observed_session m m' [] []
           scenario_results
           [{| key := js "userAgent"; value := JStr (js "UA-X") |};
            {| key := js "webdriver"; value := JStr (js "true") |};
            {| key := js "canvas"; value := JStr (js "CANVAS-Y") |}]
           eq_refl eq_refl ltac:(repeat constructor) ltac:(repeat constructor)
           ltac:(simpl; apply perm_swap) ltac:(simpl; apply Permutation_refl)
           eq_refl).
Defined.




Lemma setCookie_keeps_other_records_witness :
  let this := @scenario_session IntegerHost unit in
  record_of (js "theme") (setCookie this 1793619780000 [theme_record] (js "abc"))
  = record_of (js "theme") (visible 1793619780000 [theme_record]).
Proof.
  intros this.
  apply (@setCookie_keeps_other_records IntegerHost unit this 1793619780000 365
           [theme_record] (js "abc") (js "theme")).
  - reflexivity.
  - reflexivity.
  - reflexivity.
  - simpl; lia.
  - vm_compute. split; [discriminate|reflexivity].
  - vm_compute; discriminate.
Defined.

Lemma malformed_record_rejects_get_witness :
  let this := @scenario_session IntegerHost unit in
  let m := {| clock := 1793619780000; clock_after := 1793619780250;
              ambient := tt; schedule := [1; 0]%nat |} in
  getCookie this (clock m) [theme_record; promo_record] = Throw URIError /\
  get this m [theme_record; promo_record]
  = {| promised := Rejected URIError; stored := [theme_record; promo_record]; launched := O |}.
Proof.
  intros this m.
  apply (@malformed_record_rejects_get IntegerHost unit this m [theme_record; promo_record] promo_record).
  - vm_compute. right. left. reflexivity.
  - vm_compute; reflexivity.
Defined.

Lemma getCookie_reads_exact_name_witness :
  let this := @scenario_session IntegerHost unit in
  let j := [theme_record;
            {| c_name := js "xsmbfjs_id"; c_value := js "no"; c_expires := None |};
            {| c_name := js "smbfjs_id2"; c_value := js "no"; c_expires := None |};
            {| c_name := js "smbfjs_id"; c_value := js "abc"; c_expires := None |}] in
  getCookie this 1793619780000 j
  = Normal (option_map c_value (record_of (js "smbfjs_id") (visible 1793619780000 j))).
Proof.
  intros this j.
  apply (@getCookie_reads_exact_name IntegerHost unit this 1793619780000 j).
  - reflexivity.
  - discriminate.
  - repeat constructor.
Defined.

Lemma unsettled_collector_leaves_get_pending_witness :
  let this := @scenario_session IntegerHost unit in
  let m := {| clock := 1793619780000; clock_after := 1793619780250;
              ambient := tt; schedule := [0]%nat |} in
  get this m [] = {| promised := Pending; stored := []; launched := 2 |}.
Proof.
  intros this m.
  apply (@unsettled_collector_leaves_get_pending IntegerHost unit this m [] None
           scenario_results 1%nat eq_refl eq_refl ltac:(repeat constructor)).
  - repeat constructor. intros H. apply elem_of_nil in H. exact H.
  - intros i Hi. apply list_elem_of_singleton in Hi. subst. simpl. lia.
  - simpl. lia.
  - intros H. apply list_elem_of_singleton in H. discriminate.
Defined.

Lemma throwing_collector_stops_collection_witness :
  let this := @broken_session IntegerHost unit in
  let m := {| clock := 1793619780000; clock_after := 1793619780250;
              ambient := tt; schedule := [0; 1; 2]%nat |} in
  get this m []
  = {| promised := Rejected (Error (js "no context")); stored := []; launched := 2 |}.
Proof.
  intros this m.
  apply (@throwing_collector_stops_collection IntegerHost unit this m [] None
           [fixed_collector "userAgent" "UA-X"] [fixed_collector "canvas" "CANVAS-Y"]
           (throwing_collector "no context") (Error (js "no context"))
           eq_refl eq_refl eq_refl).
  - repeat constructor. intros e'. discriminate.
  - reflexivity.
Defined.

Lemma retry_resolves_with_first_success_witness :
  retry (flaky 2 (js "ok")) None None
  = {| settled := Fulfilled (js "ok"); calls := 3; timers := [1000; 1000] |}.
Proof.
  apply (@retry_resolves_with_first_success jsstring (flaky 2 (js "ok")) None None
           2%nat (js "ok")).
  - intros n Hn. exists (Error (js "busy")). unfold flaky.
    now replace (n <? 2)%nat with true by (symmetry; apply Nat.ltb_lt; lia).
  - reflexivity.
  - vm_compute. lia.
Defined.

Lemma retry_rejects_with_last_error_witness :
  retry (flaky 5 (js "ok")) (Some 1) (Some 250)
  = {| settled := Rejected (Error (js "busy")); calls := 2; timers := [250] |}.
Proof.
  apply (@retry_rejects_with_last_error jsstring (flaky 5 (js "ok")) (Some 1)
           (Some 250) (Error (js "busy"))).
  - intros n Hn. exists (Error (js "busy")). unfold flaky.
    replace (n <? 5)%nat with true; [reflexivity|].
    symmetry; apply Nat.ltb_lt. change (granted (Some 1)) with 1%nat in Hn. lia.
  - reflexivity.
Defined.

Lemma retry_exception_is_lost_witness :
  retry (@crashing jsstring) None None
  = {| settled := Pending; calls := 2; timers := [1000] |}.
Proof.
  apply (@retry_exception_is_lost jsstring crashing None None 1%nat TypeError).
  - intros n Hn. exists (Error (js "busy")). now replace n with O by lia.
  - reflexivity.
  - vm_compute. lia.
Defined.

Lemma exclude_drops_listed_keys_witness :
  let obj := {| own := [(js "a", VNumber 1); (js "__proto__", VNumber 5);
                        (js "b", VNumber 2)];
                prototype := ObjectPrototype |} in
  let excludeKeys := [VString (js "b"); VNumber 7] in
  exists result,
    exclude kind_of_jsval obj excludeKeys = Some result /\
    (forall k, listed excludeKeys k -> get_own (own result) k = None) /\
    (forall k, ~ listed excludeKeys k -> k <> js "__proto__" ->
               get_own (own result) k = get_own (own obj) k) /\
    get_own (own result) (js "__proto__") = None /\
    (forall k v, get_own (own result) k = Some v -> get_own (own obj) k = Some v) /\
    (get_own (own obj) (js "__proto__") = None -> prototype result = ObjectPrototype).
Proof.
  intros obj excludeKeys.
  apply (@exclude_drops_listed_keys jsval kind_of_jsval obj excludeKeys).
  - unfold distinct_keys. simpl.
    repeat (apply NoDup_cons; split;
            [rewrite list_elem_of_In; simpl; intuition discriminate|]).
    apply NoDup_nil. exact I.
  - intros v. vm_compute. intros [= <-]. discriminate.
Defined.

Lemma assign_later_sources_win_witness :
  let target := {| own := [(js "a", VNumber 1); (js "b", VNumber 2)];
                   prototype := ObjectPrototype |} in
  let sources := [Some {| own := [(js "b", VNumber 3); (js "c", VNumber 4)];
                          prototype := ObjectPrototype |};
                  None;
                  Some {| own := [(js "c", VNumber 5)]; prototype := NoPrototype |}] in
  exists t,
    assign kind_of_jsval target sources = Some t /\
    prototype t = prototype target /\
    (forall k, get_own (own t) k
       = match supplied sources k with
         | Some v => Some v
         | None => get_own (own target) k
         end).
Proof.
  intros target sources.
  apply (@assign_later_sources_win jsval kind_of_jsval target sources).
  - intros p. discriminate.
  - constructor; [split; [|reflexivity]|].
    2: constructor; [exact I|].
    2: constructor; [split; [|reflexivity]|constructor].
    all: unfold distinct_keys; simpl;
      repeat (apply NoDup_cons; split;
              [rewrite list_elem_of_In; simpl; intuition discriminate|]);
      apply NoDup_nil; exact I.
Defined.

Lemma missing_canvas_context_rejects_get_witness :
  let options := {| o_apiKey := VString (js "k"); o_cookieName := VUndefined;
                    o_cookieDays := VUndefined |} in
  let rest := [@FontFingerprint IntegerHost; MediaDevicesFingerprint] in
  let bf := fold_left addComponent (builtin_head ++ rest)
              {| Fingerprint.options := options; apiKey := VString (js "k");
                 cookieName := VString (js "smbfjs_id"); cookieDays := VNumber 365;
                 components := [] |} in
  let m := {| clock := 1793619780000; clock_after := 1793619780250;
              ambient := sample_browser "cam-1"; schedule := [] |} in
  collect CanvasFingerprint (ambient m) = Throws TypeError /\
  get bf m [] = {| promised := Rejected TypeError; stored := []; launched := 8 |}.
Proof.
  intros options rest bf m.
  apply (@missing_canvas_context_rejects_get IntegerHost rest options bf m [] None);
    reflexivity.
Defined.

Lemma mediaDevices_hide_the_deviceId_witness :
  collect MediaDevicesFingerprint (sample_browser "cam-1")
  = collect MediaDevicesFingerprint (sample_browser "cam-2") /\
  exists entries,
    collect MediaDevicesFingerprint (sample_browser "cam-1")
    = Resolves {| key := js "mediaDevices"; value := JArr entries |} /\
    length entries = length [camera "cam-1"] /\
    (forall i d, [camera "cam-1"] !! i = Some d ->
       entries !! i
       = Some (JObj [(js "kind", JStr (md_kind d)); (js "label", JStr (md_label d));
                     (js "deviceId",
                      JBool (negb (jsstring_eqb (md_deviceId d) [])));
                     (js "groupId", JStr (md_groupId d))])).
Proof.
  apply (@mediaDevices_hide_the_deviceId IntegerHost (sample_browser "cam-1")
           (sample_browser "cam-2") [camera "cam-1"] [camera "cam-2"]
           eq_refl eq_refl).
  repeat constructor; discriminate.
Defined.

Lemma sdp_match_reads_the_fingerprint_line_witness :
  let pre := js "v=0" ++ [13; 10]%N ++ js "a=ice-ufrag:f00" ++ [13; 10]%N ++ js "a=" in
  let post := [13; 10]%N ++ js "a=setup:actpass" in
  sdp_match (pre ++ js "fingerprint:sha-256 " ++ js "AB:CD" ++ post) = Some (js "AB:CD") /\
  sdp_match (pre ++ js "fingerprint:sha-1 " ++ js "AB:CD" ++ post) = Some (js "AB:CD") /\
  (forall sdp capture, sdp_match sdp = Some capture ->
     Forall (fun c => is_line_terminator c = false) capture).
Proof.
  intros pre post.
  apply (sdp_match_reads_the_fingerprint_line pre (js "AB:CD") post).
  - vm_compute; reflexivity.
  - repeat constructor.
  - reflexivity.
Defined.


Lemma loaded_session_reads_the_browser_witness :
  let options := {| o_apiKey := VString (js "k"); o_cookieName := VUndefined;
                    o_cookieDays := VUndefined |} in
  let rest := [@MediaDevicesFingerprint IntegerHost] in
  let bf := fold_left addComponent (builtin_head ++ rest)
              {| Fingerprint.options := options; apiKey := VString (js "k");
                 cookieName := VString (js "smbfjs_id"); cookieDays := VNumber 365;
                 components := [] |} in
  let m := {| clock := 1793619780000; clock_after := 1793619780250;
              ambient := painting_browser; schedule := [8; 0; 1; 2; 3; 4; 5; 6; 7]%nat |} in
  exists devices,
    promised (get bf m [])
    = Fulfilled {| visitorId := js "-712b382f"; fromCookie := None;
                   r_components := Some (head_results painting_browser (js "data:image/png;base64,iVBORw0KGgo=")
                                         ++ [{| key := js "mediaDevices"; value := devices |}]) |} /\
    launched (get bf m []) = 9%nat.
Proof.
  intros options rest bf m.
  eexists.
  destruct (@loaded_session_reads_the_browser IntegerHost rest options bf m []
              (js "data:image/png;base64,iVBORw0KGgo=")
              [{| key := js "mediaDevices"; value := _ |}]
              eq_refl eq_refl eq_refl
              ltac:(repeat constructor; right; reflexivity)
              ltac:(exact (Permutation_cons_append [0; 1; 2; 3; 4; 5; 6; 7]%nat 8%nat)))
    as (Hres & Hrun & _).
  split; [exact Hres|exact Hrun].
Defined.

Lemma fonts_are_compared_with_unrendered_spans_witness :
  collect FontFingerprint (sample_browser "cam-1")
  = Returns {| key := js "fonts"; value := JArr (List.map JStr fontList) |}.
Proof.
  destruct (proj2 (@fonts_are_compared_with_unrendered_spans IntegerHost
                     (sample_browser "cam-1")) eq_refl)
    as (available & Hget & _ & _ & Hall).
  rewrite Hget, Hall; [reflexivity|].
  intros font _. discriminate.
Defined.
